(** * Defect thermal-migration voxelizer (src/defect.py): shallow embedding

    The numeric stages of [defect.py] are embedded as executable
    functions.  Python floats are modelled by exact rationals ([Q]), so
    every statement below is a statement of exact arithmetic; Python
    integers are [Z].  pandas tables are lists of records, a column
    operation is a [map] or an index-aligned zip over such a list, and a
    missing value (NaN) of a column is [None].

    Code that can stop early is embedded with an explicit [outcome]:
    a normal return, a [return] of [None] after a printed message,
    a [sys.exit], or an uncaught Python exception. *)

From Stdlib Require Import QArith Qround Qabs Qminmax ZArith List Bool Lia Lqa.
From Stdlib Require Import String Sorted Permutation.
Import ListNotations.

Local Open Scope Z_scope.
Local Open Scope Q_scope.

(* ================================================================== *)
(** * Part I: the embedding *)
(* ================================================================== *)

(** ** Python helpers *)

(** [int(q)] on a float: truncation toward zero. *)
Definition py_int (q : Q) : Z :=
  if Qle_bool 0 q then Qfloor q else Qceiling q.

(** [math.ceil]. *)
Definition math_ceil (q : Q) : Z := Qceiling q.

(** [n % 2 == 0]; Python's [%] takes the sign of the divisor, as [Z.modulo]. *)
Definition is_even (n : Z) : bool := (n mod 2 =? 0)%Z.

(** How a run of Python code ends. *)
Inductive pyexn : Type :=
| IndexError | ValueError | KeyError | NameError | AttributeError
| ArithmeticError.  (* the class of [OverflowError] and [ZeroDivisionError] *)

Inductive outcome (A : Type) : Type :=
| Returned (a : A)             (* normal return of a value *)
| PrintedNone (msg : string)   (* [print(msg)] followed by a bare [return] *)
| SysExit (count total : Z)    (* [sys.exit] with the overlap diagnostic *)
| Raised (e : pyexn).          (* uncaught exception *)
Arguments Returned {A} a.
Arguments PrintedNone {A} msg.
Arguments SysExit {A} count total.
Arguments Raised {A} e.

(** ** Module-level grid size (defect.py, lines 54-61 and 426-429) *)

Section GridSize.
(** [max_x] is read with [int(...)]; [delta_x] is an entry of
    [fdtd_grid_size]. *)
Variable max_x : Z.
Variable delta_x : Q.

Definition Nx : Z := math_ceil (inject_Z max_x / delta_x).

(** The value of [max_x] after the parity block. *)
Definition max_x_adjusted : Q :=
  if is_even Nx then inject_Z (1 + Nx) * delta_x else inject_Z max_x.

(** [int(max_x / delta_x)]: the extent of the simulation array. *)
Definition grid_samples : Z := py_int (max_x_adjusted / delta_x).
End GridSize.

(** ** Heat equation variables (defect.py, lines 415-419) *)

Section HeatVariables.
Variables delta_x delta_y diffusion_coefficient : Q.
Variable max_time : Z.

Definition delta_t : Q := (delta_x * delta_y) / (4 * diffusion_coefficient).
Definition max_iterations : Z := py_int (inject_Z max_time / delta_t).
Definition gamma : Q := (diffusion_coefficient * delta_t) / (delta_x * delta_y).
End HeatVariables.

(** ** Stack Assembler: air top (input_mask_conversion, lines 140-151) *)

Definition Airtop_thickness : Q := 220.

Record StackRow : Type := mkStackRow {
  layer_number : Z;
  material : string;
  thickness : Q
}.

(** [format(q, '.8f')] read back as a number: [q] rounded to 8 decimals,
    ties to even. *)
Definition round_half_even (q : Q) : Z :=
  let f := Qfloor q in
  let r := q - inject_Z f in
  if Qle_bool r (1#2)
  then (if Qeq_bool r (1#2) then (if Z.even f then f else f + 1)%Z else f)
  else (f + 1)%Z.

Definition format_8f (q : Q) : Q :=
  inject_Z (round_half_even (q * inject_Z (10 ^ 8))) / inject_Z (10 ^ 8).

Section AirTop.
(** [mask_stack] as built from the input table; [delta_z] in nm. *)
Variable mask_stack : list StackRow.
Variable delta_z : Q.

(** [mask_stack.loc[len(mask_stack.index)] = [len + 1, 'air', Airtop_thickness * 0.001]] *)
Definition mask_stack_with_air : list StackRow :=
  mask_stack ++
  [ mkStackRow (Z.of_nat (List.length mask_stack) + 1) "air"
               (Airtop_thickness * (1#1000)) ].

Definition total_thickness : Q :=
  fold_left (fun acc r => acc + thickness r) mask_stack_with_air 0.

Definition total_thickness_rounded : Q :=
  if is_even (math_ceil (total_thickness / (delta_z * (1#1000))))
  then (delta_z * (1#1000)) *
       inject_Z (math_ceil (total_thickness / (delta_z * (1#1000))) - 1)
  else (delta_z * (1#1000)) *
       inject_Z (math_ceil (total_thickness / (delta_z * (1#1000)))).

Definition adjusted_airtop_thickness : Q :=
  Airtop_thickness * (1#1000) + (total_thickness_rounded - total_thickness).

(** [mask_stack.loc[mask_stack.material == 'air', 'thickness'] = format(..., '.8f')] *)
Definition mask_stack_adjusted : list StackRow :=
  map (fun r =>
         if String.eqb (material r) "air"
         then mkStackRow (layer_number r) (material r)
                         (format_8f adjusted_airtop_thickness)
         else r)
      mask_stack_with_air.

(** The quotient of line 146 is computed in floating point.  Where the
    exact quotient is an integer its computed value can lie just above
    it, and [math.ceil] then gives the next integer.  Lines 146-151 for
    a given value [c] of [math.ceil(total_thickness / (delta_z * 0.001))]: *)
Definition total_thickness_rounded_at (c : Z) : Q :=
  if is_even c
  then (delta_z * (1#1000)) * inject_Z (c - 1)
  else (delta_z * (1#1000)) * inject_Z c.

Definition adjusted_airtop_thickness_at (c : Z) : Q :=
  Airtop_thickness * (1#1000) + (total_thickness_rounded_at c - total_thickness).

Definition mask_stack_adjusted_at (c : Z) : list StackRow :=
  map (fun r =>
         if String.eqb (material r) "air"
         then mkStackRow (layer_number r) (material r)
                         (format_8f (adjusted_airtop_thickness_at c))
         else r)
      mask_stack_with_air.
End AirTop.

(** A five-layer stack (thickness in um) used to exercise the air top. *)
Definition example_stack : list StackRow :=
  [ mkStackRow 1 "Qz" (20 # 1000);
    mkStackRow 2 "Si_1" (4 # 1000);
    mkStackRow 3 "Mo" (3 # 1000);
    mkStackRow 4 "Ru" (25 # 10000);
    mkStackRow 5 "TaN" (60 # 1000) ].

(** A stack whose total with the air top, 0.290, is 290 steps of
    [delta_z = 1]; the sum in floating point is 0.29000000000000004 and
    the ceiling of the computed quotient is 291. *)
Definition example_stack_on_boundary : list StackRow :=
  [ mkStackRow 1 "Mo" (29 # 1000);
    mkStackRow 2 "Si_1" (41 # 1000) ].

(** ** Diffusion Simulator (image_shift_roll, calculate2D; lines 236-253) *)

(** One time slice [u[k]], indexed [x][y]. *)
Definition image : Type := list (list Q).

(** [np.roll(l, shift)] along one axis: element [i] moves to
    [(i + shift) mod n]. *)
Definition np_roll {A : Type} (shift : Z) (l : list A) : list A :=
  match l with
  | [] => []
  | _ :: _ =>
      let n := List.length l in
      let k := Z.to_nat (shift mod Z.of_nat n) in
      skipn (n - k) l ++ firstn (n - k) l
  end.

Definition image_shift_roll (img : image) (x_roll y_roll : Z) : image :=
  let img_roll := np_roll (- y_roll) img in      (* axis 0 *)
  map (np_roll x_roll) img_roll.                 (* axis 1 *)

Fixpoint map2 {A B C : Type} (f : A -> B -> C) (l1 : list A) (l2 : list B)
  : list C :=
  match l1, l2 with
  | a :: l1', b :: l2' => f a b :: map2 f l1' l2'
  | _, _ => []
  end.

Definition img_add (a b : image) : image := map2 (map2 Qplus) a b.
Definition img_sub (a b : image) : image := map2 (map2 Qminus) a b.
Definition img_scale (c : Q) (a : image) : image := map (map (Qmult c)) a.

(** [l[i] = v] for an index already known to be in range. *)
Fixpoint list_set {A : Type} (i : nat) (v : A) (l : list A) : list A :=
  match l, i with
  | [], _ => []
  | _ :: l', O => v :: l'
  | a :: l', S i' => a :: list_set i' v l'
  end.

(** The position [l[i]] addresses on an axis of [n] items, negative
    indices counting from the end; [None] is an [IndexError]. *)
Definition py_index (n : nat) (i : Z) : option nat :=
  if ((0 <=? i) && (i <? Z.of_nat n))%Z then Some (Z.to_nat i)
  else if ((- Z.of_nat n <=? i) && (i <? 0))%Z then Some (Z.to_nat (Z.of_nat n + i))
  else None.

Section Calculate2D.
(** The module-level [gamma], [max_iterations], [int(max_x / delta_x)]
    and [int(max_y / delta_y)]; the array [u] is allocated with the shape
    [(max_iterations, nx, ny)]. *)
Variable gamma_ : Q.
Variable max_iterations_ : Z.
Variables nx ny : Z.

(** The right-hand side of the update of [u[k + 1]]. *)
Definition stencil (uk : image) : image :=
  img_add
    (img_scale gamma_
       (img_sub
          (img_add
             (img_add
                (img_add (image_shift_roll uk 1 0) (image_shift_roll uk (-1) 0))
                (image_shift_roll uk 0 1))
             (image_shift_roll uk 0 (-1)))
          (img_scale 4 uk)))
    uk.

(** [u[:, :, j] = 0] *)
Definition zero_column (j : nat) (u : list image) : list image :=
  map (map (list_set j 0)) u.

(** [u[:, i, :] = 0] *)
Definition zero_row (i : nat) (u : list image) : list image :=
  map (fun img => match nth_error img i with
                  | Some row => list_set i (map (fun _ => 0) row) img
                  | None => img
                  end) u.

(** [u[:, i, j] = 0] *)
Definition zero_cell (i j : nat) (u : list image) : list image :=
  map (fun img => match nth_error img i with
                  | Some row => list_set i (list_set j 0 row) img
                  | None => img
                  end) u.

(** The four assignments after the update, as written in the source:
    the third one addresses a single cell.  [i] and [j] are the positions
    that the indices [int(max_x / delta_x) - 1] and
    [int(max_y / delta_y) - 1] address on their axes. *)
Definition heat_sink (i j : nat) (u : list image) : list image :=
  let u := zero_column 0 u in
  let u := zero_row 0 u in
  let u := zero_cell i 0 u in
  zero_column j u.

(** One pass of the loop body.  The extents of the array are those of its
    slices, [a] rows of [b] cells.  Index 0 on an axis of extent 0
    raises; the indices [nx - 1] and [ny - 1] are resolved as numpy does,
    a negative index counting from the end of its axis and an index
    outside [-extent .. extent - 1] raising [IndexError]. *)
Definition calculate2D_step (k : nat) (u : list image)
  : outcome (list image) :=
  match nth_error u k with
  | None => Raised IndexError
  | Some uk =>
      if (S k <? List.length u)%nat
      then
        let a := List.length uk in
        let b := List.length (hd [] uk) in
        if ((0 <? a) && (0 <? b))%nat
        then match py_index a (nx - 1), py_index b (ny - 1) with
             | Some i, Some j =>
                 Returned (heat_sink i j (list_set (S k) (stencil uk) u))
             | _, _ => Raised IndexError
             end
        else Raised IndexError
      else Raised IndexError
  end.

Fixpoint calculate2D_loop (ks : list nat) (u : list image)
  : outcome (list image) :=
  match ks with
  | [] => Returned u
  | k :: ks' =>
      match calculate2D_step k u with
      | Returned u' => calculate2D_loop ks' u'
      | other => other
      end
  end.

(** [for k in range(0, max_iterations - 1, 1)] *)
Definition calculate2D (u : list image) : outcome (list image) :=
  calculate2D_loop (seq 0 (Z.to_nat (max_iterations_ - 1))) u.
End Calculate2D.

(** [u[t][x][y]], 0 outside the array. *)
Definition cell (u : list image) (t x y : nat) : Q :=
  nth y (nth x (nth t u []) []) 0.

(** *** Initial condition (lines 426-438) *)

Section InitialCondition.
Variables delta_x delta_y : Q.
Variables defect_center_x defect_center_y defect_x defect_y : Q.
Variable defect_temperature : Q.
Variable max_iterations_ : Z.
Variables nx ny : Z.

Definition in_footprint (x y : nat) : bool :=
  Qle_bool (defect_center_x - defect_x / 2) (inject_Z (Z.of_nat x) * delta_x) &&
  Qle_bool (defect_center_y - defect_y / 2) (inject_Z (Z.of_nat y) * delta_y) &&
  Qle_bool (inject_Z (Z.of_nat x) * delta_x) (defect_center_x + defect_x / 2) &&
  Qle_bool (inject_Z (Z.of_nat y) * delta_y) (defect_center_y + defect_y / 2).

Definition zeros : image :=
  repeat (repeat 0 (Z.to_nat ny)) (Z.to_nat nx).

Definition footprint : image :=
  map (fun x => map (fun y => if in_footprint x y
                              then defect_temperature else 0)
                    (seq 0 (Z.to_nat ny)))
      (seq 0 (Z.to_nat nx)).

(** Some grid point lies in the footprint of the defect. *)
Definition footprint_has_cell : bool :=
  existsb (fun x => existsb (in_footprint x) (seq 0 (Z.to_nat ny)))
          (seq 0 (Z.to_nat nx)).

(** [u_initial]: the footprint at step 0, zero at every other step.
    With [max_iterations = 0] the array has no step 0, and the first
    assignment [u_initial[0, x, y] = defect_temperature] raises
    [IndexError]; without a grid point in the footprint no assignment
    runs and the array stays empty. *)
Definition u_initial : outcome (list image) :=
  match Z.to_nat max_iterations_ with
  | O => if footprint_has_cell then Raised IndexError else Returned []
  | S m => Returned (footprint :: repeat zeros m)
  end.
End InitialCondition.

(** A 3 x 3 grid ([max_x = max_y = 6], [delta_x = delta_y = 2]) with a
    1 x 1 defect of temperature 4 at its centre, two time steps. *)
Definition example_u : list image :=
  match u_initial 2 2 2 2 1 1 4 2 3 3 with
  | Returned u => u
  | _ => []
  end.

(** ** Table helpers *)

(** [drop_duplicates] / [unique]: keep the first occurrence, in order of
    appearance. *)
Fixpoint drop_duplicates_from {A : Type} (eqb : A -> A -> bool)
         (seen : list A) (l : list A) : list A :=
  match l with
  | [] => []
  | a :: l' =>
      if existsb (eqb a) seen
      then drop_duplicates_from eqb seen l'
      else a :: drop_duplicates_from eqb (a :: seen) l'
  end.

Definition drop_duplicates {A : Type} (eqb : A -> A -> bool) (l : list A)
  : list A := drop_duplicates_from eqb [] l.

(** [sort_values]: a stable insertion sort for a boolean "at most" test. *)
Fixpoint insert_sorted {A : Type} (leb : A -> A -> bool) (a : A) (l : list A)
  : list A :=
  match l with
  | [] => [a]
  | b :: l' => if leb a b then a :: l else b :: insert_sorted leb a l'
  end.

Fixpoint sort_values {A : Type} (leb : A -> A -> bool) (l : list A) : list A :=
  match l with
  | [] => []
  | a :: l' => insert_sorted leb a (sort_values leb l')
  end.

(** The order and the equality of [(x, y)] grid points, as used by
    [sort_values(by=['x', 'y'])] and [drop_duplicates()]. *)
Definition xy_leb (a b : Z * Z) : bool :=
  (fst a <? fst b)%Z || ((fst a =? fst b)%Z && (snd a <=? snd b)%Z).

Definition xy_eqb (a b : Z * Z) : bool :=
  (fst a =? fst b)%Z && (snd a =? snd b)%Z.

(** ** Mask Classifier (lines 626-659) *)

Module Mask.

(** A row of [df_total]; the columns joined by [merge_asof] are NaN
    ([None]) where no layer matched. *)
Record Row : Type := mkRow {
  x : Z;
  y : Z;
  data : Q;
  layer_number : option Q;
  material : option string;
  thickness : option Q
}.

(** A row of [df_xy]. *)
Record XY : Type := mkXY {
  xy_x : Z;
  xy_y : Z;
  inside_polygon : bool
}.

(** A [gdspy.PolygonSet] as far as the classifier reads it:
    [layers[0]], [datatypes[0]] and the list [polygons]. *)
Record PolygonSet (polygon : Type) : Type := mkPolygonSet {
  layers0 : Z;
  datatypes0 : Z;
  polygons : list polygon
}.
Arguments layers0 {polygon} _.
Arguments datatypes0 {polygon} _.
Arguments polygons {polygon} _.

Section Classifier.
(** The geometry library is opaque: [contains p x y] stands for
    [Polygon([q * 1000 for q in p]).buffer(1E-9).contains(Point(x, y))]. *)
Variable polygon : Type.
Variable contains : polygon -> Z -> Z -> bool.

Variable coup_cell_polygons : list (PolygonSet polygon).
Variable layer_id : Z * Z.
Variable pos_tone : bool.
Variable absorber_layers : list string.
Variable df_total : list Row.

(** [df_total[['x', 'y']].sort_values(by=['x', 'y']).drop_duplicates()] *)
Definition xy_points : list (Z * Z) :=
  drop_duplicates xy_eqb
    (sort_values xy_leb (map (fun r => (x r, y r)) df_total)).

(** A table of points with the column [inside_polygon] given by [f]. *)
Definition tag_points (f : Z * Z -> bool) (points : list (Z * Z)) : list XY :=
  map (fun k => mkXY (fst k) (snd k) (f k)) points.

(** [df_xy['inside_polygon'] = False] *)
Definition df_xy_initial : list XY := tag_points (fun _ => false) xy_points.

(** The inner [for index, row in df_xy.iterrows()] for one polygon. *)
Definition test_polygon (df_xy : list XY) (p : polygon) : list XY :=
  map (fun row =>
         if inside_polygon row then row
         else mkXY (xy_x row) (xy_y row)
                   (contains p (xy_x row) (xy_y row)))
      df_xy.

Definition on_layer (poly : PolygonSet polygon) : bool :=
  (layers0 poly =? fst layer_id)%Z && (datatypes0 poly =? snd layer_id)%Z.

(** The loop over [coup_cell.polygons]. *)
Definition df_xy : list XY :=
  fold_left
    (fun acc poly =>
       if on_layer poly then fold_left test_polygon (polygons poly) acc
       else acc)
    coup_cell_polygons df_xy_initial.

(** [df_total['material'].isin(absorber_layers)] *)
Definition isin_absorber (r : Row) : bool :=
  match material r with
  | Some m => existsb (String.eqb m) absorber_layers
  | None => false
  end.

(** [.merge(df_xy, on=['x', 'y'], how='left')]: every left row, once
    per matching right row, or once with NaN when nothing matches. *)
Definition merge_left (left : list Row) (right : list XY)
  : list (Row * option bool) :=
  flat_map
    (fun l =>
       match filter (fun m => (xy_x m =? x l)%Z && (xy_y m =? y l)%Z) right with
       | [] => [(l, None)]
       | ms => map (fun m => (l, Some (inside_polygon m))) ms
       end)
    left.

(** [.loc[inside_polygon == pos_tone, 'material'] = 'air'], then the
    column [inside_polygon] is dropped. *)
Definition clear_if_tone (lm : Row * option bool) : Row :=
  let (l, inside) := lm in
  match inside with
  | Some b =>
      if Bool.eqb b pos_tone
      then mkRow (x l) (y l) (data l) (layer_number l) (Some "air"%string)
                 (thickness l)
      else l
  | None => l
  end.

Definition df_total_toplayers : list Row :=
  map clear_if_tone (merge_left (filter isin_absorber df_total) df_xy).

Definition df_total_new : list Row :=
  filter (fun r => negb (isin_absorber r)) df_total ++ df_total_toplayers.

(** The polygon-containment result of a point: it lies in some polygon
    of some polygon set on the configured layer. *)
Definition containment (px py : Z) : bool :=
  existsb (fun poly =>
             on_layer poly &&
             existsb (fun p => contains p px py) (polygons poly))
          coup_cell_polygons.
End Classifier.

End Mask.

(** ** Time series tables (Depth Resampler and Overlap Resolver) *)

(** Arithmetic on a column entry that may be NaN. *)
Definition nan_add (a b : option Q) : option Q :=
  match a, b with Some p, Some q => Some (p + q) | _, _ => None end.
Definition nan_sub (a b : option Q) : option Q :=
  match a, b with Some p, Some q => Some (p - q) | _, _ => None end.
Definition nan_mul (a b : option Q) : option Q :=
  match a, b with Some p, Some q => Some (p * q) | _, _ => None end.
Definition nan_half (a : option Q) : option Q :=
  match a with Some p => Some (p / 2) | None => None end.

(** Entry [i] of a column, NaN where the index label is absent. *)
Definition at_index (s : list (option Q)) (i : nat) : option Q :=
  match nth_error s i with Some v => v | None => None end.

(** The union of the index labels [0 .. len - 1] of two columns. *)
Definition index_union (a b : list (option Q)) : list nat :=
  seq 0 (Nat.max (List.length a) (List.length b)).

(** [a.subtract(b, fill_value=0)]: a NaN or absent entry counts as 0
    unless both are. *)
Definition sub_fill0 (p q : option Q) : option Q :=
  match p, q with
  | Some u, Some v => Some (u - v)
  | Some u, None => Some (u - 0)
  | None, Some v => Some (0 - v)
  | None, None => None
  end.

Definition subtract_fill0 (a b : list (option Q)) : list (option Q) :=
  map (fun i => sub_fill0 (at_index a i) (at_index b i)) (index_union a b).

(** [a + b] on two columns, aligned on the index. *)
Definition series_add (a b : list (option Q)) : list (option Q) :=
  map (fun i => nan_add (at_index a i) (at_index b i)) (index_union a b).

(** [s.min()], skipping NaN; NaN when nothing is left. *)
Fixpoint series_min (s : list (option Q)) : option Q :=
  match s with
  | [] => None
  | None :: s' => series_min s'
  | Some v :: s' =>
      match series_min s' with
      | Some m => Some (Qmin v m)
      | None => Some v
      end
  end.

(** [m < 0] for a possibly NaN [m]; a comparison with NaN is false. *)
Definition nan_negative (m : option Q) : bool :=
  match m with Some v => negb (Qle_bool 0 v) | None => false end.

(** [df[['a', 'b']].min(axis=1)]: the row-wise minimum, skipping NaN. *)
Definition min_skipna (p q : option Q) : option Q :=
  match p, q with
  | Some u, Some v => Some (Qmin u v)
  | Some u, None => Some u
  | None, Some v => Some v
  | None, None => None
  end.

Module Frame.

(** A row of the simulation table [df]: dense numeric data. *)
Record Sample : Type := mkSample {
  s_time : Q;
  s_x : Z;
  s_y : Z;
  s_data : Q
}.

(** A row of a resampled table; [data] may be NaN. *)
Record Row : Type := mkRow {
  time : Q;
  x : Z;
  y : Z;
  data : option Q
}.

Definition of_sample (s : Sample) : Row :=
  mkRow (s_time s) (s_x s) (s_y s) (Some (s_data s)).

Definition with_data (r : Row) (d : option Q) : Row :=
  mkRow (time r) (x r) (y r) d.

(** [df[col] = s] on a table with index [0 .. len - 1]. *)
Definition assign_data (df : list Row) (s : list (option Q)) : list Row :=
  map (fun ir => with_data (snd ir) (at_index s (fst ir)))
      (combine (seq 0 (List.length df)) df).

(** [.unique()] on a time column. *)
Definition unique (ts : list Q) : list Q := drop_duplicates Qeq_bool ts.

(** [df[df['time'] == t]] *)
Definition at_time (df : list Row) (t : Q) : list Row :=
  filter (fun r => Qeq_bool (time r) t) df.

(** [sort_values(by=['time', 'x', 'y'])] *)
Definition row_leb (a b : Row) : bool :=
  negb (Qle_bool (time b) (time a)) ||
  (Qeq_bool (time a) (time b) &&
   ((x a <? x b)%Z || ((x a =? x b)%Z && (y a <=? y b)%Z))).

(** *** Depth Resampler: changeDataRes (lines 257-310) *)

Definition Qlt_bool (a b : Q) : bool := negb (Qle_bool b a).

Definition insufficient_data_message : string :=
  "Error due to insufficient amount of data to interpolate. Extend time of simulation..".

(** [a.argmin()]: the first index of the least entry; raises on an empty
    array ([None]). *)
Fixpoint argmin_from (best : Q) (best_i i : nat) (l : list Q) : nat :=
  match l with
  | [] => best_i
  | a :: l' =>
      if Qlt_bool a best then argmin_from a i (S i) l'
      else argmin_from best best_i (S i) l'
  end.

Definition argmin (l : list Q) : option nat :=
  match l with
  | [] => None
  | a :: l' => Some (argmin_from a 0 1 l')
  end.

(** [a[i]] with numpy's negative indices; [None] is an IndexError. *)
Definition np_getitem (a : list Q) (i : Z) : option Q :=
  let n := Z.of_nat (List.length a) in
  if ((0 <=? i) && (i <? n))%Z then nth_error a (Z.to_nat i)
  else if ((- n <=? i) && (i <? 0))%Z then nth_error a (Z.to_nat (n + i))
  else None.

(** The mean of the data of one [(x, y)] cell at one time: an entry of
    [pivot_table(index=['x', 'y'], columns='time', values='data',
    aggfunc=np.mean)]; NaN when the cell has no row at that time. *)
Definition pivot_entry (df : list Sample) (c : Z * Z) (t : Q) : option Q :=
  let group :=
    filter (fun s => xy_eqb (s_x s, s_y s) c && Qeq_bool (s_time s) t) df in
  match group with
  | [] => None
  | _ :: _ =>
      Some (fold_left (fun acc s => acc + s_data s) group 0 /
            inject_Z (Z.of_nat (List.length group)))
  end.

(** The body of the [else] branch once [start] and [stop] are known. *)
Definition interpolate (df : list Sample) (value start stop : Q)
  : outcome (list Row) :=
  let df_temp1 :=
    filter (fun s => Qeq_bool (s_time s) start || Qeq_bool (s_time s) stop) df in
  let columns := sort_values Qle_bool (unique (map s_time df_temp1)) in
  let cells :=
    sort_values xy_leb
      (drop_duplicates xy_eqb (map (fun s => (s_x s, s_y s)) df_temp1)) in
  match columns with
  | c0 :: c1 :: _ =>
      Returned
        (map (fun c =>
                mkRow value (fst c) (snd c)
                      (nan_add (pivot_entry df_temp1 c c0)
                               (nan_mul (Some (1 / (c1 - c0)))
                                        (nan_sub (pivot_entry df_temp1 c c1)
                                                 (pivot_entry df_temp1 c c0)))))
             cells)
  | _ => Raised IndexError                     (* [df_temp2.columns[1]] *)
  end.

(** What one pass of [for index1, value in series.items()] appends to
    [df_tmp]. *)
Definition resample_value (df : list Sample) (value : Q) : outcome (list Row) :=
  let times := unique (map s_time df) in
  if existsb (Qeq_bool value) times
  then Returned (map of_sample (filter (fun s => Qeq_bool (s_time s) value) df))
  else
    match argmin (map (fun t => Qabs (t - value)) times) with
    | None => Raised ValueError
    | Some index =>
        if Qlt_bool value (nth index times 0)
        then
          match np_getitem times (Z.of_nat index - 1) with
          | None => Raised IndexError
          | Some start => interpolate df value start (nth index times 0)
          end
        else
          match nth_error times (S index) with
          | None => PrintedNone insufficient_data_message
          | Some stop => interpolate df value (nth index times 0) stop
          end
    end.

Fixpoint resample_loop (df : list Sample) (series : list Q) (df_tmp : list Row)
  : outcome (list Row) :=
  match series with
  | [] => Returned df_tmp
  | value :: rest =>
      match resample_value df value with
      | Returned df_temp3 => resample_loop df rest (df_tmp ++ df_temp3)
      | other => other
      end
  end.

(** [abs(series - value).min() < 0.01] *)
Definition near_series (series : list Q) (value : Q) : bool :=
  match series_min (map (fun s => Some (Qabs (s - value))) series) with
  | Some m => Qlt_bool m (1 # 100)
  | None => false
  end.

(** The second pass: times away from every required value are dropped. *)
Definition drop_unrequired (series : list Q) (df_tmp : list Row) : list Row :=
  fold_left
    (fun acc value =>
       if near_series series value then acc
       else filter (fun r => negb (Qeq_bool (time r) value)) acc)
    (unique (map time df_tmp)) df_tmp.

Definition changeDataRes (df : list Sample) (series : list Q)
  : outcome (list Row) :=
  match resample_loop df series [] with
  | Returned df_tmp =>
      match series with
      | [] => Raised KeyError        (* no column ['time'] to sort by *)
      | _ :: _ =>
          Returned
            (sort_values row_leb
               (drop_unrequired series (sort_values row_leb df_tmp)))
      end
  | other => other
  end.

(** The caller (lines 463-471): [df2 = df_changeDataRes.copy()] fails on
    [None]; the pair is what was printed and how the stage ended. *)
Definition resample_stage (df : list Sample) (series : list Q)
  : list string * outcome (list Row) :=
  match changeDataRes df series with
  | Returned df2 => (["(3) 2D heat data generation complete."%string], Returned df2)
  | PrintedNone msg => ([msg], Raised AttributeError)
  | SysExit c n => ([], SysExit c n)
  | Raised e => ([], Raised e)
  end.

(** *** Overlap Resolver: detectOverwriteOverlap (lines 314-356) *)

(** The variables the loop carries from one pass to the next;
    [printed] lists the times reported by
    [print(f'Overlap exists at time = ...')]. *)
Record WalkState : Type := mkWalk {
  df_output : list Row;
  counter_overlap : Z;
  df_nextline : option (list Row);     (* unbound before the first pass *)
  printed : list Q
}.

(** [df['data'] = df['data'] + df['time']] and its inverse. *)
Definition add_time (df : list Row) : list Row :=
  map (fun r => with_data r (nan_add (data r) (Some (time r)))) df.
Definition sub_time (df : list Row) : list Row :=
  map (fun r => with_data r (nan_sub (data r) (Some (time r)))) df.

(** [df['data']] *)
Definition column (df : list Row) : list (option Q) := map data df.

(** [df_check_overlap.min() < 0] for the two lines raised by their time. *)
Definition check_overlap (df_prevline df_curline : list Row) : bool :=
  nan_negative
    (series_min (subtract_fill0 (column (add_time df_curline))
                                (column (add_time df_prevline)))).

(** First pair: [data_min = df_prevline[['data', 'data_line1']].min(axis=1)]
    with [data_line1] the current line's data on the previous line's index. *)
Definition resolve_first (df_prevline df_curline : list Row) : list Row :=
  let data_line1 :=
    map (at_index (column df_curline)) (seq 0 (List.length df_prevline)) in
  let data_min := map2 min_skipna (column df_prevline) data_line1 in
  assign_data df_prevline data_min.

(** Later pairs:
    [df_curline['data'] = (df_prevline['data'] + df_nextline['data']) / 2] *)
Definition resolve_later (df_prevline df_curline df_nextline : list Row)
  : list Row :=
  assign_data df_curline
    (map nan_half (series_add (column df_prevline) (column df_nextline))).

Section Walk.
Variable df_input : list Row.

Definition times : list Q := unique (map time df_input).

(** One pass of the [while] body, up to [counter_line += 1]. *)
Definition walk_body (counter_line : nat) (st : WalkState) : WalkState :=
  let df_prevline := at_time (df_output st) (nth (counter_line - 1) times 0) in
  let df_curline := at_time df_input (nth counter_line times 0) in
  let df_nextline := at_time df_input (nth (counter_line + 1) times 0) in
  let overlap := check_overlap df_prevline df_curline in
  let df_prevline := sub_time (add_time df_prevline) in
  let df_curline := sub_time (add_time df_curline) in
  if overlap then
    if (counter_line =? 1)%nat then
      mkWalk (resolve_first df_prevline df_curline)
             (counter_overlap st + 1)
             (Some df_nextline)
             (printed st ++ [nth counter_line times 0])
    else
      mkWalk (df_output st ++ resolve_later df_prevline df_curline df_nextline)
             (counter_overlap st + 1)
             (Some df_nextline)
             (printed st ++ [nth counter_line times 0])
  else
    mkWalk (df_output st ++ df_curline)
           (counter_overlap st)
           (Some df_nextline)
           (printed st).

(** [counter_overlap / len(df_input.time.unique()) > 0.25]; the float
    quotient compares with 0.25 as the exact one does for any table of
    fewer than 2^52 lines. *)
Definition too_many_overlaps (st : WalkState) : bool :=
  Qlt_bool (1 # 4)
           (inject_Z (counter_overlap st) /
            inject_Z (Z.of_nat (List.length times))).

(** The [while] loop over the values [counter_line] takes. *)
Fixpoint walk (lines : list nat) (st : WalkState) : outcome WalkState :=
  match lines with
  | [] => Returned st
  | counter_line :: rest =>
      let st' := walk_body counter_line st in
      if too_many_overlaps st'
      then SysExit (counter_overlap st') (Z.of_nat (List.length times))
      else walk rest st'
  end.

(** [counter_line = 1; while counter_line <= len(...) - 2] *)
Definition counter_lines : list nat := seq 1 (List.length times - 2).

(** The state before the loop; [df_output] is the first line. *)
Definition initial_state : WalkState :=
  mkWalk (at_time df_input (nth 0 times 0)) 0 None [].

Definition detectOverwriteOverlap : outcome (list Row) :=
  match times with
  | [] => Raised IndexError                    (* [unique()[0]] *)
  | _ :: _ =>
      match walk counter_lines initial_state with
      | Returned st =>
          match df_nextline st with
          | None => Raised NameError           (* [df_nextline] is unbound *)
          | Some nextline =>
              Returned (sort_values row_leb (df_output st ++ nextline))
          end
      | PrintedNone msg => PrintedNone msg
      | SysExit c n => SysExit c n
      | Raised e => Raised e
      end
  end.

(** The same passes without the exit test: the state after the given
    lines when nothing stops the walk. *)
Definition walk_through (lines : list nat) (st : WalkState) : WalkState :=
  fold_left (fun st k => walk_body k st) lines st.
End Walk.

(** *** Reference notions for the Overlap Resolver

    These follow the wording of the specification, so that the walk can
    be compared with them. *)

(** Equality of column entries in exact arithmetic. *)
Definition nan_eq (a b : option Q) : Prop :=
  match a, b with
  | Some p, Some q => p == q
  | None, None => True
  | _, _ => False
  end.

Definition row_eq (r r' : Row) : Prop :=
  time r = time r' /\ x r = x r' /\ y r = y r' /\ nan_eq (data r) (data r').

(** The height (intensity plus depth) of entry [i] of a line, NaN where
    the line has no such entry. *)
Definition height_at (df : list Row) (i : nat) : option Q :=
  at_index (column (add_time df)) i.

(** The previous line with the elementwise minimum of both intensities. *)
Definition elementwise_min (df_prevline df_curline : list Row) : list Row :=
  map (fun ip =>
         with_data (snd ip)
                   (min_skipna (data (snd ip))
                               (at_index (column df_curline) (fst ip))))
      (combine (seq 0 (List.length df_prevline)) df_prevline).

(** The current line with the elementwise average of its two neighbours. *)
Definition neighbour_average (df_prevline df_curline df_nextline : list Row)
  : list Row :=
  map (fun ic =>
         with_data (snd ic)
                   (nan_half (nan_add (at_index (column df_prevline) (fst ic))
                                      (at_index (column df_nextline) (fst ic)))))
      (combine (seq 0 (List.length df_curline)) df_curline).

(** Whether the pass for line [k] finds an overlap in a walk that is not
    stopped: the line is compared with line [k - 1] of the output so far. *)
Definition overlap_at (df_input : list Row) (k : nat) : bool :=
  let st := walk_through df_input (seq 1 (k - 1)) (initial_state df_input) in
  check_overlap (at_time (df_output st) (nth (k - 1) (times df_input) 0))
                (at_time df_input (nth k (times df_input) 0)).

(** Line [k] of the table as it comes in. *)
Definition input_line (df_input : list Row) (k : nat) : list Row :=
  at_time df_input (nth k (times df_input) 0).

(** The previous line as the pass for line [k] takes it from the output
    of the passes before, in a walk that is not stopped. *)
Definition previous_line (df_input : list Row) (k : nat) : list Row :=
  at_time (df_output (walk_through df_input (seq 1 (k - 1))
                                   (initial_state df_input)))
          (nth (k - 1) (times df_input) 0).

(** Two lines with the same number of cells, every intensity a number. *)
Definition aligned (df_prevline df_curline : list Row) : Prop :=
  List.length df_prevline = List.length df_curline /\
  forall r, In r (df_prevline ++ df_curline) -> data r <> None.

(** "Every adjacent pair of lines is examined": each [k] from 1 to the
    index of the last line is the current line of some pass. *)
Definition examines_every_adjacent_pair (df_input : list Row) : Prop :=
  forall k, (1 <= k <= List.length (times df_input) - 1)%nat ->
            In k (counter_lines df_input).

(** The adjacent pairs [(k - 1, k)] of the table as it comes in whose
    heights are inverted, [k] ranging over all lines after the first. *)
Definition inverted_pairs (df_input : list Row) : list nat :=
  filter (fun k =>
            check_overlap (at_time df_input (nth (k - 1) (times df_input) 0))
                          (at_time df_input (nth k (times df_input) 0)))
         (seq 1 (List.length (times df_input) - 1)).

End Frame.

(** Two sampled times, one cell: intensity 10 at time 0 and 20 at time 2. *)
Definition example_df : list Frame.Sample :=
  [ Frame.mkSample 0 0 0 10; Frame.mkSample 2 0 0 20 ].

(** One cell, a line per depth; [line t d] is the row of depth [t] with
    intensity [d]. *)
Definition line (t d : Q) : Frame.Row := Frame.mkRow t 0 0 (Some d).

(** Three lines; the heights are 0, 6 and 2: the last pair is inverted. *)
Definition example_last_pair : list Frame.Row :=
  [ line 0 0; line 1 5; line 2 0 ].

(** Four lines, one inverted pair among the examined ones (1 of 4). *)
Definition example_quarter : list Frame.Row :=
  [ line 0 0; line 1 5; line 2 0; line 3 0 ].

(** Three lines, one inverted pair among the examined ones (1 of 3). *)
Definition example_third : list Frame.Row :=
  [ line 0 5; line 1 0; line 2 0 ].

(** Seven lines with the inversions at the second and the fourth pair. *)
Definition example_seven : list Frame.Row :=
  [ line 0 0; line 1 5; line 2 0; line 3 4; line 4 0; line 5 0; line 6 0 ].

(** Five lines with heights 0, 101, 2, 63, 64: one inverted pair of four. *)
Definition example_cascade : list Frame.Row :=
  [ line 0 0; line 1 100; line 2 0; line 3 60; line 4 60 ].

(** Eight lines with heights 0, 101, 2, 63, 84, 85, 86, 87: the pair of
    lines 1 and 2 is the only inverted one. *)
Definition example_resolved_pair : list Frame.Row :=
  [ line 0 0; line 1 100; line 2 0; line 3 60; line 4 80; line 5 80;
    line 6 80; line 7 80 ].

(** Four lines with heights 10, 6, 2, 3: the first and the second pair
    are inverted. *)
Definition example_dropped_line : list Frame.Row :=
  [ line 0 10; line 1 5; line 2 0; line 3 0 ].


(** Eight lines with heights 0, 6, 2, 6, 12, 5, 12, 13: two inverted pairs
    of seven. *)
Definition example_eight : list Frame.Row :=
  [ line 0 0; line 1 5; line 2 0; line 3 3; line 4 8; line 5 0; line 6 6;
    line 7 6 ].


(* ================================================================== *)
(** * Part I, continued: the rest of the pipeline *)
(* ================================================================== *)

(** ** Seed layer (utils.py, convert_pct_to_real_layer, lines 36-48) *)

(** [pct = 100 if pct > 100 else pct;
     real_layer = 1 + int((max_layers - 2) * pct / 100.)] *)
Definition convert_pct_to_real_layer (pct : Q) (max_layers : Z) : Z :=
  let pct := if negb (Qle_bool pct 100) then 100 else pct in
  (1 + py_int (inject_Z (max_layers - 2) * pct / 100))%Z.

(** The default of the keyword argument [max_layers]. *)
Definition default_max_layers : Z := 167.

(** ** Ranges and shapes of the simulation array *)

(** Every cell of an image, or of every time slice, lies in [[lo, hi]]. *)
Definition img_within (lo hi : Q) (img : image) : Prop :=
  Forall (Forall (fun v => lo <= v <= hi)) img.

Definition grid_within (lo hi : Q) (u : list image) : Prop :=
  Forall (img_within lo hi) u.

(** An image of [nx] rows of [ny] cells; an array whose slices all are. *)
Definition img_shape (nx ny : nat) (img : image) : Prop :=
  List.length img = nx /\ Forall (fun row => List.length row = ny) img.

Definition grid_shape (nx ny : nat) (u : list image) : Prop :=
  Forall (img_shape nx ny) u.

(** On an array of extents [a] and [b], the indices [nx - 1] and
    [ny - 1] of the third and fourth assignment of [calculate2D] lie on
    their axes: both extents are positive and each index is between
    minus the extent and the extent less one. *)
Definition indices_fit (a b : nat) (nx ny : Z) : Prop :=
  (0 < a)%nat /\ (0 < b)%nat /\
  (- Z.of_nat a <= nx - 1 < Z.of_nat a)%Z /\
  (- Z.of_nat b <= ny - 1 < Z.of_nat b)%Z.

(** [a] is related to [b] entry by entry, wherever [a] has an entry. *)
Definition pointwise {A B : Type} (R : A -> B -> Prop) (a : list A) (b : list B)
  : Prop :=
  forall i x, nth_error a i = Some x ->
              exists y, nth_error b i = Some y /\ R x y.


(** ** Diffusion Simulator as run by the script (defect.py, lines 415-441) *)

(** The array is allocated with the extents [(max_iterations,
    int(max_x / delta_x), int(max_y / delta_y))], where [max_x] and
    [max_y] have been through the parity block; [np.empty] refuses a
    negative extent.  It is filled with the initial condition and handed
    to [calculate2D]. *)
Definition simulate (delta_x delta_y diffusion_coefficient : Q)
           (max_time max_x max_y : Z)
           (defect_center_x defect_center_y defect_x defect_y : Q)
           (defect_temperature : Q) : outcome (list image) :=
  let m := max_iterations delta_x delta_y diffusion_coefficient max_time in
  let nx := grid_samples max_x delta_x in
  let ny := grid_samples max_y delta_y in
  if ((m <? 0) || (nx <? 0) || (ny <? 0))%Z then Raised ValueError
  else match u_initial delta_x delta_y defect_center_x defect_center_y
                       defect_x defect_y defect_temperature m nx ny with
       | Returned u =>
           calculate2D (gamma delta_x delta_y diffusion_coefficient) m nx ny u
       | other => other
       end.

(** ** Heights relative to the defect (defect.py, lines 369-409) *)

(** A row of [df_material]: layer number, material, thickness in nm. *)
Record LayerRow : Type := mkLayerRow {
  l_number : Q;
  l_material : string;
  l_thickness : Q
}.

(** [pd.read_csv]; [thickness * 1000]; the rows of material ['air']
    dropped. *)
Definition read_mask_stack (stack : list StackRow) : list LayerRow :=
  filter (fun r => negb (String.eqb (l_material r) "air"))
         (map (fun r => mkLayerRow (inject_Z (layer_number r)) (material r)
                                   (thickness r * 1000))
              stack).

(** [df_material['thickness'].sum()], taken before the air is dropped. *)
Definition total_thickness_mask (stack : list StackRow) : Q :=
  fold_left (fun acc r => acc + thickness r * 1000) stack 0.

(** The position [iloc[0:d]] stops at, and [iloc[d:]] starts from, in a
    table of [n] rows: a negative [d] counts from the end. *)
Definition py_slice_stop (d : Z) (n : nat) : nat :=
  if (d <? 0)%Z then Z.to_nat (Z.of_nat n + d) else Nat.min (Z.to_nat d) n.

(** [(defect_x != 0) and (defect_y != 0) and (defect_thickness != 0)] *)
Definition defect_present (defect_x defect_y defect_thickness : Q) : bool :=
  negb (Qeq_bool defect_x 0) && negb (Qeq_bool defect_y 0) &&
  negb (Qeq_bool defect_thickness 0).

Definition defect_row (defect_layer : Z) : LayerRow :=
  mkLayerRow (inject_Z defect_layer + (1 # 10)) "defect" 0.

(** Lines 379-386: the defect row goes in at position [defect_layer]. *)
Definition insert_defect (present : bool) (defect_layer : Z)
           (rows : list LayerRow) : list LayerRow :=
  if present
  then let k := py_slice_stop defect_layer (List.length rows) in
       (firstn k rows ++ [defect_row defect_layer]) ++ skipn k rows
  else rows.

(** Lines 389-403, the walk upwards.  [signal] is the flag of the
    source, [prev] the [total_thickness] stored in the row before;
    a row is paired with the value the loop leaves in its
    [total_thickness], NaN when it leaves it alone. *)
Fixpoint total_above (no_defect signal : bool) (prev : option Q)
         (rows : list LayerRow) : list (LayerRow * option Q) :=
  match rows with
  | [] => []
  | r :: rest =>
      if negb signal && no_defect
      then (r, Some 0) :: total_above no_defect true (Some 0) rest
      else if String.eqb (l_material r) "defect"
      then (r, Some 0) :: total_above no_defect true (Some 0) rest
      else if signal
      then let t := nan_add (Some (l_thickness r)) prev in
           (r, t) :: total_above no_defect true t rest
      else (r, None) :: total_above no_defect false None rest
  end.

(** Lines 406-409, the walk back down: a row still at NaN takes the
    value of the row after it minus its own thickness; the label after
    the last row is missing. *)
Fixpoint total_below (rows : list (LayerRow * option Q))
  : outcome (list (LayerRow * option Q)) :=
  match rows with
  | [] => Returned []
  | (r, t) :: rest =>
      match total_below rest with
      | Returned rest' =>
          match t with
          | Some _ => Returned ((r, t) :: rest')
          | None =>
              match rest' with
              | [] => Raised KeyError
              | (_, t1) :: _ =>
                  Returned ((r, nan_sub t1 (Some (l_thickness r))) :: rest')
              end
          end
      | other => other
      end
  end.

(** Lines 379-409 on the table read at line 370, whose index runs from 0
    without gaps once the air row, its last, is dropped. *)
Definition add_total_thickness (defect_x defect_y defect_thickness : Q)
           (defect_layer : Z) (rows : list LayerRow)
  : outcome (list (LayerRow * option Q)) :=
  let present := defect_present defect_x defect_y defect_thickness in
  total_below
    (total_above (negb present) false None
                 (insert_defect present defect_layer rows)).

(** The sum of the thicknesses of some rows. *)
Definition sum_thickness (rows : list LayerRow) : Q :=
  fold_right (fun r acc => l_thickness r + acc) 0 rows.

(** [df_material[df_material['total_thickness'] >= 0]['total_thickness']],
    the depths the simulation is resampled to (line 463). *)
Definition required_values (df_material : list (LayerRow * option Q))
  : list Q :=
  flat_map (fun rt => match snd rt with
                      | Some t => if Qle_bool 0 t then [t] else []
                      | None => []
                      end) df_material.

(** No row of the input stack is called like the defect row. *)
Definition not_defect (r : LayerRow) : Prop := l_material r <> "defect"%string.

(** Three layers under test: quartz, silicon, molybdenum (nm). *)
Definition example_layers : list LayerRow :=
  [ mkLayerRow 1 "Qz" 20; mkLayerRow 2 "Si_1" 4; mkLayerRow 3 "Mo" 3 ].

(** Every layer has some thickness. *)
Definition positive_thickness (r : LayerRow) : Prop := 0 < l_thickness r.

(** ** Grid Writer: parity of the total thickness (defect.py, lines 549-553) *)

(** [total - delta_z * (total / delta_z - math.floor(total / delta_z))] *)
Definition snap_to_grid (total delta_z : Q) : Q :=
  total - delta_z * (total / delta_z - inject_Z (Qfloor (total / delta_z))).

(** The value of [total_thickness_mask] after the block. *)
Definition total_thickness_mask_odd (total delta_z : Q) : Q :=
  let total := snap_to_grid total delta_z in
  if is_even (Qfloor (total / delta_z)) then total + delta_z else total.

(** ** Depth Resampler: what is asked and what comes back *)

(** The time of a row is one of the required values. *)
Definition required_time (series : list Q) (r : Frame.Row) : Prop :=
  exists v, In v series /\ Frame.time r == v.

(** ** From the array to the table (defect.py, lines 444-459) *)

(** The rows of one time slice, in the order of [u.flatten()]; [t] is the
    index of the slice on the time axis. *)
Definition slice_rows (delta_t factor : Q) (delta_x delta_y : Z)
           (t : nat) (img : image) : list Frame.Sample :=
  flat_map
    (fun xr =>
       map (fun yv =>
              Frame.mkSample (inject_Z (Z.of_nat t) * delta_t / factor)
                             (Z.of_nat (fst xr) * delta_x)
                             (Z.of_nat (fst yv) * delta_y)
                             (snd yv / factor))
           (combine (seq 0 (List.length (snd xr))) (snd xr)))
    (combine (seq 0 (List.length img)) img).

(** The slices from index [start] on. *)
Definition to_frame_from (delta_t factor : Q) (delta_x delta_y : Z)
           (start : nat) (u : list image) : list Frame.Sample :=
  flat_map (fun ti => slice_rows delta_t factor delta_x delta_y (fst ti) (snd ti))
           (combine (seq start (List.length u)) u).

(** Lines 444-451: one row per cell of [u], with the time, position and
    data scaled. *)
Definition to_frame (delta_t factor : Q) (delta_x delta_y : Z)
           (u : list image) : list Frame.Sample :=
  to_frame_from delta_t factor delta_x delta_y 0 u.

(** Lines 455-458: the rows of the first two distinct times are dropped
    and the time axis starts again at 0; on an empty table the minimum
    is NaN and there is no row to shift. *)
Definition drop_warmup (df : list Frame.Sample) : outcome (list Frame.Sample) :=
  match Frame.unique (map Frame.s_time df) with
  | t0 :: t1 :: _ =>
      let kept :=
        filter (fun s => negb (Qeq_bool (Frame.s_time s) t0) &&
                         negb (Qeq_bool (Frame.s_time s) t1)) df in
      match series_min (map (fun s => Some (Frame.s_time s)) kept) with
      | Some m =>
          Returned (map (fun s => Frame.mkSample (Frame.s_time s - m)
                                                 (Frame.s_x s) (Frame.s_y s)
                                                 (Frame.s_data s))
                        kept)
      | None => Returned kept
      end
  | _ => Raised IndexError                      (* [unique()[0]], [unique()[1]] *)
  end.

(** Two rows with the same position and data and times equal as numbers. *)
Definition sample_eq (s s' : Frame.Sample) : Prop :=
  Frame.s_time s == Frame.s_time s' /\ Frame.s_x s = Frame.s_x s' /\
  Frame.s_y s = Frame.s_y s' /\ Frame.s_data s = Frame.s_data s'.

(** A time slice with at least one cell. *)
Definition has_cell (img : image) : Prop :=
  exists row v, In row img /\ In v row.

(** The position indices and value of every cell of an image, row by
    row. *)
Definition cells (img : image) : list (nat * nat * Q) :=
  flat_map (fun xr => map (fun yv => (fst xr, fst yv, snd yv))
                          (combine (seq 0 (List.length (snd xr))) (snd xr)))
           (combine (seq 0 (List.length img)) img).

(** The time of slice [t] in the table. *)
Definition slice_time (delta_t factor : Q) (t : nat) : Q :=
  inject_Z (Z.of_nat t) * delta_t / factor.

(** Three time slices of one row of two cells. *)
Definition example_array : list image :=
  [ [ [1; 2] ]; [ [3; 4] ]; [ [5; 6] ] ].

(** ** Replacing lines of a file (utils.py, replace_file_lines, lines 156-176) *)

(** The line feed the replacement text is closed with. *)
Definition newline : string := String (Ascii.ascii_of_nat 10) EmptyString.

Definition LF : Ascii.ascii := Ascii.ascii_of_nat 10.
Definition CR : Ascii.ascii := Ascii.ascii_of_nat 13.

(** What [open(fnam, 'r')] makes of the content of the file: in text
    mode every line end, [CR LF] and a lone [CR] as well, is read as a
    line feed. *)
Fixpoint universal_newlines (s : string) : string :=
  match s with
  | EmptyString => EmptyString
  | String c s' =>
      if Ascii.eqb c CR
      then match s' with
           | String c' s'' =>
               if Ascii.eqb c' LF
               then String LF (universal_newlines s'')
               else String LF (universal_newlines s')
           | EmptyString => String LF EmptyString
           end
      else String c (universal_newlines s')
  end.

(** The lines of a text, each with the line feed that ends it; the last
    one has none when the text does not end in a line feed. *)
Fixpoint split_lines (s : string) : list string :=
  match s with
  | EmptyString => []
  | String c s' =>
      if Ascii.eqb c LF
      then String c EmptyString :: split_lines s'
      else match split_lines s' with
           | [] => [String c EmptyString]
           | l :: ls => String c l :: ls
           end
  end.

(** [foo.readlines()] on the content of the file. *)
Definition readlines (file : string) : list string :=
  split_lines (universal_newlines file).

(** [foo.writelines(lines)] on the file opened with ['w']: the content
    becomes the items one after the other, nothing added between them
    (a line feed is written as it is on a POSIX system). *)
Definition writelines (lines : list string) : string :=
  String.concat EmptyString lines.

(** A text without line end: neither line feed nor carriage return. *)
Fixpoint no_line_end (s : string) : bool :=
  match s with
  | EmptyString => true
  | String c s' =>
      negb (Ascii.eqb c LF) && negb (Ascii.eqb c CR) && no_line_end s'
  end.

Fixpoint no_carriage_return (s : string) : bool :=
  match s with
  | EmptyString => true
  | String c s' => negb (Ascii.eqb c CR) && no_carriage_return s'
  end.

(** The shape of what [readlines] gives: every item is a text without
    line end followed by a line feed, except that the last item may lack
    the line feed (and is not empty then). *)
Definition is_line (l : string) : Prop :=
  exists body, no_line_end body = true /\ l = (body ++ newline)%string.

Definition is_last_line (l : string) : Prop :=
  is_line l \/ (no_line_end l = true /\ l <> EmptyString).

Fixpoint lines_ok (ls : list string) : Prop :=
  match ls with
  | [] => True
  | l :: ls' =>
      match ls' with
      | [] => is_last_line l
      | _ :: _ => is_line l /\ lines_ok ls'
      end
  end.

(** The position line number [line] addresses: [lines[line - 1]]. *)
Definition line_position (n : nat) (line : Z) : option nat :=
  py_index n (line - 1).

(** [for seq, line in enumerate(line_nums):
       lines[line - 1] = replace_text_list[seq] + '\n'] *)
Fixpoint replace_lines (lines : list string) (pairs : list (Z * string))
  : option (list string) :=
  match pairs with
  | [] => Some lines
  | (line, text) :: rest =>
      match line_position (List.length lines) line with
      | Some k => replace_lines (list_set k (text ++ newline)%string lines) rest
      | None => None
      end
  end.

Definition lengths_disagree_message : string :=
  "[Error:utils.py] list lengths disagree".

(** The file is its content, a text.  The result pairs the content of
    the file after the call with the way the call ended; the file is
    opened for writing only after every replacement went through. *)
Definition replace_file_lines (file : string) (line_nums : list Z)
           (replace_text_list : list string) : string * outcome unit :=
  if negb (List.length line_nums =? List.length replace_text_list)%nat
  then (file, PrintedNone lengths_disagree_message)
  else match replace_lines (readlines file)
                           (combine line_nums replace_text_list) with
       | Some lines => (writelines lines, Returned tt)
       | None => (file, Raised IndexError)
       end.

(** A file of three lines, the last one without line feed, and what the
    call makes of it when line 2 becomes [x] and the last line [y]. *)
Definition example_file : string :=
  ("a" ++ newline ++ "b" ++ newline ++ "c")%string.

Definition example_file_replaced : string :=
  ("a" ++ newline ++ "x" ++ newline ++ "y" ++ newline)%string.

(** ** Grid-size check of the validation script (main.py, lines 304-318) *)

Definition MAX_GRID_PCT : Z := 2.

(** [x_grid_threshold = int(max_x * MAX_GRID_PCT)], [max_x] an integer
    number of nm. *)
Definition grid_threshold (max_x : Z) : Z :=
  py_int (inject_Z (max_x * MAX_GRID_PCT)).

(** [delta_x > x_grid_threshold]: the warning that the grid size is very
    large and the defect simulation may break. *)
Definition grid_warning (delta_x : Q) (max_x : Z) : bool :=
  Frame.Qlt_bool (inject_Z (grid_threshold max_x)) delta_x.

(** ** Stack Assembler: the input table and the legend
       (defect.py, input_mask_conversion, lines 83-232) *)

(** A row of [mask_input_binary.dat]. *)
Record InputRow : Type := mkInputRow {
  i_type : string;
  i_material : string;
  i_thickness : Q;       (* nm *)
  i_n : Q;
  i_k : Q
}.

Definition Qz_thickness : Q := 20.
Definition MLpair : nat := 40.
Definition defect_material : string := "Si_1".

(** Lines 87-89: the quartz thickness is replaced, the column is
    converted to um. *)
Definition prepare_input (df : list InputRow) : list InputRow :=
  map (fun r =>
         let t := if String.eqb (i_material r) "Qz" then Qz_thickness
                  else i_thickness r in
         mkInputRow (i_type r) (i_material r) (t * (1 # 1000)) (i_n r) (i_k r))
      df.

(** ['T' in df['Type'].values] *)
Definition has_type (T : string) (df : list InputRow) : bool :=
  existsb (fun r => String.eqb (i_type r) T) df.

(** [df[df['Type'] == T][col].tolist()] followed by [.reverse()] *)
Definition column_of_type {A : Type} (T : string) (col : InputRow -> A)
           (df : list InputRow) : list A :=
  rev (map col (filter (fun r => String.eqb (i_type r) T) df)).

(** [l * n] on a Python list. *)
Definition repeat_list {A : Type} (l : list A) (n : nat) : list A :=
  List.concat (repeat l n).

(** A column of the stack, bottom to top; a type that is absent adds
    nothing. *)
Definition stack_column {A : Type} (col : InputRow -> A) (df : list InputRow)
  : list A :=
  (if has_type "Substrate" df then column_of_type "Substrate" col df else []) ++
  (if has_type "ML" df then repeat_list (column_of_type "ML" col df) MLpair
   else []) ++
  (if has_type "Capping" df then column_of_type "Capping" col df else []) ++
  (if has_type "Absorber" df then column_of_type "Absorber" col df else []).

(** ['{:.6f}'.format(t)] read back as a number. *)
Definition format_6f (q : Q) : Q :=
  inject_Z (round_half_even (q * inject_Z (10 ^ 6))) / inject_Z (10 ^ 6).

(** Lines 92-141: [zip(stack_layer_list, material_stack, thickness_stack)]. *)
Definition mask_stack_of_input (df : list InputRow) : list StackRow :=
  let material_stack := stack_column i_material df in
  let thickness_stack := map format_6f (stack_column i_thickness df) in
  let stack_layer_list :=
    map Z.of_nat (seq 1 (List.length material_stack)) in
  map (fun lmt => mkStackRow (fst lmt) (fst (snd lmt)) (snd (snd lmt)))
      (combine stack_layer_list (combine material_stack thickness_stack)).

(** A row of the legend file: type, number, material, n and k; the other
    columns are constants. *)
Record LegendRow : Type := mkLegendRow {
  g_type : string;
  g_no : Z;
  g_material : string;
  g_n : Q;
  g_k : Q
}.

(** [l.index(x)]; [None] is a [ValueError]. *)
Fixpoint list_index (x : string) (l : list string) : option nat :=
  match l with
  | [] => None
  | a :: l' => if String.eqb a x then Some O
               else option_map S (list_index x l')
  end.

(** [['material'] * len] with entry 0 set to ['ambient']. *)
Definition material_type_list (len : nat) : list string :=
  list_set 0 "ambient"%string (repeat "material"%string len).

(** [list(range(len - 1))] with a 0 inserted in front. *)
Definition material_no_list (len : nat) : list Z :=
  0%Z :: map Z.of_nat (seq 0 (len - 1)).

(** The rows of [mask_material_df]: [zip] stops at the shortest list. *)
Definition legend_rows (stack : list string) (n_list k_list : list Q)
  : list LegendRow :=
  map (fun r => mkLegendRow (fst r) (fst (snd r)) (fst (snd (snd r)))
                            (fst (snd (snd (snd r))))
                            (snd (snd (snd (snd r)))))
      (combine (material_type_list (List.length stack))
         (combine (material_no_list (List.length stack))
            (combine stack (combine n_list k_list)))).

(** [defect_x > 0 and defect_y > 0 and defect_thickness > 0] *)
Definition defect_in_legend (defect_x defect_y defect_thickness : Q) : bool :=
  Frame.Qlt_bool 0 defect_x && Frame.Qlt_bool 0 defect_y &&
  Frame.Qlt_bool 0 defect_thickness.

(** The legend column [col] before the defect is added: lines 185-205.
    The lists of the four types are bound only where the type occurs. *)
Definition legend_column {A : Type} (air : A) (col : InputRow -> A)
           (df : list InputRow) : list A :=
  [air; air] ++ column_of_type "Absorber" col df ++
  column_of_type "Substrate" col df ++ column_of_type "ML" col df ++
  column_of_type "Capping" col df.

(** The table [mask_stack] as the call leaves it, and how the call ends.
    With [delta_z * 0.001] equal to 0 the quotient of line 146 has no
    value: [total_thickness] is a numpy float, its quotient by zero is
    infinite (not a number for a zero total) and [math.ceil] raises
    [OverflowError] ([ValueError] for not-a-number); the air row keeps
    the thickness it was appended with and nothing is written.
    Otherwise the air row is adjusted and the table written; then the
    legend is built, written and the absorber materials returned, unless
    a name is unbound or the defect material is not in the legend. *)
Definition input_mask_conversion
           (delta_z defect_x defect_y defect_thickness : Q)
           (df_mask_input : list InputRow)
  : list StackRow * outcome (list LegendRow * list string) :=
  let df := prepare_input df_mask_input in
  if Qeq_bool (delta_z * (1 # 1000)) 0
  then (mask_stack_with_air (mask_stack_of_input df),
        Raised (if Qeq_bool (total_thickness (mask_stack_of_input df)) 0
                then ValueError else ArithmeticError))
  else
  let written := mask_stack_adjusted (mask_stack_of_input df) delta_z in
  (written,
   if negb (has_type "Substrate" df && has_type "ML" df &&
            has_type "Capping" df && has_type "Absorber" df)
   then Raised NameError
   else
     let stack := legend_column "air"%string i_material df in
     let n_list := legend_column 1 i_n df in
     let k_list := legend_column 0 i_k df in
     let absorber := column_of_type "Absorber" i_material df in
     if defect_in_legend defect_x defect_y defect_thickness
     then
       let stack := stack ++ ["defect"%string] in
       match list_index defect_material stack with
       | None => Raised ValueError
       | Some i =>
           Returned (legend_rows stack (n_list ++ [nth i n_list 0])
                                 (k_list ++ [nth i k_list 0]),
                     absorber)
       end
     else Returned (legend_rows stack n_list k_list, absorber)).

(** The file [mask_stack_filename] after the call: [to_csv] (line 154)
    is reached only when line 146 went through; [None] is a file that
    was not written. *)
Definition mask_stack_file
           (delta_z defect_x defect_y defect_thickness : Q)
           (df_mask_input : list InputRow) : option (list StackRow) :=
  if Qeq_bool (delta_z * (1 # 1000)) 0 then None
  else Some (fst (input_mask_conversion delta_z defect_x defect_y
                                        defect_thickness df_mask_input)).

(** Lines 669-672: [drop_duplicates(subset='material', keep='last')] and
    the lookup [df_total['material'].map(...)]; [None] is NaN. *)
Fixpoint drop_duplicates_last (legend : list LegendRow) : list LegendRow :=
  match legend with
  | [] => []
  | r :: rest =>
      if existsb (fun r' => String.eqb (g_material r') (g_material r)) rest
      then drop_duplicates_last rest
      else r :: drop_duplicates_last rest
  end.

Definition material_no (legend : list LegendRow) (m : string) : option Z :=
  option_map g_no
    (find (fun r => String.eqb (g_material r) m) (drop_duplicates_last legend)).

(** All four layer types occur in the input table. *)
Definition all_types_present (df : list InputRow) : bool :=
  has_type "Substrate" df && has_type "ML" df &&
  has_type "Capping" df && has_type "Absorber" df.

(** A small input table: substrate, one multilayer pair, capping,
    absorber. *)
Definition example_input : list InputRow :=
  [ mkInputRow "Absorber" "TaN" 60 (9 # 10) (3 # 100);
    mkInputRow "Capping" "Ru" (25 # 10) (88 # 100) (1 # 100);
    mkInputRow "ML" "Mo" 3 (92 # 100) (6 # 1000);
    mkInputRow "ML" "Si_1" 4 (99 # 100) (1 # 1000);
    mkInputRow "Substrate" "Qz" 6350000 (97 # 100) (1 # 100) ].
(* ================================================================== *)
(** * Part II: properties *)
(* ================================================================== *)

(** ** Grid size *)

Lemma py_int_nonneg (q : Q) : 0 <= q -> py_int q = Qfloor q.
Proof.
  intros H. unfold py_int.
  destruct (Qle_bool 0 q) eqn:E; [reflexivity|].
  rewrite <- Qle_bool_iff in H. congruence.
Qed.

Lemma py_int_inject (z : Z) : py_int (inject_Z z) = z.
Proof.
  unfold py_int. destruct (Qle_bool 0 (inject_Z z)).
  - apply Qfloor_Z.
  - apply Qceiling_Z.
Qed.

Lemma py_int_comp (p q : Q) : p == q -> py_int p = py_int q.
Proof.
  intros H. unfold py_int.
  assert (Hb : Qle_bool 0 p = Qle_bool 0 q).
  { destruct (Qle_bool 0 p) eqn:Ep, (Qle_bool 0 q) eqn:Eq; try reflexivity.
    - rewrite Qle_bool_iff in Ep. rewrite H in Ep.
      rewrite <- Qle_bool_iff in Ep. congruence.
    - rewrite Qle_bool_iff in Eq. rewrite <- H in Eq.
      rewrite <- Qle_bool_iff in Eq. congruence. }
  rewrite Hb. destruct (Qle_bool 0 q).
  - now apply Qfloor_comp.
  - now apply Qceiling_comp.
Qed.

Lemma is_even_odd_succ (n : Z) : is_even n = true -> is_even (1 + n) = false.
Proof.
  unfold is_even. rewrite !Z.eqb_eq. intros H.
  apply Z.eqb_neq. rewrite Z.add_mod by lia. rewrite H. cbn. lia.
Qed.

(** When the parity block fires, the array extent is [Nx + 1], odd. *)
Lemma grid_samples_after_enlarging (max_x : Z) (delta_x : Q) :
  0 < delta_x ->
  is_even (Nx max_x delta_x) = true ->
  grid_samples max_x delta_x = (1 + Nx max_x delta_x)%Z /\
  is_even (grid_samples max_x delta_x) = false.
Proof.
  intros Hd He.
  assert (Hs : grid_samples max_x delta_x = (1 + Nx max_x delta_x)%Z).
  { unfold grid_samples, max_x_adjusted. rewrite He.
    transitivity (py_int (inject_Z (1 + Nx max_x delta_x)));
      [|apply py_int_inject].
    apply py_int_comp. field. intros E. rewrite E in Hd. discriminate. }
  split; [exact Hs|]. rewrite Hs. now apply is_even_odd_succ.
Qed.

(** When [delta_x] divides [max_x] the extent is [Nx] or [Nx + 1], odd. *)
Lemma grid_samples_odd_when_divisible (n : Z) (delta_x : Q) (max_x : Z) :
  0 < delta_x ->
  inject_Z max_x == inject_Z n * delta_x ->
  is_even (grid_samples max_x delta_x) = false.
Proof.
  intros Hd Hm.
  assert (Hnz : ~ delta_x == 0) by (intros E; rewrite E in Hd; discriminate).
  assert (HN : Nx max_x delta_x = n).
  { unfold Nx, math_ceil. rewrite <- (Qceiling_Z n).
    apply Qceiling_comp. rewrite Hm. field. exact Hnz. }
  destruct (is_even (Nx max_x delta_x)) eqn:E.
  - now apply grid_samples_after_enlarging.
  - unfold grid_samples, max_x_adjusted. rewrite E.
    assert (Hq : py_int (inject_Z max_x / delta_x) = n).
    { transitivity (py_int (inject_Z n)); [|apply py_int_inject].
      apply py_int_comp. rewrite Hm. field. exact Hnz. }
    rewrite Hq. rewrite <- HN. exact E.
Qed.

(** The number of points of [range(0, max_x, delta_x)], which the later
    stages use for the x axis, is [ceil(max_x / delta_x)]; after the parity
    block it is odd. *)
Lemma range_points_odd (max_x : Z) (delta_x : Q) :
  0 < delta_x ->
  is_even (math_ceil (max_x_adjusted max_x delta_x / delta_x)) = false.
Proof.
  intros Hd.
  assert (Hnz : ~ delta_x == 0) by (intros E; rewrite E in Hd; discriminate).
  unfold max_x_adjusted.
  destruct (is_even (Nx max_x delta_x)) eqn:E.
  - assert (Hc : math_ceil (inject_Z (1 + Nx max_x delta_x) * delta_x / delta_x)
                 = (1 + Nx max_x delta_x)%Z).
    { unfold math_ceil. rewrite <- (Qceiling_Z (1 + Nx max_x delta_x)) at 2.
      apply Qceiling_comp. field. exact Hnz. }
    rewrite Hc. now apply is_even_odd_succ.
  - exact E.
Qed.

Lemma Qceiling_not_integer (q : Q) :
  ~ q == inject_Z (Qfloor q) -> Qceiling q = (Qfloor q + 1)%Z.
Proof.
  intros Hne.
  pose proof (Qfloor_le q) as Hf1. pose proof (Qlt_floor q) as Hf2.
  pose proof (Qle_ceiling q) as Hc1. pose proof (Qceiling_lt q) as Hc2.
  assert (Hlt : inject_Z (Qfloor q) < q).
  { apply Qle_lt_or_eq in Hf1. destruct Hf1 as [H|H]; [exact H|].
    exfalso. apply Hne. now symmetry. }
  assert (H1 : (Qfloor q < Qceiling q)%Z).
  { rewrite Zlt_Qlt. eapply Qlt_le_trans; eauto. }
  assert (H2 : (Qceiling q - 1 < Qfloor q + 1)%Z).
  { rewrite Zlt_Qlt. eapply Qlt_trans; eauto. }
  lia.
Qed.

(** The defect in general: when the ceiling quotient is odd and
    [delta_x] does not divide [max_x], the array gets one sample less
    than the ceiling quotient, an even number. *)
Lemma grid_samples_even_when_not_divisible (max_x : Z) (delta_x : Q) :
  0 < delta_x -> (0 <= max_x)%Z ->
  is_even (Nx max_x delta_x) = false ->
  ~ inject_Z max_x / delta_x == inject_Z (Qfloor (inject_Z max_x / delta_x)) ->
  grid_samples max_x delta_x = (Nx max_x delta_x - 1)%Z /\
  is_even (grid_samples max_x delta_x) = true.
Proof.
  intros Hd Hm Hodd Hnd.
  assert (Hs : grid_samples max_x delta_x = (Nx max_x delta_x - 1)%Z).
  { unfold grid_samples, max_x_adjusted. rewrite Hodd.
    rewrite py_int_nonneg.
    - unfold Nx, math_ceil. rewrite (Qceiling_not_integer _ Hnd). lia.
    - apply Qle_shift_div_l; [exact Hd|].
      rewrite Qmult_0_l. change 0 with (inject_Z 0). now rewrite <- Zle_Qle. }
  split; [exact Hs|]. rewrite Hs.
  unfold is_even in *. apply Z.eqb_neq in Hodd. apply Z.eqb_eq.
  pose proof (Z.mod_pos_bound (Nx max_x delta_x) 2 ltac:(lia)) as Hb.
  replace (Nx max_x delta_x - 1)%Z
    with (Nx max_x delta_x mod 2 - 1 + (Nx max_x delta_x / 2) * 2)%Z
    by (pose proof (Z.div_mod (Nx max_x delta_x) 2 ltac:(lia)); lia).
  rewrite Z.mod_add by lia.
  replace (Nx max_x delta_x mod 2)%Z with 1%Z by lia. reflexivity.
Qed.

(** C10 (code defect): the parity block tests [ceil(max_x / delta_x)] but
    the array is allocated with [int(max_x / delta_x)].  With
    [max_x = 5], [delta_x = 2] the ceiling quotient is 3 (odd), the extent
    is left alone, and the allocation gets [int(2.5) = 2] samples, an even
    number; the same happens for [max_x = 1001], [delta_x = 2]. *)
Theorem grid_samples_even_at_5_2 :
  Nx 5 2 = 3%Z /\
  max_x_adjusted 5 2 == 5 /\
  grid_samples 5 2 = 2%Z /\
  is_even (grid_samples 5 2) = true /\
  grid_samples 1001 2 = 500%Z.
Proof. repeat split; vm_compute; reflexivity. Qed.

(** ** Heat equation variables *)

(** C6: for positive [D], [delta_x], [delta_y] the stability constant is
    exactly 1/4, and for a non-negative time budget the iteration count
    [int(max_time / delta_t)] is [floor(max_time / delta_t)]. *)
Theorem gamma_quarter_and_iterations_floor
        (delta_x delta_y D : Q) (max_time : Z) :
  0 < D -> 0 < delta_x -> 0 < delta_y -> (0 <= max_time)%Z ->
  gamma delta_x delta_y D == 1 # 4 /\
  max_iterations delta_x delta_y D max_time =
    Qfloor (inject_Z max_time / delta_t delta_x delta_y D).
Proof.
  intros HD Hx Hy Ht.
  assert (HDnz : ~ D == 0) by (intros E; rewrite E in HD; discriminate).
  assert (Hxnz : ~ delta_x == 0) by (intros E; rewrite E in Hx; discriminate).
  assert (Hynz : ~ delta_y == 0) by (intros E; rewrite E in Hy; discriminate).
  split.
  - unfold gamma, delta_t. field. repeat split; assumption.
  - unfold max_iterations. apply py_int_nonneg.
    assert (Hdt : 0 < delta_t delta_x delta_y D).
    { unfold delta_t. apply Qlt_shift_div_l.
      - lra.
      - rewrite Qmult_0_l. apply Qmult_lt_0_compat; assumption. }
    apply Qle_shift_div_l; [exact Hdt|].
    rewrite Qmult_0_l. change 0 with (inject_Z 0). now rewrite <- Zle_Qle.
Qed.

Lemma gamma_quarter_and_iterations_floor_witness :
  gamma 2 2 (1#100) == 1 # 4 /\
  max_iterations 2 2 (1#100) 100 =
    Qfloor (inject_Z 100 / delta_t 2 2 (1#100)).
Proof.
  apply (gamma_quarter_and_iterations_floor 2 2 (1#100) 100);
    [reflexivity | reflexivity | reflexivity | lia].
Defined.

(** ** Stack Assembler: air top *)

Lemma is_even_pred (n : Z) : is_even n = true -> is_even (n - 1) = false.
Proof.
  unfold is_even. rewrite Z.eqb_eq. intros H. apply Z.eqb_neq.
  replace (n - 1)%Z with (1 + n + (-1) * 2)%Z by lia.
  rewrite Z.mod_add by lia. rewrite Z.add_mod by lia. rewrite H. cbn. lia.
Qed.

(** A value with at most 8 decimals survives ['.8f'] unchanged. *)
Lemma format_8f_exact (q : Q) (n : Z) :
  q * inject_Z (10 ^ 8) == inject_Z n -> format_8f q == q.
Proof.
  intros H. unfold format_8f, round_half_even.
  assert (Hf : Qfloor (q * inject_Z (10 ^ 8)) = n).
  { rewrite <- (Qfloor_Z n). now apply Qfloor_comp. }
  rewrite Hf.
  assert (Hr : q * inject_Z (10 ^ 8) - inject_Z n == 0) by (rewrite H; ring).
  assert (Hle : Qle_bool (q * inject_Z (10 ^ 8) - inject_Z n) (1 # 2) = true).
  { apply Qle_bool_iff. rewrite Hr. discriminate. }
  assert (Hne : Qeq_bool (q * inject_Z (10 ^ 8) - inject_Z n) (1 # 2) = false).
  { destruct (Qeq_bool _ (1#2)) eqn:E; [|reflexivity].
    apply Qeq_bool_iff in E. rewrite Hr in E. discriminate. }
  rewrite Hle, Hne. rewrite <- H. field. discriminate.
Qed.

(** With no other ["air"] row in the stack and an adjusted thickness of
    at most 8 decimals, the thicknesses of the written table add up to the
    rounded total. *)
Lemma mask_stack_adjusted_total (mask_stack : list StackRow) (delta_z : Q) (n : Z) :
  (forall r, In r mask_stack -> String.eqb (material r) "air" = false) ->
  adjusted_airtop_thickness mask_stack delta_z * inject_Z (10 ^ 8) == inject_Z n ->
  fold_left (fun acc r => acc + thickness r)
            (mask_stack_adjusted mask_stack delta_z) 0
  == total_thickness_rounded mask_stack delta_z.
Proof.
  intros Hair Hfmt.
  unfold mask_stack_adjusted, mask_stack_with_air.
  rewrite map_app, fold_left_app. simpl.
  assert (Hsame : map (fun r => if String.eqb (material r) "air"
                                then mkStackRow (layer_number r) (material r)
                                       (format_8f (adjusted_airtop_thickness
                                                     mask_stack delta_z))
                                else r) mask_stack = mask_stack).
  { rewrite <- (map_id mask_stack) at 2. apply map_ext_in.
    intros r Hr. now rewrite (Hair r Hr). }
  rewrite Hsame. rewrite (format_8f_exact _ n Hfmt).
  unfold adjusted_airtop_thickness, total_thickness, mask_stack_with_air.
  rewrite fold_left_app. simpl. ring.
Qed.

(** The total of the table for a given value of the ceiling: with no
    other ["air"] row in the stack and an adjusted thickness of at most
    8 decimals, the thicknesses of the written table add up to the
    rounded total. *)
Lemma mask_stack_adjusted_at_total
      (mask_stack : list StackRow) (delta_z : Q) (c n : Z) :
  (forall r, In r mask_stack -> String.eqb (material r) "air" = false) ->
  adjusted_airtop_thickness_at mask_stack delta_z c * inject_Z (10 ^ 8)
    == inject_Z n ->
  mask_stack_adjusted_at mask_stack delta_z c
  = mask_stack ++
    [ mkStackRow (Z.of_nat (List.length mask_stack) + 1) "air"
                 (format_8f (adjusted_airtop_thickness_at mask_stack delta_z c)) ] /\
  fold_left (fun acc r => acc + thickness r)
            (mask_stack_adjusted_at mask_stack delta_z c) 0
  == total_thickness_rounded_at delta_z c.
Proof.
  intros Hair Hfmt.
  assert (Hsame : map (fun r => if String.eqb (material r) "air"
                                then mkStackRow (layer_number r) (material r)
                                       (format_8f (adjusted_airtop_thickness_at
                                                     mask_stack delta_z c))
                                else r) mask_stack = mask_stack).
  { rewrite <- (map_id mask_stack) at 2. apply map_ext_in.
    intros r Hr. now rewrite (Hair r Hr). }
  assert (Hw : mask_stack_adjusted_at mask_stack delta_z c
               = mask_stack ++
                 [ mkStackRow (Z.of_nat (List.length mask_stack) + 1) "air"
                     (format_8f (adjusted_airtop_thickness_at mask_stack delta_z c)) ]).
  { unfold mask_stack_adjusted_at, mask_stack_with_air.
    rewrite map_app, Hsame. reflexivity. }
  split; [exact Hw|]. rewrite Hw.
  rewrite fold_left_app. simpl. rewrite (format_8f_exact _ n Hfmt).
  unfold adjusted_airtop_thickness_at, total_thickness, mask_stack_with_air.
  rewrite fold_left_app. simpl. ring.
Qed.

(** C8: the table after the air top is appended and adjusted.  [c] is the
    value of [math.ceil(total_thickness / (delta_z * 0.001))] and
    [dz = delta_z * 0.001].  With no other ["air"] row and an adjusted
    thickness that the 8 decimals of the written value hold, the
    thicknesses of the table add up to an odd multiple of [dz]:
    [dz * (c - 1)] when [c] is even and [dz * c] otherwise; the table is
    the stack followed by the air row, whose thickness exceeds the
    nominal one by exactly the difference between that total and the
    raw total.  At the ceiling of the exact quotient the table is
    [mask_stack_adjusted]. *)
Theorem airtop_makes_total_odd_multiple
        (mask_stack : list StackRow) (delta_z : Q) (c n : Z)
        (Hz : ~ delta_z == 0)
        (Hair : forall r, In r mask_stack ->
                          String.eqb (material r) "air" = false)
        (Hfmt : adjusted_airtop_thickness_at mask_stack delta_z c
                * inject_Z (10 ^ 8) == inject_Z n) :
  let dz := delta_z * (1 # 1000) in
  let total := total_thickness mask_stack in
  let written := mask_stack_adjusted_at mask_stack delta_z c in
  let written_total := fold_left (fun acc r => acc + thickness r) written 0 in
  (exists k : Z, is_even k = false /\ written_total / dz == inject_Z k) /\
  (is_even c = true -> written_total == dz * inject_Z (c - 1)) /\
  (is_even c = false -> written_total == dz * inject_Z c) /\
  (exists air,
      written = mask_stack ++ [air] /\ material air = "air"%string /\
      thickness air - Airtop_thickness * (1 # 1000) == written_total - total) /\
  (c = math_ceil (total / dz) ->
   written = mask_stack_adjusted mask_stack delta_z).
Proof.
  intros dz total written written_total.
  assert (Hdz : ~ dz == 0).
  { unfold dz. intros E. apply Hz.
    apply Qmult_integral in E. destruct E as [E|E]; [exact E|discriminate]. }
  destruct (mask_stack_adjusted_at_total mask_stack delta_z c n Hair Hfmt)
    as [Hw Hsum].
  fold written in Hw. fold written written_total in Hsum.
  assert (Heven : is_even c = true -> written_total == dz * inject_Z (c - 1)).
  { intros E. rewrite Hsum. unfold total_thickness_rounded_at.
    rewrite E. reflexivity. }
  assert (Hodd : is_even c = false -> written_total == dz * inject_Z c).
  { intros E. rewrite Hsum. unfold total_thickness_rounded_at.
    rewrite E. reflexivity. }
  split; [|split; [exact Heven|split; [exact Hodd|split]]].
  - destruct (is_even c) eqn:E.
    + exists (c - 1)%Z. split; [now apply is_even_pred|].
      rewrite (Heven eq_refl). field. exact Hdz.
    + exists c. split; [exact E|].
      rewrite (Hodd eq_refl). field. exact Hdz.
  - eexists. split; [exact Hw|]. split; [reflexivity|].
    cbn [thickness]. rewrite (format_8f_exact _ n Hfmt), Hsum.
    unfold adjusted_airtop_thickness_at. fold total. ring.
  - intros ->. reflexivity.
Qed.

(** The example stack with [delta_z = 1] at the exact ceiling 310, where
    the air top becomes 0.2195; and the stack whose total is 290 steps,
    at the ceiling 291 of the quotient computed in floating point, where
    the air top becomes 0.221 and the table adds up to 291 steps. *)
Lemma airtop_makes_total_odd_multiple_witness :
  (mask_stack_adjusted_at example_stack 1 310
   = mask_stack_adjusted example_stack 1 /\
   fold_left (fun acc r => acc + thickness r)
             (mask_stack_adjusted_at example_stack 1 310) 0
   == (1 # 1000) * inject_Z 309) /\
  fold_left (fun acc r => acc + thickness r)
            (mask_stack_adjusted_at example_stack_on_boundary 1 291) 0
  == (1 # 1000) * inject_Z 291.
Proof.
  split; [split|].
  - apply (airtop_makes_total_odd_multiple example_stack 1 310 21950000);
      [discriminate| |reflexivity|reflexivity].
    intros r Hr. repeat (destruct Hr as [<-|Hr]; [reflexivity|]). destruct Hr.
  - apply (airtop_makes_total_odd_multiple example_stack 1 310 21950000);
      [discriminate| |reflexivity|reflexivity].
    intros r Hr. repeat (destruct Hr as [<-|Hr]; [reflexivity|]). destruct Hr.
  - apply (airtop_makes_total_odd_multiple example_stack_on_boundary 1 291
                                           22100000);
      [discriminate| |reflexivity|reflexivity].
    intros r Hr. repeat (destruct Hr as [<-|Hr]; [reflexivity|]). destruct Hr.
Defined.

(** ** Diffusion Simulator *)

Lemma nth_list_set_eq {A : Type} (i : nat) (v : A) (l : list A) :
  nth i (list_set i v l) v = v.
Proof.
  revert i. induction l as [|a l IH]; intros [|i]; simpl; auto.
Qed.

Lemma nth_list_set_neq {A : Type} (i j : nat) (v d : A) (l : list A) :
  i <> j -> nth j (list_set i v l) d = nth j l d.
Proof.
  revert i j.
  induction l as [|a l IH]; intros [|i] [|j] H; simpl;
    try reflexivity; try contradiction.
  apply IH. congruence.
Qed.

Lemma nth_list_set_in {A : Type} (i : nat) (v d : A) (l : list A) :
  (i < List.length l)%nat -> nth i (list_set i v l) d = v.
Proof.
  revert i. induction l as [|a l IH]; intros [|i] H; simpl in *; try lia; auto.
  apply IH. lia.
Qed.

Lemma nth_map_fixed {A : Type} (f : A -> A) (d : A) (t : nat) (l : list A) :
  f d = d -> nth t (map f l) d = f (nth t l d).
Proof.
  intros H. rewrite <- H at 1. apply map_nth.
Qed.

Lemma nth_map_const {A B : Type} (c : B) (y : nat) (l : list A) :
  nth y (map (fun _ => c) l) c = c.
Proof.
  revert y. induction l as [|a l IH]; intros [|y]; simpl; auto.
Qed.

Lemma cell_zero_column (j : nat) (u : list image) (t x y : nat) :
  cell (zero_column j u) t x y = if (y =? j)%nat then 0 else cell u t x y.
Proof.
  unfold cell, zero_column.
  rewrite (nth_map_fixed (map (list_set j 0))) by reflexivity.
  rewrite (nth_map_fixed (list_set j 0)) by (now destruct j).
  destruct (Nat.eqb_spec y j) as [->|Hne].
  - apply nth_list_set_eq.
  - apply nth_list_set_neq. congruence.
Qed.

Lemma cell_zero_row (i : nat) (u : list image) (t x y : nat) :
  cell (zero_row i u) t x y = if (x =? i)%nat then 0 else cell u t x y.
Proof.
  unfold cell, zero_row.
  set (F := fun img : image =>
              match nth_error img i with
              | Some row => list_set i (map (fun _ => 0) row) img
              | None => img
              end).
  assert (HF : F [] = []) by (unfold F; destruct i; reflexivity).
  rewrite (nth_map_fixed F) by exact HF.
  unfold F. destruct (nth_error (nth t u []) i) as [row|] eqn:E.
  - destruct (Nat.eqb_spec x i) as [->|Hne].
    + rewrite nth_list_set_in.
      * apply nth_map_const.
      * apply nth_error_Some. congruence.
    + rewrite nth_list_set_neq by congruence. reflexivity.
  - destruct (Nat.eqb_spec x i) as [->|Hne]; [|reflexivity].
    apply nth_error_None in E. rewrite (nth_overflow _ _ E).
    now destruct y.
Qed.

Lemma cell_zero_cell (i j : nat) (u : list image) (t x y : nat) :
  cell (zero_cell i j u) t x y =
  if ((x =? i) && (y =? j))%nat then 0 else cell u t x y.
Proof.
  unfold cell, zero_cell.
  set (F := fun img : image =>
              match nth_error img i with
              | Some row => list_set i (list_set j 0 row) img
              | None => img
              end).
  assert (HF : F [] = []) by (unfold F; destruct i; reflexivity).
  rewrite (nth_map_fixed F) by exact HF.
  unfold F. destruct (nth_error (nth t u []) i) as [row|] eqn:E.
  - destruct (Nat.eqb_spec x i) as [->|Hne]; simpl.
    + rewrite nth_list_set_in by (apply nth_error_Some; congruence).
      rewrite (nth_error_nth _ _ _ E).
      destruct (Nat.eqb_spec y j) as [->|Hy].
      * apply nth_list_set_eq.
      * apply nth_list_set_neq. congruence.
    + rewrite nth_list_set_neq by congruence. reflexivity.
  - destruct (Nat.eqb_spec x i) as [->|Hne]; simpl; [|reflexivity].
    apply nth_error_None in E. rewrite (nth_overflow _ _ E).
    destruct (y =? j)%nat; now destruct y.
Qed.

(** What the four assignments do to every time slice. *)
Lemma cell_heat_sink (i j : nat) (u : list image) (t x y : nat) :
  cell (heat_sink i j u) t x y =
  if (y =? j)%nat then 0
  else if ((x =? i) && (y =? 0))%nat then 0
  else if (x =? 0)%nat then 0
  else if (y =? 0)%nat then 0
  else cell u t x y.
Proof.
  unfold heat_sink.
  rewrite cell_zero_column, cell_zero_cell, cell_zero_row, cell_zero_column.
  reflexivity.
Qed.

(** The cells of the row the third assignment addresses, strictly
    between the two columns, keep the value the update gave them. *)
Lemma heat_sink_keeps_last_row (i j : nat) (u : list image) (t y : nat) :
  (0 < i)%nat -> (0 < y)%nat -> y <> j ->
  cell (heat_sink i j u) t i y = cell u t i y.
Proof.
  intros Hx Hy0 Hy1. rewrite cell_heat_sink.
  replace (y =? j)%nat with false by (symmetry; apply Nat.eqb_neq; lia).
  replace (y =? 0)%nat with false by (symmetry; apply Nat.eqb_neq; lia).
  rewrite Bool.andb_false_r.
  replace (i =? 0)%nat with false by (symmetry; apply Nat.eqb_neq; lia).
  reflexivity.
Qed.

Lemma cell_list_set (u : list image) (v : image) (t x y : nat) :
  (t < List.length u)%nat ->
  cell (list_set t v u) t x y = nth y (nth x v []) 0.
Proof.
  intros H. unfold cell. now rewrite nth_list_set_in.
Qed.

(** A pass that returns: the slices [k] and [k + 1] exist, both spatial
    extents are positive, the two indices resolve, and the result is the
    updated array after the four assignments. *)
Lemma calculate2D_step_Returned
      (g : Q) (nx ny : Z) (k : nat) (u u' : list image) :
  calculate2D_step g nx ny k u = Returned u' ->
  exists uk i j,
    nth_error u k = Some uk /\
    (S k < List.length u)%nat /\
    (0 < List.length uk)%nat /\ (0 < List.length (hd [] uk))%nat /\
    py_index (List.length uk) (nx - 1) = Some i /\
    py_index (List.length (hd [] uk)) (ny - 1) = Some j /\
    u' = heat_sink i j (list_set (S k) (stencil g uk) u).
Proof.
  unfold calculate2D_step. intros H.
  destruct (nth_error u k) as [uk|] eqn:Ek; [|discriminate].
  destruct (S k <? List.length u)%nat eqn:El; [|discriminate].
  cbv zeta in H.
  destruct (0 <? List.length uk)%nat eqn:Ea; [|discriminate].
  destruct (0 <? List.length (hd [] uk))%nat eqn:Eb; [|discriminate].
  cbn [andb] in H.
  destruct (py_index (List.length uk) (nx - 1)) as [i|] eqn:Ei; [|discriminate].
  destruct (py_index (List.length (hd [] uk)) (ny - 1)) as [j|] eqn:Ej;
    [|discriminate].
  exists uk, i, j.
  apply Nat.ltb_lt in El, Ea, Eb.
  repeat split; try assumption; try reflexivity.
  now injection H as <-.
Qed.

(** After a pass of the loop, the cells of the addressed row strictly
    between the two columns hold what the update computed for them. *)
Lemma calculate2D_step_last_row
      (g : Q) (nx ny : Z) (k : nat) (u u' : list image) :
  calculate2D_step g nx ny k u = Returned u' ->
  exists uk i j,
    nth_error u k = Some uk /\
    py_index (List.length uk) (nx - 1) = Some i /\
    py_index (List.length (hd [] uk)) (ny - 1) = Some j /\
    forall y, (0 < i)%nat -> (0 < y)%nat -> y <> j ->
              cell u' (S k) i y = nth y (nth i (stencil g uk) []) 0.
Proof.
  intros H. apply calculate2D_step_Returned in H.
  destruct H as [uk [i [j [Ek [Hl [_ [_ [Hi [Hj ->]]]]]]]]].
  exists uk, i, j. repeat split; try assumption.
  intros y Hx Hy0 Hy1.
  rewrite heat_sink_keeps_last_row by assumption.
  now apply (cell_list_set u (stencil g uk) (S k)).
Qed.

Lemma calculate2D_loop_ends_with_heat_sink
      (g : Q) (nx ny : Z) (ks : list nat) (u u' : list image) :
  ks <> [] ->
  calculate2D_loop g nx ny ks u = Returned u' ->
  exists i j v, u' = heat_sink i j v.
Proof.
  revert u. induction ks as [|k ks IH]; intros u Hne H; [contradiction|].
  simpl in H.
  destruct (calculate2D_step g nx ny k u) as [u1| | |] eqn:E; try discriminate.
  destruct ks as [|k' ks'].
  - simpl in H. injection H as <-.
    apply calculate2D_step_Returned in E.
    destruct E as [uk [i [j [_ [_ [_ [_ [_ [_ ->]]]]]]]]]. eauto.
  - apply (IH u1); [discriminate|exact H].
Qed.

(** Three of the four edges are zero at every time step once the loop has
    run: the [y = 0] column, the [x = 0] row and the column that
    [ny - 1] addresses. *)
Lemma calculate2D_three_edges_zero
      (g : Q) (m nx ny : Z) (u u' : list image) :
  (2 <= m)%Z ->
  calculate2D g m nx ny u = Returned u' ->
  exists j,
    forall t x y : nat,
      cell u' t x 0 = 0 /\
      cell u' t 0 y = 0 /\
      cell u' t x j = 0.
Proof.
  intros Hm H. unfold calculate2D in H.
  apply calculate2D_loop_ends_with_heat_sink in H.
  - destruct H as [i [j [v ->]]]. exists j. intros t x y.
    rewrite !cell_heat_sink.
    split; [|split].
    + destruct (0 =? j)%nat; [reflexivity|].
      rewrite Nat.eqb_refl, Bool.andb_true_r.
      destruct (x =? i)%nat; [reflexivity|].
      now destruct (x =? 0)%nat.
    + rewrite Nat.eqb_refl.
      destruct (y =? j)%nat; [reflexivity|].
      now destruct ((0 =? i) && (y =? 0))%nat.
    + now rewrite Nat.eqb_refl.
  - destruct (Z.to_nat (m - 1)) eqn:E; [lia|]. discriminate.
Qed.

(** C1 (code defect): the assignment meant for the [x = nx - 1] row is
    written [u[:, nx - 1, 0] = 0] and clears one cell only.  On the 3 x 3
    grid with a defect of temperature 4 at the centre, after the first
    update the cell [(x, y) = (2, 1)] of the last row holds
    [gamma * 4 = 1], not 0. *)
Theorem calculate2D_last_x_row_not_zeroed :
  exists u',
    calculate2D (1 # 4) 2 3 3 example_u = Returned u' /\
    cell example_u 0 1 1 == 4 /\
    cell u' 1 2 1 == 1 /\
    ~ cell u' 1 2 1 == 0.
Proof.
  eexists. split; [vm_compute; reflexivity|].
  split; [reflexivity|]. split; [reflexivity|]. discriminate.
Qed.

(** ** Table helpers *)

Lemma insert_sorted_In {A : Type} (leb : A -> A -> bool) (a b : A) (l : list A) :
  In b (insert_sorted leb a l) <-> b = a \/ In b l.
Proof.
  induction l as [|c l IH]; simpl.
  - intuition.
  - destruct (leb a c); simpl; [intuition|]. rewrite IH. intuition.
Qed.

Lemma sort_values_In {A : Type} (leb : A -> A -> bool) (b : A) (l : list A) :
  In b (sort_values leb l) <-> In b l.
Proof.
  induction l as [|a l IH]; simpl; [tauto|].
  rewrite insert_sorted_In, IH. intuition.
Qed.

Section DropDuplicates.
Context {A : Type} (eqb : A -> A -> bool).
Hypothesis eqb_spec : forall a b, eqb a b = true <-> a = b.

Lemma existsb_eqb_In (a : A) (l : list A) :
  existsb (eqb a) l = true <-> In a l.
Proof.
  rewrite existsb_exists. split.
  - intros [b [Hb E]]. apply eqb_spec in E. now subst.
  - intros H. exists a. split; [exact H|]. now apply eqb_spec.
Qed.

Lemma drop_duplicates_from_In (a : A) (seen l : list A) :
  In a (drop_duplicates_from eqb seen l) <-> In a l /\ ~ In a seen.
Proof.
  revert seen. induction l as [|b l IH]; intros seen; simpl; [tauto|].
  destruct (existsb (eqb b) seen) eqn:E.
  - apply existsb_eqb_In in E. rewrite IH. split.
    + intuition.
    + intros [[->|H] Hn]; [contradiction|auto].
  - assert (Hb : ~ In b seen).
    { intros H. apply existsb_eqb_In in H. congruence. }
    simpl. rewrite IH. simpl. split.
    + intros [->|[H Hn]]; [auto|]. split; [auto|]. intros H'. apply Hn. auto.
    + intros [[->|H] Hn]; [auto|].
      destruct (eqb b a) eqn:Eba.
      * apply eqb_spec in Eba. auto.
      * right. split; [exact H|]. intros [->|H']; [|contradiction].
        assert (eqb a a = true) by now apply eqb_spec. congruence.
Qed.

Lemma drop_duplicates_from_NoDup (seen l : list A) :
  NoDup (drop_duplicates_from eqb seen l).
Proof.
  revert seen. induction l as [|b l IH]; intros seen; simpl; [constructor|].
  destruct (existsb (eqb b) seen); [apply IH|].
  constructor; [|apply IH].
  rewrite drop_duplicates_from_In. simpl. tauto.
Qed.

Lemma drop_duplicates_In (a : A) (l : list A) :
  In a (drop_duplicates eqb l) <-> In a l.
Proof.
  unfold drop_duplicates. rewrite drop_duplicates_from_In. simpl. tauto.
Qed.

Lemma drop_duplicates_NoDup (l : list A) : NoDup (drop_duplicates eqb l).
Proof. apply drop_duplicates_from_NoDup. Qed.
End DropDuplicates.

(** ** Mask Classifier *)

Section MaskClassifierFacts.
Import Mask.
Variable polygon : Type.
Variable contains : polygon -> Z -> Z -> bool.
Variable coup_cell_polygons : list (PolygonSet polygon).
Variable layer_id : Z * Z.
Variable pos_tone : bool.
Variable absorber_layers : list string.
Variable df_total : list Row.

Lemma test_polygon_tag_points (f : Z * Z -> bool) (keys : list (Z * Z)) (p : polygon) :
  test_polygon polygon contains (tag_points f keys) p =
  tag_points (fun k => f k || contains p (fst k) (snd k)) keys.
Proof.
  unfold test_polygon, tag_points. rewrite map_map. apply map_ext.
  intros k. simpl. destruct (f k); reflexivity.
Qed.

Lemma fold_test_polygon_tag_points (ps : list polygon) :
  forall (f : Z * Z -> bool) (keys : list (Z * Z)),
    fold_left (test_polygon polygon contains) ps (tag_points f keys) =
    tag_points (fun k => f k || existsb (fun p => contains p (fst k) (snd k)) ps) keys.
Proof.
  induction ps as [|p ps IH]; intros f keys; simpl.
  - unfold tag_points. apply map_ext. intros k. now rewrite Bool.orb_false_r.
  - rewrite test_polygon_tag_points, IH. unfold tag_points. apply map_ext.
    intros k. now rewrite Bool.orb_assoc.
Qed.

Lemma fold_polygon_sets_tag_points (sets : list (PolygonSet polygon)) :
  forall (f : Z * Z -> bool) (keys : list (Z * Z)),
    fold_left
      (fun acc poly =>
         if on_layer polygon layer_id poly
         then fold_left (test_polygon polygon contains) (polygons poly) acc
         else acc)
      sets (tag_points f keys) =
    tag_points (fun k => f k || containment polygon contains sets layer_id (fst k) (snd k))
           keys.
Proof.
  induction sets as [|s sets IH]; intros f keys; simpl.
  - unfold tag_points. apply map_ext. intros k. now rewrite Bool.orb_false_r.
  - destruct (on_layer polygon layer_id s) eqn:E.
    + rewrite fold_test_polygon_tag_points, IH. unfold tag_points. apply map_ext.
      intros k. unfold containment. cbn [existsb andb].
      now rewrite Bool.orb_assoc.
    + rewrite IH. unfold tag_points. apply map_ext.
      intros k. unfold containment. cbn [existsb andb orb]. reflexivity.
Qed.

(** After the polygon loop every point of [df_xy] carries its
    containment result (memoisation does not change it). *)
Lemma df_xy_is_containment :
  df_xy polygon contains coup_cell_polygons layer_id df_total =
  tag_points (fun k => containment polygon contains coup_cell_polygons layer_id
                                   (fst k) (snd k))
             (xy_points df_total).
Proof.
  unfold df_xy, df_xy_initial. now rewrite fold_polygon_sets_tag_points.
Qed.

Lemma xy_eqb_spec (a b : Z * Z) : xy_eqb a b = true <-> a = b.
Proof.
  destruct a as [a1 a2], b as [b1 b2]. unfold xy_eqb. simpl.
  rewrite Bool.andb_true_iff, !Z.eqb_eq. split.
  - intros [-> ->]. reflexivity.
  - intros E. injection E as -> ->. auto.
Qed.

Lemma xy_points_NoDup : NoDup (xy_points df_total).
Proof. apply drop_duplicates_NoDup. exact xy_eqb_spec. Qed.

Lemma xy_points_cover (r : Row) :
  In r df_total -> In (x r, y r) (xy_points df_total).
Proof.
  intros H. unfold xy_points.
  rewrite (drop_duplicates_In xy_eqb xy_eqb_spec), sort_values_In.
  apply in_map_iff. exists r. auto.
Qed.

Lemma filter_tag_points_unique (f : Z * Z -> bool) (ks : list (Z * Z)) (k : Z * Z) :
  NoDup ks -> In k ks ->
  filter (fun m => (xy_x m =? fst k)%Z && (xy_y m =? snd k)%Z) (tag_points f ks) =
  [mkXY (fst k) (snd k) (f k)].
Proof.
  intros Hnd. induction Hnd as [|a ks Hna Hnd IH]; intros Hin; [contradiction|].
  simpl.
  assert (Hrest : ~ In k ks ->
                  filter (fun m => (xy_x m =? fst k)%Z && (xy_y m =? snd k)%Z)
                         (tag_points f ks) = []).
  { intros Hn. clear IH Hin Hna Hnd. induction ks as [|b ks IHk]; [reflexivity|].
    simpl. destruct ((fst b =? fst k)%Z && (snd b =? snd k)%Z) eqn:E.
    - exfalso. apply Hn. left. now apply xy_eqb_spec.
    - apply IHk. intros H. apply Hn. now right. }
  destruct ((fst a =? fst k)%Z && (snd a =? snd k)%Z) eqn:E.
  - assert (a = k) by now apply xy_eqb_spec. subst a.
    rewrite Hrest by exact Hna. reflexivity.
  - destruct Hin as [->|Hin].
    + assert (xy_eqb k k = true) by now apply xy_eqb_spec.
      unfold xy_eqb in H. congruence.
    + now apply IH.
Qed.

Lemma merge_left_df_xy (left : list Row) :
  (forall r, In r left -> In r df_total) ->
  merge_left left (df_xy polygon contains coup_cell_polygons layer_id df_total) =
  map (fun l => (l, Some (containment polygon contains coup_cell_polygons
                                      layer_id (x l) (y l)))) left.
Proof.
  intros Hsub. rewrite df_xy_is_containment.
  induction left as [|l left IH]; [reflexivity|].
  simpl. rewrite IH by (intros r Hr; apply Hsub; now right).
  rewrite (filter_tag_points_unique _ (xy_points df_total) (x l, y l)
                                   xy_points_NoDup)
    by (apply xy_points_cover, Hsub; now left).
  reflexivity.
Qed.

Lemma df_total_new_characterised :
  df_total_new polygon contains coup_cell_polygons layer_id pos_tone
               absorber_layers df_total =
  filter (fun r => negb (isin_absorber absorber_layers r)) df_total ++
  map (fun r =>
         if Bool.eqb (containment polygon contains coup_cell_polygons
                                  layer_id (x r) (y r)) pos_tone
         then mkRow (x r) (y r) (data r) (layer_number r) (Some "air"%string)
                    (thickness r)
         else r)
      (filter (isin_absorber absorber_layers) df_total).
Proof.
  unfold df_total_new, df_total_toplayers. f_equal.
  rewrite merge_left_df_xy.
  - rewrite map_map. reflexivity.
  - intros r Hr. apply filter_In in Hr. tauto.
Qed.

(** C7: the classifier keeps every non-absorber row as it is, and
    rewrites an absorber row's material to ["air"] exactly when the
    containment result of its [(x, y)] equals [pos_tone]; nothing else
    of the row changes. *)
Theorem mask_classifier_clears_by_tone :
  df_total_new polygon contains coup_cell_polygons layer_id pos_tone
               absorber_layers df_total =
  filter (fun r => negb (isin_absorber absorber_layers r)) df_total ++
  map (fun r =>
         if Bool.eqb (containment polygon contains coup_cell_polygons
                                  layer_id (x r) (y r)) pos_tone
         then mkRow (x r) (y r) (data r) (layer_number r) (Some "air"%string)
                    (thickness r)
         else r)
      (filter (isin_absorber absorber_layers) df_total).
Proof. exact df_total_new_characterised. Qed.

(** Mask tone scenario: when every point of the table lies in a polygon
    of the layer, positive tone clears every absorber row and negative
    tone keeps the table's rows as they are. *)
Lemma mask_tone_scenario :
  (forall r, In r df_total ->
             containment polygon contains coup_cell_polygons layer_id
                         (x r) (y r) = true) ->
  df_total_new polygon contains coup_cell_polygons layer_id pos_tone
               absorber_layers df_total =
  filter (fun r => negb (isin_absorber absorber_layers r)) df_total ++
  (if pos_tone
   then map (fun r => mkRow (x r) (y r) (data r) (layer_number r)
                            (Some "air"%string) (thickness r))
            (filter (isin_absorber absorber_layers) df_total)
   else filter (isin_absorber absorber_layers) df_total).
Proof.
  intros Hall. rewrite df_total_new_characterised. f_equal.
  destruct pos_tone.
  - apply map_ext_in. intros r Hr. apply filter_In in Hr.
    now rewrite (Hall r (proj1 Hr)).
  - rewrite <- (map_id (filter (isin_absorber absorber_layers) df_total)) at 2.
    apply map_ext_in. intros r Hr. apply filter_In in Hr.
    now rewrite (Hall r (proj1 Hr)).
Qed.
End MaskClassifierFacts.

(** ** Depth Resampler *)

Lemma drop_duplicates_from_sub {A : Type} (eqb : A -> A -> bool)
      (a : A) (seen l : list A) :
  In a (drop_duplicates_from eqb seen l) -> In a l.
Proof.
  revert seen. induction l as [|b l IH]; intros seen; simpl; [tauto|].
  destruct (existsb (eqb b) seen).
  - intros H. right. eapply IH, H.
  - intros [->|H]; [now left|]. right. eapply IH, H.
Qed.

Lemma drop_duplicates_from_cover {A : Type} (eqb : A -> A -> bool)
      (eqb_refl : forall a, eqb a a = true)
      (eqb_sym : forall a b, eqb a b = true -> eqb b a = true)
      (b : A) (seen l : list A) :
  In b l ->
  (exists a, In a (drop_duplicates_from eqb seen l) /\ eqb a b = true) \/
  existsb (eqb b) seen = true.
Proof.
  revert seen. induction l as [|c l IH]; intros seen; simpl; [tauto|].
  intros [->|H].
  - destruct (existsb (eqb b) seen) eqn:E; [now right|].
    left. exists b. split; [now left|apply eqb_refl].
  - destruct (existsb (eqb c) seen) eqn:E.
    + apply IH, H.
    + destruct (IH (c :: seen) H) as [[a [Ha Hab]]|Hs].
      * left. exists a. split; [now right|exact Hab].
      * simpl in Hs. apply Bool.orb_true_iff in Hs. destruct Hs as [Hbc|Hs].
        -- left. exists c. split; [now left|now apply eqb_sym].
        -- now right.
Qed.

Lemma insert_sorted_length {A : Type} (leb : A -> A -> bool) (a : A) (l : list A) :
  List.length (insert_sorted leb a l) = S (List.length l).
Proof.
  induction l as [|b l IH]; simpl; [reflexivity|].
  destruct (leb a b); simpl; [reflexivity|]. now rewrite IH.
Qed.

Lemma sort_values_length {A : Type} (leb : A -> A -> bool) (l : list A) :
  List.length (sort_values leb l) = List.length l.
Proof.
  induction l as [|a l IH]; simpl; [reflexivity|].
  now rewrite insert_sorted_length, IH.
Qed.

Lemma two_distinct_members {A : Type} (a b : A) (l : list A) :
  In a l -> In b l -> a <> b -> (2 <= List.length l)%nat.
Proof.
  destruct l as [|c [|d l]]; simpl.
  - tauto.
  - intros [->|[]] [->|[]] H. congruence.
  - intros _ _ _. lia.
Qed.

Lemma Qeq_bool_sym (a b : Q) : Qeq_bool a b = true -> Qeq_bool b a = true.
Proof. rewrite !Qeq_bool_iff. now intros ->. Qed.

Lemma unique_sub (t : Q) (ts : list Q) : In t (Frame.unique ts) -> In t ts.
Proof. apply drop_duplicates_from_sub. Qed.

Lemma unique_cover (t : Q) (ts : list Q) :
  In t ts -> exists a, In a (Frame.unique ts) /\ a == t.
Proof.
  intros H.
  destruct (drop_duplicates_from_cover Qeq_bool Qeq_bool_refl Qeq_bool_sym
                                       t [] ts H) as [[a [Ha E]]|E].
  - exists a. split; [exact Ha|now apply Qeq_bool_iff].
  - discriminate.
Qed.

(** With two different bracket times, both sampled, the pivot has its two
    columns and [interpolate] returns a table. *)
Lemma interpolate_returns (df : list Frame.Sample) (value start stop : Q) :
  In start (map Frame.s_time df) ->
  In stop (map Frame.s_time df) ->
  ~ start == stop ->
  exists rows, Frame.interpolate df value start stop = Returned rows.
Proof.
  intros Hs Ht Hne. unfold Frame.interpolate.
  set (df_temp1 := filter _ df).
  assert (Hin : forall t, In t (map Frame.s_time df) ->
                          (t == start \/ t == stop) ->
                          In t (map Frame.s_time df_temp1)).
  { intros t Hin Hor. apply in_map_iff in Hin. destruct Hin as [s [<- Hsin]].
    apply in_map_iff. exists s. split; [reflexivity|].
    apply filter_In. split; [exact Hsin|].
    apply Bool.orb_true_iff. rewrite !Qeq_bool_iff. exact Hor. }
  destruct (unique_cover start (map Frame.s_time df_temp1)) as [a [Ha Ea]].
  { apply Hin; [exact Hs|left; reflexivity]. }
  destruct (unique_cover stop (map Frame.s_time df_temp1)) as [b [Hb Eb]].
  { apply Hin; [exact Ht|right; reflexivity]. }
  assert (Hab : a <> b).
  { intros ->. apply Hne. now rewrite <- Ea, <- Eb. }
  pose proof (two_distinct_members a b _ Ha Hb Hab) as Hlen.
  rewrite <- (sort_values_length Qle_bool) in Hlen.
  destruct (sort_values Qle_bool (Frame.unique (map Frame.s_time df_temp1)))
    as [|c0 [|c1 cols]]; simpl in Hlen; try lia.
  eexists. reflexivity.
Qed.

Lemma Qlt_bool_iff (a b : Q) : Frame.Qlt_bool a b = true <-> a < b.
Proof.
  unfold Frame.Qlt_bool. rewrite Bool.negb_true_iff. split.
  - intros H. apply Qnot_le_lt. intros Hle.
    apply Qle_bool_iff in Hle. congruence.
  - intros H. destruct (Qle_bool b a) eqn:E; [|reflexivity].
    apply Qle_bool_iff in E. exfalso. exact (Qlt_not_le _ _ H E).
Qed.

Lemma argmin_from_range (l : list Q) :
  forall best (bi i : nat),
    Frame.argmin_from best bi i l = bi \/
    (i <= Frame.argmin_from best bi i l < i + List.length l)%nat.
Proof.
  induction l as [|a l IH]; intros best bi i; simpl; [now left|].
  destruct (Frame.Qlt_bool a best).
  - destruct (IH a i (S i)) as [->|H]; right; lia.
  - destruct (IH best bi (S i)) as [->|H]; [now left|right; lia].
Qed.

Lemma argmin_lt_length (l : list Q) (index : nat) :
  Frame.argmin l = Some index -> (index < List.length l)%nat.
Proof.
  destruct l as [|a l]; simpl; [discriminate|].
  intros H. injection H as <-.
  destruct (argmin_from_range l a 0%nat 1%nat) as [->|H]; lia.
Qed.

(** On a strictly decreasing array the least entry is the last one. *)
Lemma argmin_from_decreasing (l : list Q) :
  forall best (bi i : nat),
    StronglySorted (fun a b => b < a) l ->
    Forall (fun a => a < best) l ->
    l <> [] ->
    Frame.argmin_from best bi i l = (i + List.length l - 1)%nat.
Proof.
  induction l as [|a l IH]; intros best bi i Hs Hb Hne; [contradiction|].
  simpl. inversion Hs as [|? ? Hs' Hall]; subst.
  inversion Hb as [|? ? Ha Hb']; subst.
  apply Qlt_bool_iff in Ha. rewrite Ha.
  destruct l as [|b l].
  - simpl. lia.
  - rewrite IH; [simpl; lia|exact Hs'|exact Hall|discriminate].
Qed.

Lemma argmin_decreasing (l : list Q) :
  l <> [] ->
  StronglySorted (fun a b => b < a) l ->
  Frame.argmin l = Some (List.length l - 1)%nat.
Proof.
  destruct l as [|a l]; intros Hne Hs; [contradiction|].
  simpl. f_equal. inversion Hs as [|? ? Hs' Hall]; subst.
  destruct l as [|b l]; [reflexivity|].
  rewrite argmin_from_decreasing; [simpl; lia|exact Hs'|exact Hall|discriminate].
Qed.

Lemma StronglySorted_nth (l : list Q) (i j : nat) :
  StronglySorted Qlt l -> (i < j < List.length l)%nat ->
  nth i l 0 < nth j l 0.
Proof.
  intros Hs. revert i j. induction Hs as [|a l Hs IH Hall]; intros i j Hij.
  - simpl in Hij. lia.
  - destruct j as [|j]; [lia|]. destruct i as [|i]; simpl.
    + rewrite Forall_forall in Hall. apply Hall. apply nth_In. simpl in Hij. lia.
    + apply IH. simpl in Hij. lia.
Qed.

Lemma distances_decreasing (times : list Q) (v : Q) :
  StronglySorted Qlt times ->
  Forall (fun t => t < v) times ->
  StronglySorted (fun a b => b < a) (map (fun t => Qabs (t - v)) times).
Proof.
  intros Hs. induction Hs as [|a l Hs IH Hall]; intros Hv; simpl.
  - constructor.
  - inversion Hv as [|? ? Ha Hl]; subst.
    constructor; [now apply IH|].
    rewrite Forall_map. rewrite Forall_forall in *.
    intros b Hb. specialize (Hall b Hb). specialize (Hl b Hb).
    rewrite (Qabs_neg (b - v)) by lra.
    rewrite (Qabs_neg (a - v)) by lra. lra.
Qed.

(** A required value above every sampled time: the look-up of
    [unique()[index + 1]] fails and the function prints and returns. *)
Lemma resample_value_above_all (df : list Frame.Sample) (v : Q) :
  Frame.unique (map Frame.s_time df) <> [] ->
  StronglySorted Qlt (Frame.unique (map Frame.s_time df)) ->
  Forall (fun t => t < v) (Frame.unique (map Frame.s_time df)) ->
  Frame.resample_value df v = PrintedNone Frame.insufficient_data_message.
Proof.
  intros Hne Hs Hv. unfold Frame.resample_value.
  set (times := Frame.unique (map Frame.s_time df)) in *.
  assert (Hmem : existsb (Qeq_bool v) times = false).
  { destruct (existsb (Qeq_bool v) times) eqn:E; [|reflexivity].
    apply existsb_exists in E. destruct E as [t [Ht E]].
    apply Qeq_bool_iff in E. rewrite Forall_forall in Hv.
    specialize (Hv t Ht). rewrite E in Hv. exfalso. exact (Qlt_irrefl _ Hv). }
  rewrite Hmem.
  rewrite argmin_decreasing.
  - rewrite length_map.
    assert (Hlen : (0 < List.length times)%nat).
    { destruct times; [contradiction|simpl; lia]. }
    assert (Hlast : nth (List.length times - 1) times 0 < v).
    { rewrite Forall_forall in Hv. apply Hv. apply nth_In. lia. }
    assert (Hlt : Frame.Qlt_bool v (nth (List.length times - 1) times 0) = false).
    { destruct (Frame.Qlt_bool v _) eqn:E; [|reflexivity].
      apply Qlt_bool_iff in E. exfalso.
      exact (Qlt_irrefl _ (Qlt_trans _ _ _ E Hlast)). }
    rewrite Hlt.
    replace (S (List.length times - 1)) with (List.length times) by lia.
    assert (Hnone : nth_error times (List.length times) = None)
      by (apply nth_error_None; lia).
    now rewrite Hnone.
  - destruct times; [contradiction|discriminate].
  - now apply distances_decreasing.
Qed.

(** Looking a required value up never raises when the sampled times are
    strictly increasing and either there are two of them or the value is
    not below the first. *)
Lemma resample_value_no_raise (df : list Frame.Sample) (w : Q) :
  StronglySorted Qlt (Frame.unique (map Frame.s_time df)) ->
  Frame.unique (map Frame.s_time df) <> [] ->
  (2 <= List.length (Frame.unique (map Frame.s_time df)))%nat \/
  nth 0 (Frame.unique (map Frame.s_time df)) 0 <= w ->
  (exists rows, Frame.resample_value df w = Returned rows) \/
  Frame.resample_value df w = PrintedNone Frame.insufficient_data_message.
Proof.
  intros Hs Hne Hor. unfold Frame.resample_value.
  set (times := Frame.unique (map Frame.s_time df)) in *.
  assert (Hsub : forall i, (i < List.length times)%nat ->
                           In (nth i times 0) (map Frame.s_time df)).
  { intros i Hi. apply unique_sub. now apply nth_In. }
  destruct (existsb (Qeq_bool w) times); [left; eexists; reflexivity|].
  destruct (Frame.argmin (map (fun t => Qabs (t - w)) times)) as [index|] eqn:E.
  2:{ destruct times; [contradiction|discriminate]. }
  apply argmin_lt_length in E. rewrite length_map in E.
  destruct (Frame.Qlt_bool w (nth index times 0)) eqn:Elt.
  - apply Qlt_bool_iff in Elt. left.
    unfold Frame.np_getitem.
    destruct index as [|j].
    + (* the index wraps to the last sampled time *)
      assert (Hlen2 : (2 <= List.length times)%nat).
      { destruct Hor as [H|H]; [exact H|].
        exfalso. exact (Qlt_not_le _ _ Elt H). }
      replace ((0 <=? Z.of_nat 0 - 1) && (Z.of_nat 0 - 1 <? Z.of_nat (List.length times)))%Z
        with false by (symmetry; apply Bool.andb_false_iff; left; apply Z.leb_gt; lia).
      replace ((- Z.of_nat (List.length times) <=? Z.of_nat 0 - 1) && (Z.of_nat 0 - 1 <? 0))%Z
        with true
        by (symmetry; apply Bool.andb_true_iff; split;
            [apply Z.leb_le|apply Z.ltb_lt]; lia).
      replace (Z.to_nat (Z.of_nat (List.length times) + (Z.of_nat 0 - 1)))
        with (List.length times - 1)%nat by lia.
      rewrite (nth_error_nth' times 0) by lia.
      apply interpolate_returns.
      * apply Hsub. lia.
      * apply Hsub. lia.
      * intros Heq.
        pose proof (StronglySorted_nth times 0 (List.length times - 1) Hs) as H.
        rewrite Heq in H. apply (Qlt_irrefl (nth 0 times 0)). apply H. lia.
    + replace ((0 <=? Z.of_nat (S j) - 1) && (Z.of_nat (S j) - 1 <? Z.of_nat (List.length times)))%Z
        with true
        by (symmetry; apply Bool.andb_true_iff; split;
            [apply Z.leb_le|apply Z.ltb_lt]; lia).
      replace (Z.to_nat (Z.of_nat (S j) - 1)) with j by lia.
      rewrite (nth_error_nth' times 0) by lia.
      apply interpolate_returns.
      * apply Hsub. lia.
      * apply Hsub. lia.
      * intros Heq.
        pose proof (StronglySorted_nth times j (S j) Hs) as H.
        rewrite Heq in H. apply (Qlt_irrefl (nth (S j) times 0)). apply H. lia.
  - destruct (nth_error times (S index)) as [stop|] eqn:En; [left|now right].
    assert (Hlen : (S index < List.length times)%nat).
    { apply nth_error_Some. congruence. }
    rewrite (nth_error_nth' times 0 Hlen) in En. injection En as <-.
    apply interpolate_returns.
    + apply Hsub. lia.
    + apply Hsub. lia.
    + intros Heq.
      pose proof (StronglySorted_nth times index (S index) Hs) as H.
      rewrite Heq in H. apply (Qlt_irrefl (nth (S index) times 0)). apply H. lia.
Qed.

Lemma resample_loop_prints (df : list Frame.Sample) (series : list Q) :
  (forall w, In w series ->
             (exists rows, Frame.resample_value df w = Returned rows) \/
             Frame.resample_value df w = PrintedNone Frame.insufficient_data_message) ->
  (exists v, In v series /\
             Frame.resample_value df v = PrintedNone Frame.insufficient_data_message) ->
  forall df_tmp,
    Frame.resample_loop df series df_tmp = PrintedNone Frame.insufficient_data_message.
Proof.
  induction series as [|w series IH]; intros Hall [v [Hv Hp]] df_tmp.
  - contradiction.
  - simpl. destruct (Hall w (or_introl eq_refl)) as [[rows Hr]|Hr].
    + rewrite Hr. apply IH.
      * intros u Hu. apply Hall. now right.
      * destruct Hv as [->|Hv]; [congruence|]. exists v. auto.
    + now rewrite Hr.
Qed.

(** C9: when the sampled times are strictly increasing (as the simulator
    emits them) and some required value [v] lies above all of them, the
    resampler prints the message asking for a longer simulation and
    returns nothing; the caller then stops on the missing table, so no
    resampled output exists.  Required values below the first sampled
    time are excluded unless two times were sampled (the wrap-around of
    [index - 1] needs two pivot columns). *)
Theorem changeDataRes_insufficient_time
        (df : list Frame.Sample) (series : list Q) (v : Q) :
  Frame.unique (map Frame.s_time df) <> [] ->
  StronglySorted Qlt (Frame.unique (map Frame.s_time df)) ->
  (2 <= List.length (Frame.unique (map Frame.s_time df)))%nat \/
  (forall w, In w series -> nth 0 (Frame.unique (map Frame.s_time df)) 0 <= w) ->
  In v series ->
  (forall t, In t (Frame.unique (map Frame.s_time df)) -> t < v) ->
  Frame.changeDataRes df series = PrintedNone Frame.insufficient_data_message /\
  Frame.resample_stage df series =
    ([Frame.insufficient_data_message], Raised AttributeError).
Proof.
  intros Hne Hs Hor Hv Habove.
  assert (Hloop : Frame.resample_loop df series [] =
                  PrintedNone Frame.insufficient_data_message).
  { apply resample_loop_prints.
    - intros w Hw. apply resample_value_no_raise; [exact Hs|exact Hne|].
      destruct Hor as [H|H]; [now left|right; now apply H].
    - exists v. split; [exact Hv|].
      apply resample_value_above_all; [exact Hne|exact Hs|].
      now apply Forall_forall. }
  assert (Hc : Frame.changeDataRes df series =
               PrintedNone Frame.insufficient_data_message).
  { unfold Frame.changeDataRes. now rewrite Hloop. }
  split; [exact Hc|]. unfold Frame.resample_stage. now rewrite Hc.
Qed.

Lemma changeDataRes_insufficient_time_witness :
  Frame.changeDataRes example_df [0; 1 # 2; 3] =
    PrintedNone Frame.insufficient_data_message /\
  Frame.resample_stage example_df [0; 1 # 2; 3] =
    ([Frame.insufficient_data_message], Raised AttributeError).
Proof.
  apply (changeDataRes_insufficient_time example_df [0; 1 # 2; 3] 3).
  - vm_compute. discriminate.
  - vm_compute. repeat constructor.
  - left. vm_compute. lia.
  - simpl. auto.
  - vm_compute. intros t [<-|[<-|[]]]; reflexivity.
Defined.

(** The interpolated intensities do not depend on where the required
    value lies between its brackets. *)
Lemma interpolate_ignores_position
      (df : list Frame.Sample) (v v' start stop : Q) (rows rows' : list Frame.Row) :
  Frame.interpolate df v start stop = Returned rows ->
  Frame.interpolate df v' start stop = Returned rows' ->
  map Frame.data rows = map Frame.data rows'.
Proof.
  unfold Frame.interpolate.
  destruct (sort_values Qle_bool _) as [|c0 [|c1 cols]]; try discriminate.
  intros H H'. injection H as <-. injection H' as <-.
  rewrite !map_map. reflexivity.
Qed.

Lemma Qeq_bool_lt_false (a b : Q) :
  a < b -> Qeq_bool a b = false /\ Qeq_bool b a = false.
Proof.
  intros H. split.
  - destruct (Qeq_bool a b) eqn:E; [|reflexivity].
    apply Qeq_bool_iff in E. rewrite E in H. exfalso. exact (Qlt_irrefl _ H).
  - destruct (Qeq_bool b a) eqn:E; [|reflexivity].
    apply Qeq_bool_iff in E. rewrite E in H. exfalso. exact (Qlt_irrefl _ H).
Qed.

(** One cell sampled at two times: whatever required value lies strictly
    between them, the resampler returns the intensity
    [d_lo + (d_hi - d_lo) / (t_hi - t_lo)]. *)
Lemma changeDataRes_two_samples (t_lo t_hi v d_lo d_hi : Q) :
  t_lo < v -> v < t_hi ->
  exists q,
    Frame.changeDataRes
      [Frame.mkSample t_lo 0 0 d_lo; Frame.mkSample t_hi 0 0 d_hi] [v] =
      Returned [Frame.mkRow v 0 0 (Some q)] /\
    q == d_lo + (d_hi - d_lo) / (t_hi - t_lo).
Proof.
  intros Hlo Hhi.
  assert (Hlh : t_lo < t_hi) by (eapply Qlt_trans; eauto).
  destruct (Qeq_bool_lt_false _ _ Hlh) as [Elh Ehl].
  destruct (Qeq_bool_lt_false _ _ Hlo) as [Elv Evl].
  destruct (Qeq_bool_lt_false _ _ Hhi) as [Evh Ehv].
  set (df := [Frame.mkSample t_lo 0 0 d_lo; Frame.mkSample t_hi 0 0 d_hi]).
  assert (Htimes : Frame.unique (map Frame.s_time df) = [t_lo; t_hi]).
  { unfold Frame.unique, drop_duplicates, df.
    cbn [map Frame.s_time drop_duplicates_from existsb].
    rewrite Ehl. reflexivity. }
  assert (Hint : Frame.interpolate df v t_lo t_hi =
                 Returned
                   [Frame.mkRow v 0 0
                      (Some ((0 + d_lo) / inject_Z (Z.of_nat 1) +
                             1 / (t_hi - t_lo) *
                             ((0 + d_hi) / inject_Z (Z.of_nat 1) -
                              (0 + d_lo) / inject_Z (Z.of_nat 1))))]).
  { unfold Frame.interpolate, df.
    cbn [filter Frame.s_time Frame.s_x Frame.s_y Frame.s_data].
    rewrite !Qeq_bool_refl, Ehl. cbn [orb].
    unfold Frame.unique, drop_duplicates.
    cbn [map Frame.s_time Frame.s_x Frame.s_y drop_duplicates_from existsb
         sort_values insert_sorted].
    rewrite Ehl. cbn [orb sort_values insert_sorted].
    assert (Hle : Qle_bool t_lo t_hi = true)
      by (apply Qle_bool_iff; now apply Qlt_le_weak).
    rewrite Hle.
    replace (xy_eqb (0%Z, 0%Z) (0%Z, 0%Z)) with true by reflexivity.
    cbn [orb existsb sort_values insert_sorted map fst snd].
    unfold Frame.pivot_entry.
    cbn [filter Frame.s_time Frame.s_x Frame.s_y Frame.s_data].
    replace (xy_eqb (0%Z, 0%Z) (0%Z, 0%Z)) with true by reflexivity.
    rewrite !Qeq_bool_refl, Ehl, Elh.
    cbn [andb fold_left List.length Frame.s_data nan_add nan_sub nan_mul].
    reflexivity. }
  assert (Hval : Frame.resample_value df v = Frame.interpolate df v t_lo t_hi).
  { unfold Frame.resample_value. rewrite Htimes.
    cbn [existsb]. rewrite Evl, Evh. cbn [orb].
    unfold Frame.argmin. cbn [map Frame.argmin_from].
    destruct (Frame.Qlt_bool (Qabs (t_hi - v)) (Qabs (t_lo - v))).
    - cbn [nth].
      replace (Frame.Qlt_bool v t_hi) with true
        by (symmetry; now apply Qlt_bool_iff).
      reflexivity.
    - cbn [nth nth_error].
      replace (Frame.Qlt_bool v t_lo) with false.
      + reflexivity.
      + symmetry. destruct (Frame.Qlt_bool v t_lo) eqn:E; [|reflexivity].
        apply Qlt_bool_iff in E. exfalso.
        exact (Qlt_irrefl _ (Qlt_trans _ _ _ E Hlo)). }
  eexists. split.
  - unfold Frame.changeDataRes. cbn [Frame.resample_loop].
    rewrite Hval, Hint. cbn [app sort_values insert_sorted].
    unfold Frame.drop_unrequired.
    unfold Frame.unique, drop_duplicates.
    cbn [map Frame.time drop_duplicates_from existsb fold_left].
    assert (Hnear : Frame.near_series [v] v = true).
    { unfold Frame.near_series. cbn [map series_min].
      apply Qlt_bool_iff.
      assert (Hz : v - v == 0) by ring.
      rewrite Hz. reflexivity. }
    rewrite Hnear. reflexivity.
  - change (inject_Z (Z.of_nat 1)) with 1. field.
    intros E. apply (Qlt_irrefl t_hi).
    assert (Heq : t_hi == t_lo) by lra. rewrite Heq at 1. exact Hlh.
Qed.

(** C2 (code defect): the interpolated column is
    [d_lo + 1 / (t_hi - t_lo) * (d_hi - d_lo)]; the factor [v - t_lo] is
    missing.  With intensity 10 at time 0 and 20 at time 2, the value
    resampled at [v = 1/2] is 15, where linear interpolation gives 12.5. *)
Theorem changeDataRes_drops_offset_factor :
  Frame.changeDataRes example_df [1 # 2] =
    Returned [Frame.mkRow (1 # 2) 0 0 (Some (30 # 2))] /\
  10 + (20 - 10) / (2 - 0) * ((1 # 2) - 0) == 25 # 2 /\
  ~ 30 # 2 == 25 # 2.
Proof.
  split; [vm_compute; reflexivity|].
  split; [reflexivity|discriminate].
Qed.

(** ** Overlap Resolver *)

Lemma firstn_seq_le (j : nat) :
  forall start len, (j <= len)%nat -> firstn j (seq start len) = seq start j.
Proof.
  induction j as [|j IH]; intros start len H; [reflexivity|].
  destruct len as [|len]; [lia|]. simpl. f_equal. apply IH. lia.
Qed.

Section OverlapWalk.
Import Frame.
Variable df_input : list Row.

Lemma walk_exit_iff (lines : list nat) :
  forall st,
    (exists c m, walk df_input lines st = SysExit c m) <->
    (exists j, (1 <= j <= List.length lines)%nat /\
               too_many_overlaps df_input
                 (walk_through df_input (firstn j lines) st) = true).
Proof.
  induction lines as [|k lines IH]; intros st.
  - simpl. split.
    + intros [c [m H]]. discriminate.
    + intros [j [Hj _]]. lia.
  - simpl walk.
    destruct (too_many_overlaps df_input (walk_body df_input k st)) eqn:E.
    + split.
      * intros _. exists 1%nat. split; [simpl; lia|exact E].
      * intros _. eauto.
    + rewrite IH. split.
      * intros [j [Hj H]]. exists (S j). split; [simpl; lia|exact H].
      * intros [[|[|j]] [Hj H]].
        -- lia.
        -- simpl in H. unfold walk_through in H. simpl in H. congruence.
        -- exists (S j). split; [simpl in Hj; lia|exact H].
Qed.

Lemma walk_returned (lines : list nat) :
  forall st st',
    walk df_input lines st = Returned st' ->
    st' = walk_through df_input lines st.
Proof.
  induction lines as [|k lines IH]; intros st st' H.
  - simpl in H. now injection H as <-.
  - simpl in H.
    destruct (too_many_overlaps df_input (walk_body df_input k st));
      [discriminate|].
    apply IH in H. exact H.
Qed.

Lemma walk_body_counter (k : nat) (st : WalkState) :
  (counter_overlap st <= counter_overlap (walk_body df_input k st))%Z.
Proof.
  unfold walk_body.
  destruct (check_overlap _ _); [destruct (k =? 1)%nat|]; simpl; lia.
Qed.

Lemma walk_through_counter (lines : list nat) :
  forall st,
    (counter_overlap st <= counter_overlap (walk_through df_input lines st))%Z.
Proof.
  induction lines as [|k lines IH]; intros st; simpl; [lia|].
  unfold walk_through in *. simpl.
  pose proof (walk_body_counter k st). specialize (IH (walk_body df_input k st)).
  lia.
Qed.

Lemma walk_through_app (l1 l2 : list nat) (st : WalkState) :
  walk_through df_input (l1 ++ l2) st =
  walk_through df_input l2 (walk_through df_input l1 st).
Proof. unfold walk_through. apply fold_left_app. Qed.

Lemma too_many_overlaps_mono (st st' : WalkState) :
  (counter_overlap st <= counter_overlap st')%Z ->
  too_many_overlaps df_input st = true ->
  too_many_overlaps df_input st' = true.
Proof.
  unfold too_many_overlaps. rewrite !Qlt_bool_iff. intros Hle H.
  set (n := Z.of_nat (List.length (times df_input))) in *.
  assert (Hn : (0 <= n)%Z) by (unfold n; lia).
  destruct (Z.eq_dec n 0) as [E|E].
  - rewrite E in H. unfold Qdiv in H. simpl in H.
    rewrite Qmult_0_r in H. discriminate.
  - assert (Hpos : 0 < inject_Z n).
    { change 0 with (inject_Z 0). rewrite <- Zlt_Qlt. lia. }
    eapply Qlt_le_trans; [exact H|].
    apply Qle_shift_div_l; [exact Hpos|].
    unfold Qdiv. rewrite <- Qmult_assoc, (Qmult_comm (/ inject_Z n)).
    rewrite Qmult_inv_r, Qmult_1_r.
    + now rewrite <- Zle_Qle.
    + intros Hz. rewrite Hz in Hpos. discriminate.
Qed.

(** C3 (as amended): the run is aborted with the overlap diagnostic
    exactly when, after some pass of the walk, the number of overlaps
    found so far divided by the number of lines exceeds 1/4; equivalently,
    when the number found by the whole walk does.  So a walk that finds
    overlaps for exactly a quarter of the lines is not aborted and one
    that finds more is. *)
Theorem overlap_abort_iff_over_quarter :
  let n := List.length (times df_input) in
  let found k :=
    counter_overlap
      (walk_through df_input (seq 1 k) (initial_state df_input)) in
  ((exists c m, detectOverwriteOverlap df_input = SysExit c m) <->
   (exists k, (1 <= k <= n - 2)%nat /\
              1 # 4 < inject_Z (found k) / inject_Z (Z.of_nat n))) /\
  ((exists c m, detectOverwriteOverlap df_input = SysExit c m) <->
   1 # 4 < inject_Z (found (n - 2)%nat) / inject_Z (Z.of_nat n)).
Proof.
  intros n found.
  assert (Hdet : (exists c m, detectOverwriteOverlap df_input = SysExit c m) <->
                 (exists c m, walk df_input (counter_lines df_input)
                                   (initial_state df_input) = SysExit c m)).
  { unfold detectOverwriteOverlap.
    destruct (times df_input) as [|t0 ts] eqn:Et.
    - unfold counter_lines. rewrite Et. simpl. split.
      + intros [c [m H]]. discriminate.
      + intros [c [m H]]. discriminate.
    - destruct (walk df_input (counter_lines df_input) (initial_state df_input))
        as [st|msg|c m|e].
      + destruct (df_nextline st); split; intros [c [m H]]; discriminate.
      + split; intros [c [m H]]; discriminate.
      + split; intros _; eauto.
      + split; intros [c [m H]]; discriminate. }
  assert (Hsome : (exists c m, detectOverwriteOverlap df_input = SysExit c m) <->
                  (exists k, (1 <= k <= n - 2)%nat /\
                             1 # 4 < inject_Z (found k) / inject_Z (Z.of_nat n))).
  { rewrite Hdet, walk_exit_iff. unfold counter_lines. rewrite length_seq.
    fold n. split; intros [k [Hk H]]; exists k; (split; [exact Hk|]).
    - rewrite firstn_seq_le in H by lia.
      unfold too_many_overlaps in H. apply Qlt_bool_iff in H. exact H.
    - rewrite firstn_seq_le by lia.
      unfold too_many_overlaps. apply Qlt_bool_iff. exact H. }
  split; [exact Hsome|].
  rewrite Hsome. split.
  - intros [k [Hk H]].
    assert (Hmono : too_many_overlaps df_input
                      (walk_through df_input (seq 1 (n - 2)) (initial_state df_input))
                    = true).
    { apply (too_many_overlaps_mono
               (walk_through df_input (seq 1 k) (initial_state df_input))).
      - replace (n - 2)%nat with (k + (n - 2 - k))%nat by lia.
        rewrite seq_app, walk_through_app. apply walk_through_counter.
      - unfold too_many_overlaps. apply Qlt_bool_iff. exact H. }
    unfold too_many_overlaps in Hmono. apply Qlt_bool_iff in Hmono. exact Hmono.
  - intros H. exists (n - 2)%nat. split; [|exact H].
    destruct (Nat.le_gt_cases 1 (n - 2)) as [Hle|Hgt]; [lia|].
    exfalso. assert (E : (n - 2 = 0)%nat) by lia.
    unfold found in H. rewrite E in H. simpl in H.
    unfold Qdiv in H. rewrite Qmult_0_l in H. discriminate.
Qed.
End OverlapWalk.

(** One overlap among four lines is exactly 25 %: the walk completes.
    One among three is over 25 %: the run is aborted. *)
Lemma overlap_quarter_examples :
  (exists out, Frame.detectOverwriteOverlap example_quarter = Returned out) /\
  Frame.counter_overlap
    (Frame.walk_through example_quarter (Frame.counter_lines example_quarter)
                        (Frame.initial_state example_quarter)) = 1%Z /\
  Frame.detectOverwriteOverlap example_third = SysExit 1 3 /\
  Frame.detectOverwriteOverlap example_seven = SysExit 2 7.
Proof.
  split; [eexists; vm_compute; reflexivity|].
  repeat split; vm_compute; reflexivity.
Qed.

(** *** Which pairs the walk examines *)

Lemma nan_negative_iff (v : Q) : nan_negative (Some v) = true <-> v < 0.
Proof.
  unfold nan_negative. rewrite Bool.negb_true_iff. split.
  - intros H. apply Qnot_le_lt. intros Hle.
    apply Qle_bool_iff in Hle. congruence.
  - intros H. destruct (Qle_bool 0 v) eqn:E; [|reflexivity].
    apply Qle_bool_iff in E. exfalso. exact (Qlt_not_le _ _ H E).
Qed.

(** [s.min() < 0] holds exactly when some entry of [s] is a negative
    number. *)
Lemma series_min_negative (s : list (option Q)) :
  nan_negative (series_min s) = true <-> exists v, In (Some v) s /\ v < 0.
Proof.
  induction s as [|[a|] s IH]; simpl.
  - split; [discriminate|]. intros [v [[] _]].
  - destruct (series_min s) as [m|] eqn:Em.
    + rewrite nan_negative_iff, Q.min_lt_iff.
      rewrite nan_negative_iff in IH. split.
      * intros [H|H].
        -- exists a. auto.
        -- apply IH in H. destruct H as [v [Hv Hneg]]. exists v. auto.
      * intros [v [[E|Hv] Hneg]].
        -- injection E as ->. now left.
        -- right. apply IH. eauto.
    + rewrite nan_negative_iff. split.
      * intros H. exists a. auto.
      * intros [v [[E|Hv] Hneg]].
        -- now injection E as ->.
        -- assert (Hf : nan_negative None = true) by (apply IH; eauto).
           discriminate.
  - rewrite IH. split.
    + intros [v [Hv Hneg]]. eauto.
    + intros [v [[E|Hv] Hneg]]; [discriminate|eauto].
Qed.

Lemma at_index_overflow (s : list (option Q)) (i : nat) :
  (List.length s <= i)%nat -> at_index s i = None.
Proof.
  intros H. unfold at_index.
  now rewrite (proj2 (nth_error_None s i) H).
Qed.

Lemma subtract_fill0_In (a b : list (option Q)) (v : Q) :
  In (Some v) (subtract_fill0 a b) <->
  exists i, sub_fill0 (at_index a i) (at_index b i) = Some v.
Proof.
  unfold subtract_fill0, index_union. rewrite in_map_iff. split.
  - intros [i [H _]]. eauto.
  - intros [i H]. exists i. split; [exact H|].
    apply in_seq. split; [lia|]. simpl.
    destruct (Nat.lt_ge_cases i (Nat.max (List.length a) (List.length b)))
      as [Hlt|Hge]; [exact Hlt|].
    rewrite (at_index_overflow a), (at_index_overflow b) in H by lia.
    discriminate.
Qed.

(** The test of one pair: some entry of the current line, raised by its
    depth, lies below the same entry of the previous line. *)
Lemma check_overlap_iff (df_prevline df_curline : list Frame.Row) :
  Frame.check_overlap df_prevline df_curline = true <->
  exists i v,
    sub_fill0 (Frame.height_at df_curline i) (Frame.height_at df_prevline i)
      = Some v /\ v < 0.
Proof.
  unfold Frame.check_overlap. rewrite series_min_negative. split.
  - intros [v [Hv Hneg]]. apply subtract_fill0_In in Hv.
    destruct Hv as [i Hi]. exists i, v. auto.
  - intros [i [v [Hi Hneg]]]. exists v. split; [|exact Hneg].
    apply subtract_fill0_In. eauto.
Qed.

Lemma height_at_nth (l : list Frame.Row) (i : nat) (r : Frame.Row) :
  nth_error l i = Some r ->
  Frame.height_at l i = nan_add (Frame.data r) (Some (Frame.time r)).
Proof.
  intros H. unfold Frame.height_at, at_index, Frame.column, Frame.add_time.
  rewrite map_map, nth_error_map, H. reflexivity.
Qed.

Lemma height_at_overflow (l : list Frame.Row) (i : nat) :
  nth_error l i = None -> Frame.height_at l i = None.
Proof.
  intros H. unfold Frame.height_at, at_index, Frame.column, Frame.add_time.
  rewrite map_map, nth_error_map, H. reflexivity.
Qed.

(** For two lines over the same cells, all with numeric intensities, the
    test succeeds exactly when at some cell the current intensity plus
    depth is strictly less than the previous one. *)
Lemma check_overlap_aligned (df_prevline df_curline : list Frame.Row) :
  List.length df_prevline = List.length df_curline ->
  (forall r, In r (df_prevline ++ df_curline) -> Frame.data r <> None) ->
  (Frame.check_overlap df_prevline df_curline = true <->
   exists i p c a b,
     nth_error df_prevline i = Some p /\ nth_error df_curline i = Some c /\
     Frame.data p = Some a /\ Frame.data c = Some b /\
     b + Frame.time c < a + Frame.time p).
Proof.
  intros Hlen Hnum. rewrite check_overlap_iff. split.
  - intros [i [v [Hv Hneg]]].
    destruct (nth_error df_prevline i) as [p|] eqn:Ep;
      destruct (nth_error df_curline i) as [c|] eqn:Ec.
    + rewrite (height_at_nth _ _ _ Ep), (height_at_nth _ _ _ Ec) in Hv.
      destruct (Frame.data p) as [a|] eqn:Ea.
      2:{ exfalso. apply (Hnum p); [|exact Ea].
          apply in_or_app. left. eapply nth_error_In, Ep. }
      destruct (Frame.data c) as [b|] eqn:Eb.
      2:{ exfalso. apply (Hnum c); [|exact Eb].
          apply in_or_app. right. eapply nth_error_In, Ec. }
      simpl in Hv. injection Hv as <-.
      exists i, p, c, a, b. repeat split; try assumption. lra.
    + exfalso. apply nth_error_None in Ec.
      assert (i < List.length df_prevline)%nat
        by (apply nth_error_Some; congruence). lia.
    + exfalso. apply nth_error_None in Ep.
      assert (i < List.length df_curline)%nat
        by (apply nth_error_Some; congruence). lia.
    + rewrite (height_at_overflow _ _ Ep), (height_at_overflow _ _ Ec) in Hv.
      discriminate.
  - intros [i [p [c [a [b [Hp [Hc [Ha [Hb Hlt]]]]]]]]].
    exists i, ((b + Frame.time c) - (a + Frame.time p)).
    rewrite (height_at_nth _ _ _ Hp), (height_at_nth _ _ _ Hc), Ha, Hb.
    simpl. split; [reflexivity|lra].
Qed.

Section OverlapPairs.
Import Frame.
Variable df_input : list Row.

Lemma walk_body_printed (k : nat) (st : WalkState) :
  printed (walk_body df_input k st) =
  printed st ++
  (if check_overlap (at_time (df_output st) (nth (k - 1) (times df_input) 0))
                    (at_time df_input (nth k (times df_input) 0))
   then [nth k (times df_input) 0] else []).
Proof.
  unfold walk_body. destruct (check_overlap _ _).
  - now destruct (k =? 1)%nat.
  - simpl. now rewrite app_nil_r.
Qed.

Lemma walk_through_printed (m : nat) :
  printed (walk_through df_input (seq 1 m) (initial_state df_input)) =
  map (fun k => nth k (times df_input) 0)
      (filter (overlap_at df_input) (seq 1 m)).
Proof.
  induction m as [|m IH]; [reflexivity|].
  rewrite seq_S, walk_through_app, filter_app, map_app, <- IH.
  unfold walk_through at 1. simpl fold_left.
  rewrite walk_body_printed. f_equal.
  unfold overlap_at. simpl filter.
  rewrite !Nat.sub_0_r. replace (S m - 1)%nat with m by lia.
  now destruct (check_overlap _ _).
Qed.

Lemma walk_body_nextline (k : nat) (st : WalkState) :
  df_nextline (walk_body df_input k st) =
  Some (at_time df_input (nth (k + 1) (times df_input) 0)).
Proof.
  unfold walk_body. destruct (check_overlap _ _); [destruct (k =? 1)%nat|];
    reflexivity.
Qed.

Lemma walk_through_nextline (m : nat) :
  df_nextline (walk_through df_input (seq 1 m) (initial_state df_input)) =
  match m with
  | O => None
  | S _ => Some (at_time df_input (nth (m + 1) (times df_input) 0))
  end.
Proof.
  destruct m as [|m]; [reflexivity|].
  rewrite seq_S, walk_through_app. unfold walk_through at 1. simpl fold_left.
  rewrite walk_body_nextline. do 2 f_equal. 
Qed.

Lemma detectOverwriteOverlap_returned (out : list Row) :
  detectOverwriteOverlap df_input = Returned out ->
  exists nextline,
    df_nextline (walk_through df_input (counter_lines df_input)
                              (initial_state df_input)) = Some nextline /\
    out = sort_values row_leb
            (df_output (walk_through df_input (counter_lines df_input)
                                     (initial_state df_input)) ++ nextline).
Proof.
  unfold detectOverwriteOverlap. intros H.
  destruct (times df_input) as [|t0 ts]; [discriminate|].
  destruct (walk df_input (counter_lines df_input) (initial_state df_input))
    as [st|msg|c m|e] eqn:Ew; try discriminate.
  apply walk_returned in Ew. subst st.
  destruct (df_nextline _) as [nextline|]; [|discriminate].
  injection H as <-. eauto.
Qed.

End OverlapPairs.

(** C4 (as stated) fails in three ways.  On three lines with heights 0, 6
    and 2 the last pair is inverted, line 2 is never the current line,
    nothing is reported and the table is returned as it came.  On eight
    lines of which only lines 1 and 2 are inverted, the pass for line 3
    reports an overlap as well, although line 3 lies above line 2 of the
    table: it is compared with line 2 as the pass before has rewritten
    it.  On four lines with heights 10, 6, 2, 3 the first pass replaces
    the output by the first line alone, the second pass finds no
    previous line in it, and the inverted pair of lines 1 and 2 goes
    unreported. *)
Lemma last_pair_overlap_not_examined :
  (~ Frame.examines_every_adjacent_pair example_last_pair /\
   Frame.check_overlap (Frame.at_time example_last_pair 1)
                       (Frame.at_time example_last_pair 2) = true /\
   Frame.printed
     (Frame.walk_through example_last_pair
                         (Frame.counter_lines example_last_pair)
                         (Frame.initial_state example_last_pair)) = [] /\
   Frame.detectOverwriteOverlap example_last_pair = Returned example_last_pair) /\
  (Frame.inverted_pairs example_resolved_pair = [2%nat] /\
   Frame.check_overlap (Frame.input_line example_resolved_pair 2)
                       (Frame.input_line example_resolved_pair 3) = false /\
   Frame.overlap_at example_resolved_pair 3 = true /\
   Frame.printed
     (Frame.walk_through example_resolved_pair
                         (Frame.counter_lines example_resolved_pair)
                         (Frame.initial_state example_resolved_pair)) = [2; 3] /\
   exists out, Frame.detectOverwriteOverlap example_resolved_pair = Returned out) /\
  (Frame.check_overlap (Frame.input_line example_dropped_line 1)
                       (Frame.input_line example_dropped_line 2) = true /\
   Frame.previous_line example_dropped_line 2 = [] /\
   Frame.overlap_at example_dropped_line 2 = false /\
   Frame.printed
     (Frame.walk_through example_dropped_line
                         (Frame.counter_lines example_dropped_line)
                         (Frame.initial_state example_dropped_line)) = [1] /\
   exists out, Frame.detectOverwriteOverlap example_dropped_line = Returned out).
Proof.
  split; [|split].
  - split.
    + intros H.
      assert (Hin : In 2%nat (Frame.counter_lines example_last_pair)).
      { apply H.
        change (List.length (Frame.times example_last_pair)) with 3%nat. lia. }
      vm_compute in Hin. destruct Hin as [E|[]]. discriminate.
    + repeat split; vm_compute; reflexivity.
  - repeat split; try (vm_compute; reflexivity).
    eexists. vm_compute. reflexivity.
  - repeat split; try (vm_compute; reflexivity).
    eexists. vm_compute. reflexivity.
Qed.

(** *** How an overlap is resolved *)

Lemma Forall2_map_same {A B C : Type} (R : B -> C -> Prop)
      (f : A -> B) (g : A -> C) (l : list A) :
  (forall a, In a l -> R (f a) (g a)) -> Forall2 R (map f l) (map g l).
Proof.
  induction l as [|a l IH]; intros H; simpl; constructor.
  - apply H. now left.
  - apply IH. intros b Hb. apply H. now right.
Qed.

Lemma combine_seq_map {A B : Type} (g : A -> B) (l : list A) :
  forall start,
    combine (seq start (List.length (map g l))) (map g l) =
    map (fun ia => (fst ia, g (snd ia))) (combine (seq start (List.length l)) l).
Proof.
  induction l as [|a l IH]; intros start; simpl; [reflexivity|].
  f_equal. apply IH.
Qed.

Lemma in_combine_seq {A : Type} (l : list A) :
  forall start i a,
    In (i, a) (combine (seq start (List.length l)) l) ->
    (start <= i)%nat /\ nth_error l (i - start) = Some a.
Proof.
  induction l as [|b l IH]; intros start i a; simpl; [tauto|].
  intros [E|H].
  - injection E as <- <-. rewrite Nat.sub_diag. auto.
  - apply IH in H. destruct H as [Hle Hn]. split; [lia|].
    replace (i - start)%nat with (S (i - S start)) by lia. exact Hn.
Qed.

Lemma nth_error_map2 {A B C : Type} (f : A -> B -> C) (l1 : list A) :
  forall (l2 : list B) (i : nat) a b,
    nth_error l1 i = Some a -> nth_error l2 i = Some b ->
    nth_error (map2 f l1 l2) i = Some (f a b).
Proof.
  induction l1 as [|a1 l1 IH]; intros [|b1 l2] [|i] a b H1 H2;
    simpl in *; try discriminate.
  - congruence.
  - now apply IH.
Qed.

Lemma nth_error_seq_lt (start len i : nat) :
  (i < len)%nat -> nth_error (seq start len) i = Some (start + i)%nat.
Proof.
  intros H. rewrite (nth_error_nth' _ 0%nat) by (rewrite length_seq; lia).
  now rewrite seq_nth.
Qed.

Lemma nan_eq_refl (a : option Q) : Frame.nan_eq a a.
Proof. destruct a; simpl; [reflexivity|exact I]. Qed.

Lemma nan_eq_round_trip (d : option Q) (t : Q) :
  Frame.nan_eq (nan_sub (nan_add d (Some t)) (Some t)) d.
Proof. destruct d as [p|]; simpl; [ring|exact I]. Qed.

Lemma min_skipna_compat (a a' b b' : option Q) :
  Frame.nan_eq a a' -> Frame.nan_eq b b' ->
  Frame.nan_eq (min_skipna a b) (min_skipna a' b').
Proof.
  destruct a, a', b, b'; simpl; try tauto.
  intros H1 H2. now rewrite H1, H2.
Qed.

Lemma nan_half_add_compat (a a' b : option Q) :
  Frame.nan_eq a a' ->
  Frame.nan_eq (nan_half (nan_add a b)) (nan_half (nan_add a' b)).
Proof.
  destruct a, a', b; simpl; try tauto.
  intros H. now rewrite H.
Qed.

(** Raising a line by its time and lowering it again changes no entry. *)
Lemma at_index_round_trip (l : list Frame.Row) (i : nat) :
  Frame.nan_eq
    (at_index (Frame.column (Frame.sub_time (Frame.add_time l))) i)
    (at_index (Frame.column l) i).
Proof.
  unfold at_index, Frame.column, Frame.sub_time, Frame.add_time.
  rewrite !map_map, !nth_error_map.
  destruct (nth_error l i) as [r|]; simpl; [|exact I].
  apply nan_eq_round_trip.
Qed.


Lemma round_trip_length (l : list Frame.Row) :
  List.length (Frame.sub_time (Frame.add_time l)) = List.length l.
Proof. unfold Frame.sub_time, Frame.add_time. now rewrite !length_map. Qed.

Lemma at_index_column (l : list Frame.Row) (i : nat) (r : Frame.Row) :
  nth_error l i = Some r -> at_index (Frame.column l) i = Frame.data r.
Proof.
  intros H. unfold at_index, Frame.column. rewrite nth_error_map, H. reflexivity.
Qed.

Lemma at_index_half_sum (a b : list (option Q)) (i : nat) :
  at_index (map nan_half (series_add a b)) i =
  nan_half (nan_add (at_index a i) (at_index b i)).
Proof.
  unfold series_add, index_union.
  destruct (Nat.lt_ge_cases i (Nat.max (List.length a) (List.length b)))
    as [Hlt|Hge].
  - unfold at_index at 1. rewrite !nth_error_map.
    rewrite nth_error_seq_lt by exact Hlt. reflexivity.
  - rewrite at_index_overflow by (rewrite !length_map, length_seq; lia).
    rewrite (at_index_overflow a), (at_index_overflow b) by lia. reflexivity.
Qed.

Lemma resolve_first_is_min (df_prevline df_curline : list Frame.Row) :
  Forall2 Frame.row_eq
    (Frame.resolve_first (Frame.sub_time (Frame.add_time df_prevline))
                         (Frame.sub_time (Frame.add_time df_curline)))
    (Frame.elementwise_min df_prevline df_curline).
Proof.
  unfold Frame.resolve_first, Frame.assign_data, Frame.elementwise_min.
  set (g := fun r : Frame.Row =>
              Frame.with_data
                (Frame.with_data r (nan_add (Frame.data r) (Some (Frame.time r))))
                (nan_sub (nan_add (Frame.data r) (Some (Frame.time r)))
                         (Some (Frame.time r)))).
  assert (Hg : Frame.sub_time (Frame.add_time df_prevline) = map g df_prevline).
  { unfold Frame.sub_time, Frame.add_time. now rewrite map_map. }
  rewrite Hg. rewrite (combine_seq_map g), map_map.
  apply Forall2_map_same. intros [i p] Hin.
  apply in_combine_seq in Hin. destruct Hin as [_ Hp].
  rewrite Nat.sub_0_r in Hp. simpl fst. simpl snd.
  unfold Frame.row_eq. simpl. repeat split.
  assert (Hi : (i < List.length df_prevline)%nat).
  { apply nth_error_Some. congruence. }
  unfold at_index at 1.
  erewrite nth_error_map2.
  - apply min_skipna_compat.
    + unfold g. simpl. apply nan_eq_round_trip.
    + apply at_index_round_trip.
  - unfold Frame.column. rewrite !nth_error_map, Hp. reflexivity.
  - rewrite nth_error_map, nth_error_seq_lt by (now rewrite length_map).
    reflexivity.
Qed.

Lemma resolve_later_is_average (df_prevline df_curline df_nextline : list Frame.Row) :
  Forall2 Frame.row_eq
    (Frame.resolve_later (Frame.sub_time (Frame.add_time df_prevline))
                         (Frame.sub_time (Frame.add_time df_curline))
                         df_nextline)
    (Frame.neighbour_average df_prevline df_curline df_nextline).
Proof.
  unfold Frame.resolve_later, Frame.assign_data, Frame.neighbour_average.
  set (g := fun r : Frame.Row =>
              Frame.with_data
                (Frame.with_data r (nan_add (Frame.data r) (Some (Frame.time r))))
                (nan_sub (nan_add (Frame.data r) (Some (Frame.time r)))
                         (Some (Frame.time r)))).
  assert (Hg : Frame.sub_time (Frame.add_time df_curline) = map g df_curline).
  { unfold Frame.sub_time, Frame.add_time. now rewrite map_map. }
  rewrite Hg. rewrite (combine_seq_map g), map_map.
  apply Forall2_map_same. intros [i c] Hin.
  simpl fst. simpl snd. unfold Frame.row_eq. simpl. repeat split.
  rewrite at_index_half_sum.
  apply nan_half_add_compat. apply at_index_round_trip.
Qed.

Lemma filter_none {A : Type} (f : A -> bool) (l : list A) :
  Forall (fun a => f a = false) l -> filter f l = [].
Proof.
  induction 1 as [|a l Ha Hl IH]; [reflexivity|]. cbn. now rewrite Ha.
Qed.

Lemma filter_all {A : Type} (f : A -> bool) (l : list A) :
  Forall (fun a => f a = true) l -> filter f l = l.
Proof.
  induction 1 as [|a l Ha Hl IH]; [reflexivity|]. cbn. now rewrite Ha, IH.
Qed.

Lemma filter_twice {A : Type} (f : A -> bool) (l : list A) :
  filter f (filter f l) = filter f l.
Proof.
  induction l as [|a l IH]; simpl; [reflexivity|].
  destruct (f a) eqn:E; simpl; [rewrite E; f_equal|]; exact IH.
Qed.

(** On entries that both lines have as numbers, [elementwise_min] is the
    minimum and [neighbour_average] the mean. *)
Lemma elementwise_min_nth (df_prevline df_curline : list Frame.Row)
      (i : nat) (p c : Frame.Row) (a b : Q) :
  nth_error df_prevline i = Some p -> nth_error df_curline i = Some c ->
  Frame.data p = Some a -> Frame.data c = Some b ->
  nth_error (Frame.elementwise_min df_prevline df_curline) i =
  Some (Frame.with_data p (Some (Qmin a b))).
Proof.
  intros Hp Hc Ha Hb. unfold Frame.elementwise_min.
  rewrite nth_error_map.
  assert (Hi : (i < List.length df_prevline)%nat)
    by (apply nth_error_Some; congruence).
  assert (Hcomb : nth_error (combine (seq 0 (List.length df_prevline)) df_prevline) i
                  = Some (i, p)).
  { rewrite (nth_error_nth' _ (0%nat, p))
      by (rewrite length_combine, length_seq; lia).
    rewrite combine_nth by (now rewrite length_seq).
    rewrite seq_nth by exact Hi.
    now rewrite (nth_error_nth _ _ p Hp). }
  rewrite Hcomb. simpl.
  now rewrite (at_index_column _ _ _ Hc), Ha, Hb.
Qed.

Lemma neighbour_average_nth (df_prevline df_curline df_nextline : list Frame.Row)
      (i : nat) (p c n : Frame.Row) (a b : Q) :
  nth_error df_prevline i = Some p -> nth_error df_curline i = Some c ->
  nth_error df_nextline i = Some n ->
  Frame.data p = Some a -> Frame.data n = Some b ->
  nth_error (Frame.neighbour_average df_prevline df_curline df_nextline) i =
  Some (Frame.with_data c (Some ((a + b) / 2))).
Proof.
  intros Hp Hc Hn Ha Hb. unfold Frame.neighbour_average.
  rewrite nth_error_map.
  assert (Hi : (i < List.length df_curline)%nat)
    by (apply nth_error_Some; congruence).
  assert (Hcomb : nth_error (combine (seq 0 (List.length df_curline)) df_curline) i
                  = Some (i, c)).
  { rewrite (nth_error_nth' _ (0%nat, c))
      by (rewrite length_combine, length_seq; lia).
    rewrite combine_nth by (now rewrite length_seq).
    rewrite seq_nth by exact Hi.
    now rewrite (nth_error_nth _ _ c Hc). }
  rewrite Hcomb. simpl.
  now rewrite (at_index_column _ _ _ Hp), (at_index_column _ _ _ Hn), Ha, Hb.
Qed.

Section OverlapResolution.
Import Frame.
Variable df_input : list Row.

(** Before the first pass the output is the previous line itself. *)
Lemma first_pass_previous_line :
  at_time (df_output (initial_state df_input)) (nth 0 (times df_input) 0) =
  df_output (initial_state df_input).
Proof. unfold initial_state, at_time. simpl. apply filter_twice. Qed.

End OverlapResolution.

(** *** The slices of the table that is returned *)

Lemma insert_sorted_Permutation {A : Type} (leb : A -> A -> bool)
      (a : A) (l : list A) :
  Permutation (insert_sorted leb a l) (a :: l).
Proof.
  induction l as [|b l IH]; simpl; [apply Permutation_refl|].
  destruct (leb a b); [apply Permutation_refl|].
  eapply Permutation_trans; [apply perm_skip, IH|apply perm_swap].
Qed.

Lemma sort_values_Permutation {A : Type} (leb : A -> A -> bool) (l : list A) :
  Permutation (sort_values leb l) l.
Proof.
  induction l as [|a l IH]; simpl; [apply perm_nil|].
  eapply Permutation_trans; [apply insert_sorted_Permutation|].
  now apply perm_skip.
Qed.

Lemma filter_Permutation {A : Type} (f : A -> bool) (l l' : list A) :
  Permutation l l' -> Permutation (filter f l) (filter f l').
Proof.
  induction 1 as [|a l l' H IH|a b l|l l' l'' H1 IH1 H2 IH2]; simpl.
  - apply perm_nil.
  - destruct (f a); [now apply perm_skip|exact IH].
  - destruct (f a), (f b); try apply Permutation_refl. apply perm_swap.
  - eapply Permutation_trans; eauto.
Qed.

Lemma ForallOrdPairs_nth {A : Type} (R : A -> A -> Prop) (d : A) (l : list A) :
  ForallOrdPairs R l ->
  forall i j, (i < j)%nat -> (j < List.length l)%nat ->
              R (nth i l d) (nth j l d).
Proof.
  induction 1 as [|a l Ha Hl IH]; intros i j Hij Hj; [simpl in Hj; lia|].
  destruct j as [|j]; [lia|]. simpl in Hj. destruct i as [|i]; simpl.
  - rewrite Forall_forall in Ha. apply Ha, nth_In. lia.
  - apply IH; lia.
Qed.

(** [unique] keeps one time of each class of equal times. *)
Lemma drop_duplicates_from_distinct (seen l : list Q) :
  Forall (fun a => existsb (Qeq_bool a) seen = false)
         (drop_duplicates_from Qeq_bool seen l) /\
  ForallOrdPairs (fun a b => ~ a == b) (drop_duplicates_from Qeq_bool seen l).
Proof.
  revert seen. induction l as [|a l IH]; intros seen; simpl.
  - split; constructor.
  - destruct (existsb (Qeq_bool a) seen) eqn:E; [apply IH|].
    destruct (IH (a :: seen)) as [Hseen Hpairs]. split.
    + constructor; [exact E|].
      eapply Forall_impl; [|exact Hseen].
      intros b Hb. simpl in Hb. apply Bool.orb_false_iff in Hb. apply Hb.
    + constructor; [|exact Hpairs].
      eapply Forall_impl; [|exact Hseen].
      intros b Hb. simpl in Hb. apply Bool.orb_false_iff in Hb.
      destruct Hb as [Hb _]. intros Hab.
      assert (Hba : Qeq_bool b a = true)
        by (apply Qeq_bool_iff; now symmetry).
      congruence.
Qed.

Lemma unique_distinct (ts : list Q) (i j : nat) :
  i <> j -> (i < List.length (Frame.unique ts))%nat ->
  (j < List.length (Frame.unique ts))%nat ->
  Qeq_bool (nth i (Frame.unique ts) 0) (nth j (Frame.unique ts) 0) = false.
Proof.
  intros Hij Hi Hj.
  destruct (drop_duplicates_from_distinct [] ts) as [_ Hp].
  fold (drop_duplicates Qeq_bool ts) in Hp. fold (Frame.unique ts) in Hp.
  destruct (Qeq_bool _ _) eqn:E; [|reflexivity].
  apply Qeq_bool_iff in E. exfalso.
  destruct (Nat.lt_ge_cases i j) as [Hlt|Hge].
  - exact (ForallOrdPairs_nth _ 0 _ Hp i j Hlt Hj E).
  - assert (Hlt : (j < i)%nat) by lia.
    apply (ForallOrdPairs_nth _ 0 _ Hp j i Hlt Hi). now symmetry.
Qed.

Lemma assign_data_times (P : Frame.Row -> Prop) (df : list Frame.Row)
      (s : list (option Q)) :
  (forall r d, P r -> P (Frame.with_data r d)) ->
  Forall P df -> Forall P (Frame.assign_data df s).
Proof.
  intros HP Hdf. unfold Frame.assign_data.
  apply Forall_map, Forall_forall. intros [i r] Hin.
  apply in_combine_r in Hin. rewrite Forall_forall in Hdf.
  apply HP. now apply Hdf.
Qed.

Lemma round_trip_times (P : Frame.Row -> Prop) (l : list Frame.Row) :
  (forall r d, P r -> P (Frame.with_data r d)) ->
  Forall P l -> Forall P (Frame.sub_time (Frame.add_time l)).
Proof.
  intros HP Hl. unfold Frame.sub_time, Frame.add_time.
  apply Forall_map, Forall_map. eapply Forall_impl; [|exact Hl].
  intros r Hr. apply HP, HP, Hr.
Qed.

Section OverlapSlices.
Import Frame.
Variable df_input : list Row.

Lemma at_time_app (a b : list Row) (t : Q) :
  at_time (a ++ b) t = at_time a t ++ at_time b t.
Proof. apply filter_app. Qed.

Lemma at_time_at (df : list Row) (t : Q) :
  Forall (fun r => Qeq_bool (time r) t = true) (at_time df t).
Proof.
  apply Forall_forall. intros r Hr. apply filter_In in Hr. apply Hr.
Qed.


Lemma at_time_other (l : list Row) (t t' : Q) :
  Forall (fun r => Qeq_bool (time r) t' = true) l ->
  Qeq_bool t' t = false -> at_time l t = [].
Proof.
  intros Hl Hne. apply filter_none. eapply Forall_impl; [|exact Hl].
  intros r Hr. cbv beta in *. destruct (Qeq_bool (time r) t) eqn:E;
    [|reflexivity].
  apply Qeq_bool_iff in Hr, E.
  assert (H : Qeq_bool t' t = true)
    by (apply Qeq_bool_iff; rewrite <- Hr; exact E).
  congruence.
Qed.

Lemma times_distinct (i j : nat) :
  i <> j -> (i < List.length (times df_input))%nat ->
  (j < List.length (times df_input))%nat ->
  Qeq_bool (nth i (times df_input) 0) (nth j (times df_input) 0) = false.
Proof. apply unique_distinct. Qed.

Lemma with_data_at (t : Q) (r : Row) (d : option Q) :
  Qeq_bool (time r) t = true -> Qeq_bool (time (with_data r d)) t = true.
Proof. auto. Qed.

(** A pass other than one that finds an overlap at the first pair
    appends a line to the output: the current line with the average of
    its neighbours when it finds an overlap, with its own intensities
    when it finds none. *)
Lemma walk_body_appends (k : nat) (st : WalkState) :
  let df_prevline := at_time (df_output st) (nth (k - 1) (times df_input) 0) in
  let df_curline := at_time df_input (nth k (times df_input) 0) in
  let df_nextline := at_time df_input (nth (k + 1) (times df_input) 0) in
  (k = 1%nat -> check_overlap df_prevline df_curline = false) ->
  exists new,
    df_output (walk_body df_input k st) = df_output st ++ new /\
    Forall (fun r => Qeq_bool (time r) (nth k (times df_input) 0) = true) new /\
    (check_overlap df_prevline df_curline = true ->
     Forall2 row_eq new (neighbour_average df_prevline df_curline df_nextline)) /\
    (check_overlap df_prevline df_curline = false ->
     new = sub_time (add_time df_curline)).
Proof.
  intros df_prevline df_curline df_nextline Hfirst.
  assert (Hcur : Forall (fun r => Qeq_bool (time r) (nth k (times df_input) 0)
                                  = true)
                        (sub_time (add_time df_curline))).
  { apply round_trip_times; [intros r d; apply with_data_at|].
    apply at_time_at. }
  unfold walk_body. fold df_prevline df_curline df_nextline.
  destruct (check_overlap df_prevline df_curline) eqn:Hc.
  - destruct (Nat.eqb_spec k 1) as [Hk|Hk]; [specialize (Hfirst Hk); discriminate|].
    cbn [df_output]. eexists. split; [reflexivity|]. split; [|split].
    + unfold resolve_later. apply assign_data_times; [|exact Hcur].
      intros r d. apply with_data_at.
    + intros _. apply resolve_later_is_average.
    + discriminate.
  - cbn [df_output]. eexists. split; [reflexivity|]. split; [exact Hcur|].
    split; [discriminate|]. reflexivity.
Qed.

(** The pass that finds an overlap at the first pair replaces the output
    by the previous line with the minimum of both intensities. *)
Lemma walk_body_first (st : WalkState) :
  let df_prevline := at_time (df_output st) (nth 0 (times df_input) 0) in
  let df_curline := at_time df_input (nth 1 (times df_input) 0) in
  check_overlap df_prevline df_curline = true ->
  Forall (fun r => Qeq_bool (time r) (nth 0 (times df_input) 0) = true)
         (df_output (walk_body df_input 1 st)) /\
  Forall2 row_eq (df_output (walk_body df_input 1 st))
          (elementwise_min df_prevline df_curline).
Proof.
  intros df_prevline df_curline Hc.
  unfold walk_body. cbn [Nat.sub Nat.eqb].
  fold df_prevline df_curline. rewrite Hc. cbn [df_output]. split.
  - unfold resolve_first. apply assign_data_times;
      [intros r d; apply with_data_at|].
    apply round_trip_times; [intros r d; apply with_data_at|].
    apply at_time_at.
  - apply resolve_first_is_min.
Qed.

Lemma walk_through_step (m : nat) :
  walk_through df_input (seq 1 (S m)) (initial_state df_input)
  = walk_body df_input (S m)
      (walk_through df_input (seq 1 m) (initial_state df_input)).
Proof.
  rewrite seq_S, walk_through_app. reflexivity.
Qed.


(** Every row of the output after [m] passes lies at the depth of one of
    the lines 0 to [m]. *)
Lemma walk_output_times (m : nat) :
  Forall (fun r => exists i, (i <= m)%nat /\
                             Qeq_bool (time r) (nth i (times df_input) 0) = true)
         (df_output (walk_through df_input (seq 1 m) (initial_state df_input))).
Proof.
  induction m as [|m IH].
  - cbn [seq walk_through fold_left initial_state df_output].
    eapply Forall_impl; [|apply at_time_at].
    intros r Hr. exists 0%nat. auto.
  - rewrite walk_through_step.
    set (st := walk_through df_input (seq 1 m) (initial_state df_input)) in *.
    destruct (check_overlap
                (at_time (df_output st) (nth (S m - 1) (times df_input) 0))
                (at_time df_input (nth (S m) (times df_input) 0))) eqn:Hc.
    + destruct m as [|m].
      * destruct (walk_body_first st Hc) as [Ht _].
        eapply Forall_impl; [|exact Ht].
        intros r Hr. exists 0%nat. auto.
      * destruct (walk_body_appends (S (S m)) st) as [new [E [Hn _]]];
          [discriminate|].
        rewrite E. apply Forall_app. split.
        -- eapply Forall_impl; [|exact IH].
           intros r [i [Hi Hr]]. exists i. split; [lia|exact Hr].
        -- eapply Forall_impl; [|exact Hn].
           intros r Hr. exists (S (S m)). auto.
    + destruct (walk_body_appends (S m) st) as [new [E [Hn _]]];
        [intros _; exact Hc|].
      rewrite E. apply Forall_app. split.
      * eapply Forall_impl; [|exact IH].
        intros r [i [Hi Hr]]. exists i. split; [lia|exact Hr].
      * eapply Forall_impl; [|exact Hn].
        intros r Hr. exists (S m). auto.
Qed.

(** The output after [m] passes has no row at the depth of a later
    line. *)
Lemma walk_output_later (m k : nat) :
  (m < k)%nat -> (k < List.length (times df_input))%nat ->
  at_time (df_output (walk_through df_input (seq 1 m) (initial_state df_input)))
          (nth k (times df_input) 0) = [].
Proof.
  intros Hmk Hk. apply filter_none.
  eapply Forall_impl; [|apply walk_output_times].
  intros r [i [Hi Hr]]. cbv beta.
  destruct (Qeq_bool (time r) (nth k (times df_input) 0)) eqn:E;
    [|reflexivity].
  apply Qeq_bool_iff in Hr, E.
  pose proof (times_distinct i k ltac:(lia) ltac:(lia) Hk) as Hd.
  assert (H : Qeq_bool (nth i (times df_input) 0) (nth k (times df_input) 0)
              = true) by (apply Qeq_bool_iff; rewrite <- Hr; exact E).
  congruence.
Qed.

(** From the second pass on, a pass leaves the lines of the output at
    the earlier depths as they are. *)
Lemma walk_output_stable (k m d : nat) :
  (k <= m)%nat -> (1 <= m)%nat ->
  (m + d < List.length (times df_input))%nat ->
  at_time (df_output (walk_through df_input (seq 1 (m + d))
                                   (initial_state df_input)))
          (nth k (times df_input) 0)
  = at_time (df_output (walk_through df_input (seq 1 m)
                                     (initial_state df_input)))
            (nth k (times df_input) 0).
Proof.
  intros Hk Hm. induction d as [|d IH]; intros Hd.
  - now rewrite Nat.add_0_r.
  - replace (m + S d)%nat with (S (m + d)) by lia.
    rewrite walk_through_step.
    destruct (walk_body_appends (S (m + d))
                (walk_through df_input (seq 1 (m + d)) (initial_state df_input)))
      as [new [E [Hn _]]]; [lia|].
    rewrite E, at_time_app, IH by lia.
    rewrite (at_time_other new _ _ Hn); [apply app_nil_r|].
    apply times_distinct; lia.
Qed.



(** The table that is returned, depth by depth: the output of the walk
    and the line read ahead by its last pass. *)
Lemma returned_slices (out : list Row) :
  detectOverwriteOverlap df_input = Returned out ->
  let n := List.length (times df_input) in
  (3 <= n)%nat /\
  forall t,
    Permutation
      (at_time out t)
      (at_time (df_output (walk_through df_input (seq 1 (n - 2))
                                        (initial_state df_input))) t ++
       at_time (input_line df_input (n - 1)) t).
Proof.
  intros H n. apply detectOverwriteOverlap_returned in H.
  destruct H as [nextline [Hnext ->]].
  change (counter_lines df_input) with (seq 1 (n - 2)) in *.
  rewrite walk_through_nextline in Hnext.
  destruct (n - 2)%nat as [|m] eqn:Em; [discriminate|].
  injection Hnext as <-. split; [lia|]. intros t.
  replace (n - 1)%nat with (S m + 1)%nat by lia.
  unfold input_line. rewrite <- at_time_app.
  apply filter_Permutation, sort_values_Permutation.
Qed.

(** The slices of the returned table at the depths of the lines the walk
    went through are those of its output. *)
Lemma returned_slice_walk (out : list Row) (k : nat) :
  detectOverwriteOverlap df_input = Returned out ->
  (k <= List.length (times df_input) - 2)%nat ->
  Permutation
    (at_time out (nth k (times df_input) 0))
    (at_time (df_output (walk_through df_input
                           (seq 1 (List.length (times df_input) - 2))
                           (initial_state df_input)))
             (nth k (times df_input) 0)).
Proof.
  intros H Hk. destruct (returned_slices out H) as [Hn Hp].
  cbv zeta in Hp. specialize (Hp (nth k (times df_input) 0)).
  unfold input_line in Hp.
  rewrite (at_time_other (at_time df_input _) _ _ (at_time_at _ _)) in Hp
    by (apply times_distinct; lia).
  now rewrite app_nil_r in Hp.
Qed.

(** The last line comes back as it came in. *)
Lemma returned_last_slice (out : list Row) :
  detectOverwriteOverlap df_input = Returned out ->
  Permutation
    (at_time out (nth (List.length (times df_input) - 1) (times df_input) 0))
    (input_line df_input (List.length (times df_input) - 1)).
Proof.
  intros H. destruct (returned_slices out H) as [Hn Hp].
  cbv zeta in Hp.
  specialize (Hp (nth (List.length (times df_input) - 1) (times df_input) 0)).
  rewrite walk_output_later in Hp by lia.
  unfold input_line in *. cbn [app] in Hp.
  assert (E : forall t, at_time (at_time df_input t) t = at_time df_input t)
    by (intros t; apply filter_twice).
  now rewrite E in Hp.
Qed.

(** The line at the depth of line [k], from the pass for line [k] on. *)
Lemma returned_slice_pass (out : list Row) (k : nat) :
  detectOverwriteOverlap df_input = Returned out ->
  (1 <= k <= List.length (times df_input) - 2)%nat ->
  Permutation
    (at_time out (nth k (times df_input) 0))
    (at_time (df_output (walk_through df_input (seq 1 k)
                                      (initial_state df_input)))
             (nth k (times df_input) 0)).
Proof.
  intros H Hk. destruct (returned_slices out H) as [Hn _].
  eapply Permutation_trans; [apply (returned_slice_walk out k H); lia|].
  replace (List.length (times df_input) - 2)%nat
    with (k + (List.length (times df_input) - 2 - k))%nat by lia.
  rewrite walk_output_stable by lia. apply Permutation_refl.
Qed.


(** The previous line of a pass after the first is the line that the
    returned table holds at that depth. *)
Lemma previous_line_in_output (out : list Row) (k : nat) :
  detectOverwriteOverlap df_input = Returned out ->
  (2 <= k <= List.length (times df_input) - 2)%nat ->
  Permutation (previous_line df_input k)
              (at_time out (nth (k - 1) (times df_input) 0)).
Proof.
  intros H Hk. apply Permutation_sym.
  apply (returned_slice_pass out (k - 1) H). lia.
Qed.

(** The depths reported along lines taken in increasing order. *)
Lemma reported_sorted (f : nat -> bool) (m : nat) :
  StronglySorted Qlt (times df_input) ->
  forall a, (a + m <= List.length (times df_input))%nat ->
            StronglySorted Qlt
              (map (fun k => nth k (times df_input) 0) (filter f (seq a m))).
Proof.
  intros Hs. induction m as [|m IH]; intros a Ha; [constructor|].
  cbn [seq filter]. destruct (f a).
  - cbn [map]. constructor; [apply IH; lia|].
    apply Forall_map, Forall_forall. intros k Hk.
    apply filter_In in Hk. destruct Hk as [Hk _]. apply in_seq in Hk.
    apply StronglySorted_nth; [exact Hs|lia].
  - apply IH. lia.
Qed.

(** C4 (as amended): for a table with its depths in increasing order that
    the resolver returns.  The passes report, in increasing order of
    depth, exactly the lines [k] from 1 to [n - 2] whose test succeeds.
    For two lines with the same cells and numeric intensities the test
    succeeds exactly when some cell of the current line, raised by its
    depth, lies strictly below the same cell of the previous line.  The
    previous line of the first pass is line 0 of the table; that of a
    later pass is the line the returned table holds at that depth.  The
    last line is never the current line: it comes back as it came in
    and its depth is never reported. *)
Theorem overlap_walk_examines_all_but_last_pair
        (out : list Row)
        (Hsorted : StronglySorted Qlt (times df_input))
        (H : detectOverwriteOverlap df_input = Returned out) :
  let n := List.length (times df_input) in
  let depth := fun k => nth k (times df_input) 0 in
  let reported :=
    printed (walk_through df_input (counter_lines df_input)
                          (initial_state df_input)) in
  reported = map depth (filter (overlap_at df_input) (seq 1 (n - 2))) /\
  StronglySorted Qlt reported /\
  (forall k, (1 <= k <= n - 2)%nat ->
             aligned (previous_line df_input k) (input_line df_input k) ->
             (overlap_at df_input k = true <->
              exists i p c a b,
                nth_error (previous_line df_input k) i = Some p /\
                nth_error (input_line df_input k) i = Some c /\
                data p = Some a /\ data c = Some b /\
                b + time c < a + time p)) /\
  previous_line df_input 1 = input_line df_input 0 /\
  (forall k, (2 <= k <= n - 2)%nat ->
             Permutation (previous_line df_input k)
                         (at_time out (depth (k - 1)%nat))) /\
  Permutation (at_time out (depth (n - 1)%nat))
              (input_line df_input (n - 1)) /\
  ~ In (depth (n - 1)%nat) reported.
Proof.
  intros n depth reported.
  destruct (returned_slices out H) as [Hn _]. fold n in Hn.
  assert (Hrep : reported
                 = map depth (filter (overlap_at df_input) (seq 1 (n - 2))))
    by apply walk_through_printed.
  split; [exact Hrep|]. split; [|split; [|split; [|split; [|split]]]].
  - rewrite Hrep. apply reported_sorted; [exact Hsorted|]. fold n. lia.
  - intros k Hk [Hlen Hdata]. apply check_overlap_aligned; assumption.
  - unfold previous_line, input_line. cbn [Nat.sub seq walk_through fold_left].
    apply first_pass_previous_line.
  - intros k Hk. now apply previous_line_in_output.
  - now apply returned_last_slice.
  - rewrite Hrep. intros Hin. apply in_map_iff in Hin.
    destruct Hin as [k [Ek Hk]]. apply filter_In in Hk.
    destruct Hk as [Hk _]. apply in_seq in Hk.
    pose proof (times_distinct k (n - 1) ltac:(lia) ltac:(fold n; lia)
                               ltac:(fold n; lia)) as Hd.
    unfold depth in Ek. rewrite Ek in Hd.
    rewrite Qeq_bool_refl in Hd. discriminate.
Qed.

End OverlapSlices.

(** Four lines with heights 0, 6, 2, 3 and depths 0 to 3: the pass for
    line 2 reports the one overlap, and line 3 comes back as it came
    in. *)
Lemma overlap_walk_examines_all_but_last_pair_witness :
  exists out,
    Frame.detectOverwriteOverlap example_quarter = Returned out /\
    Frame.printed
      (Frame.walk_through example_quarter (Frame.counter_lines example_quarter)
                          (Frame.initial_state example_quarter))
    = map (fun k => nth k (Frame.times example_quarter) 0)
          (filter (Frame.overlap_at example_quarter) (seq 1 2)) /\
    Permutation (Frame.at_time out (nth 3 (Frame.times example_quarter) 0))
                (Frame.input_line example_quarter 3).
Proof.
  assert (Hs : StronglySorted Qlt (Frame.times example_quarter)).
  { vm_compute.
    repeat first [ apply SSorted_nil | apply SSorted_cons | apply Forall_nil
                 | apply Forall_cons | reflexivity ]. }
  eexists. split; [vm_compute; reflexivity|].
  pose proof (overlap_walk_examines_all_but_last_pair
                example_quarter _ Hs ltac:(vm_compute; reflexivity)) as W.
  cbv zeta in W. destruct W as [W1 [_ [_ [_ [_ [W6 _]]]]]].
  split; [exact W1|exact W6].
Defined.


(** C3 (as stated) fails where it speaks of the share of inverted
    adjacent pairs of the input.  On five lines with one inverted pair of
    four (exactly 25 %) the average written at line 2 makes line 3 overlap
    as well, and the run is aborted with 2 overlaps for 5 lines.  On eight
    lines with two inverted pairs of seven (over 25 %) two overlaps are
    found, 2 / 8 is not above 0.25, and the walk completes. *)
Lemma overlap_pair_share_is_not_the_ratio :
  (4 * List.length (Frame.inverted_pairs example_cascade) =
   List.length (Frame.times example_cascade) - 1)%nat /\
  Frame.detectOverwriteOverlap example_cascade = SysExit 2 5 /\
  List.length (Frame.inverted_pairs example_eight) = 2%nat /\
  (List.length (Frame.times example_eight) - 1 = 7)%nat /\
  Frame.counter_overlap
    (Frame.walk_through example_eight (Frame.counter_lines example_eight)
                        (Frame.initial_state example_eight)) = 2%Z /\
  exists out, Frame.detectOverwriteOverlap example_eight = Returned out.
Proof.
  repeat split; try (vm_compute; reflexivity).
  eexists. vm_compute. reflexivity.
Qed.

(* ================================================================== *)
(** * Part II, continued: properties of the rest of the pipeline *)
(* ================================================================== *)

(** ** Seed layer *)

Lemma Qceiling_nonpos (q : Q) : q <= 0 -> (Qceiling q <= 0)%Z.
Proof.
  intros H. pose proof (Qceiling_lt q) as Hc.
  assert (Hlt : inject_Z (Qceiling q - 1) < inject_Z 0).
  { eapply Qlt_le_trans; [exact Hc|exact H]. }
  rewrite <- Zlt_Qlt in Hlt. lia.
Qed.

Lemma Qfloor_nonneg (q : Q) : 0 <= q -> (0 <= Qfloor q)%Z.
Proof.
  intros H. pose proof (Qlt_floor q) as Hf.
  assert (Hlt : inject_Z 0 < inject_Z (Qfloor q + 1)).
  { eapply Qle_lt_trans; [exact H|exact Hf]. }
  rewrite <- Zlt_Qlt in Hlt. lia.
Qed.

(** [int()] never decreases when its argument grows. *)
Lemma py_int_mono (p q : Q) : p <= q -> (py_int p <= py_int q)%Z.
Proof.
  intros H. unfold py_int.
  destruct (Qle_bool 0 p) eqn:Ep; destruct (Qle_bool 0 q) eqn:Eq.
  - now apply Qfloor_resp_le.
  - apply Qle_bool_iff in Ep.
    assert (Hq : 0 <= q) by (eapply Qle_trans; eauto).
    apply Qle_bool_iff in Hq. congruence.
  - assert (Hp : p <= 0).
    { apply Qlt_le_weak. apply Qnot_le_lt. intros Hle.
      apply Qle_bool_iff in Hle. congruence. }
    apply Qle_bool_iff in Eq.
    pose proof (Qceiling_nonpos p Hp). pose proof (Qfloor_nonneg q Eq). lia.
  - now apply Qceiling_resp_le.
Qed.

Lemma clamp_pct_bounds (pct : Q) :
  0 <= pct ->
  0 <= (if negb (Qle_bool pct 100) then 100 else pct) <= 100.
Proof.
  intros H. destruct (Qle_bool pct 100) eqn:E; simpl.
  - apply Qle_bool_iff in E. split; assumption.
  - split; discriminate.
Qed.

Lemma convert_pct_to_real_layer_range_core (pct : Q) (max_layers : Z) :
  (2 <= max_layers)%Z -> 0 <= pct ->
  (1 <= convert_pct_to_real_layer pct max_layers <= max_layers - 1)%Z.
Proof.
  intros Hm Hp. unfold convert_pct_to_real_layer.
  destruct (clamp_pct_bounds pct Hp) as [H0 H100].
  set (p := if negb (Qle_bool pct 100) then 100 else pct) in *.
  assert (Hm2 : 0 <= inject_Z (max_layers - 2)).
  { change 0 with (inject_Z 0). rewrite <- Zle_Qle. lia. }
  assert (Hlo : 0 <= inject_Z (max_layers - 2) * p / 100).
  { apply Qle_shift_div_l; [reflexivity|]. rewrite Qmult_0_l.
    now apply Qmult_le_0_compat. }
  assert (Hhi : inject_Z (max_layers - 2) * p / 100 <= inject_Z (max_layers - 2)).
  { apply Qle_shift_div_r; [reflexivity|].
    rewrite !(Qmult_comm (inject_Z (max_layers - 2))).
    now apply Qmult_le_compat_r. }
  rewrite (py_int_nonneg _ Hlo).
  pose proof (Qfloor_nonneg _ Hlo) as Hf0.
  pose proof (Qfloor_resp_le _ _ Hhi) as Hf1. rewrite Qfloor_Z in Hf1.
  lia.
Qed.

(** X1: The seed percentage is mapped into the layers [1 .. max_layers - 1]:
    0 gives layer 1, and 100 or more gives layer [max_layers - 1]. *)
Theorem convert_pct_to_real_layer_range (pct : Q) (max_layers : Z) :
  (2 <= max_layers)%Z -> 0 <= pct ->
  (1 <= convert_pct_to_real_layer pct max_layers <= max_layers - 1)%Z /\
  convert_pct_to_real_layer 0 max_layers = 1%Z /\
  (100 <= pct -> convert_pct_to_real_layer pct max_layers = (max_layers - 1)%Z).
Proof.
  intros Hm Hp. split; [now apply convert_pct_to_real_layer_range_core|].
  split.
  - unfold convert_pct_to_real_layer. simpl negb. cbv iota.
    assert (E : inject_Z (max_layers - 2) * 0 / 100 == inject_Z 0)
      by (unfold Qdiv; ring).
    rewrite (py_int_comp _ _ E), py_int_inject. reflexivity.
  - intros H100. unfold convert_pct_to_real_layer.
    assert (E : inject_Z (max_layers - 2) *
                (if negb (Qle_bool pct 100) then 100 else pct) / 100
                == inject_Z (max_layers - 2)).
    { destruct (Qle_bool pct 100) eqn:El; simpl.
      - apply Qle_bool_iff in El.
        assert (Heq : pct == 100) by (apply Qle_antisym; assumption).
        rewrite Heq. field.
      - field. }
    rewrite (py_int_comp _ _ E), py_int_inject. lia.
Qed.

Lemma convert_pct_to_real_layer_range_witness :
  (1 <= convert_pct_to_real_layer 50 167 <= 167 - 1)%Z /\
  convert_pct_to_real_layer 0 167 = 1%Z /\
  (100 <= 50 -> convert_pct_to_real_layer 50 167 = (167 - 1)%Z).
Proof.
  apply (convert_pct_to_real_layer_range 50 167); [lia|discriminate].
Defined.

(** X2: A larger seed percentage never gives a lower layer. *)
Theorem convert_pct_to_real_layer_mono (p q : Q) (max_layers : Z) :
  (2 <= max_layers)%Z -> p <= q ->
  (convert_pct_to_real_layer p max_layers <=
   convert_pct_to_real_layer q max_layers)%Z.
Proof.
  intros Hm Hpq. unfold convert_pct_to_real_layer.
  assert (Hclamp : (if negb (Qle_bool p 100) then 100 else p) <=
                   (if negb (Qle_bool q 100) then 100 else q)).
  { destruct (Qle_bool p 100) eqn:Ep; destruct (Qle_bool q 100) eqn:Eq; simpl.
    - exact Hpq.
    - now apply Qle_bool_iff.
    - apply Qle_bool_iff in Eq.
      assert (Hp : p <= 100) by (eapply Qle_trans; eauto).
      apply Qle_bool_iff in Hp. congruence.
    - apply Qle_refl. }
  assert (Hm2 : 0 <= inject_Z (max_layers - 2)).
  { change 0 with (inject_Z 0). rewrite <- Zle_Qle. lia. }
  apply Z.add_le_mono_l. apply py_int_mono.
  apply Qmult_le_compat_r; [|discriminate].
  rewrite !(Qmult_comm (inject_Z (max_layers - 2))).
  now apply Qmult_le_compat_r.
Qed.

Lemma convert_pct_to_real_layer_mono_witness :
  (convert_pct_to_real_layer 25 167 <= convert_pct_to_real_layer 75 167)%Z.
Proof.
  apply (convert_pct_to_real_layer_mono 25 75 167); [lia|discriminate].
Defined.

(** ** Rolling an image *)

Lemma np_roll_cons {A : Type} (shift : Z) (l : list A) :
  l <> [] ->
  np_roll shift l =
  skipn (List.length l - Z.to_nat (shift mod Z.of_nat (List.length l))) l ++
  firstn (List.length l - Z.to_nat (shift mod Z.of_nat (List.length l))) l.
Proof. destruct l; [contradiction|reflexivity]. Qed.

Lemma np_roll_length {A : Type} (shift : Z) (l : list A) :
  List.length (np_roll shift l) = List.length l.
Proof.
  destruct l as [|a l]; [reflexivity|].
  rewrite np_roll_cons by discriminate.
  rewrite length_app, length_skipn, length_firstn. lia.
Qed.

Lemma np_roll_map {A B : Type} (f : A -> B) (shift : Z) (l : list A) :
  np_roll shift (map f l) = map f (np_roll shift l).
Proof.
  destruct l as [|a l]; [reflexivity|].
  rewrite (np_roll_cons shift (a :: l)) by discriminate.
  rewrite (np_roll_cons shift (map f (a :: l))) by discriminate.
  rewrite length_map, map_app, skipn_map, firstn_map. reflexivity.
Qed.

Lemma np_roll_Forall {A : Type} (P : A -> Prop) (shift : Z) (l : list A) :
  Forall P l -> Forall P (np_roll shift l).
Proof.
  intros H. destruct l as [|a l]; [constructor|].
  rewrite np_roll_cons by discriminate.
  set (k := (List.length (a :: l) -
             Z.to_nat (shift mod Z.of_nat (List.length (a :: l))))%nat).
  rewrite <- (firstn_skipn k (a :: l)) in H.
  apply Forall_app in H. destruct H as [H1 H2].
  apply Forall_app. split; assumption.
Qed.

(** Rolling back by the opposite shift restores the list. *)
Lemma np_roll_inverse {A : Type} (shift : Z) (l : list A) :
  np_roll (- shift) (np_roll shift l) = l.
Proof.
  destruct l as [|a0 l0]; [reflexivity|].
  set (l := a0 :: l0). set (n := List.length l).
  assert (Hn : (0 < n)%nat) by (unfold n, l; simpl; lia).
  assert (Hk := Z.mod_pos_bound shift (Z.of_nat n) ltac:(lia)).
  assert (Hne : np_roll shift l <> []).
  { intros E. apply (f_equal (@List.length A)) in E.
    rewrite np_roll_length in E. fold n in E. simpl in E. lia. }
  rewrite (np_roll_cons (- shift) _ Hne). rewrite np_roll_length. fold n.
  rewrite (np_roll_cons shift l) by discriminate. fold n.
  destruct (Z.eq_dec (shift mod Z.of_nat n) 0) as [E|E].
  - rewrite (Z_mod_zero_opp_full shift (Z.of_nat n) E).
    rewrite E. simpl Z.to_nat. rewrite Nat.sub_0_r.
    assert (Hs : skipn n l = []) by (unfold n; apply skipn_all).
    assert (Hf : firstn n l = l) by (unfold n; apply firstn_all).
    rewrite Hs, Hf. change ([] ++ l) with l. rewrite Hs, Hf. reflexivity.
  - rewrite (Z_mod_nz_opp_full shift (Z.of_nat n) E).
    set (k := Z.to_nat (shift mod Z.of_nat n)).
    assert (Hk' : (0 < k < n)%nat) by (unfold k; lia).
    replace (n - Z.to_nat (Z.of_nat n - shift mod Z.of_nat n))%nat with k
      by (unfold k; lia).
    assert (Hlen : List.length (skipn (n - k) l) = k).
    { rewrite length_skipn. fold n. lia. }
    rewrite skipn_app, firstn_app, Hlen, Nat.sub_diag.
    rewrite <- Hlen at 1. rewrite skipn_all.
    rewrite <- Hlen at 2. rewrite firstn_all.
    cbn [skipn firstn app]. rewrite app_nil_r. apply firstn_skipn.
Qed.

(** X3: Shifting an image and shifting it back by the opposite amounts gives
    the image again. *)
Theorem image_shift_roll_inverse (img : image) (x_roll y_roll : Z) :
  image_shift_roll (image_shift_roll img x_roll y_roll) (- x_roll) (- y_roll)
  = img.
Proof.
  unfold image_shift_roll.
  rewrite np_roll_map, np_roll_inverse, map_map.
  rewrite <- (map_id img) at 2. apply map_ext.
  intros row. apply np_roll_inverse.
Qed.

(** ** Diffusion Simulator: range of the intensities *)

Lemma pointwise_map {A B : Type} (R : B -> A -> Prop) (f : A -> B) (l : list A) :
  (forall a, R (f a) a) -> pointwise R (map f l) l.
Proof.
  intros H i x Hx. rewrite nth_error_map in Hx.
  destruct (nth_error l i) as [a|]; [|discriminate].
  injection Hx as <-. eauto.
Qed.

Lemma nth_error_map2_inv {A B C : Type} (f : A -> B -> C) (l1 : list A) :
  forall (l2 : list B) (i : nat) (c : C),
    nth_error (map2 f l1 l2) i = Some c ->
    exists a b, nth_error l1 i = Some a /\ nth_error l2 i = Some b /\ c = f a b.
Proof.
  induction l1 as [|a1 l1 IH]; intros [|b1 l2] [|i] c H; simpl in *;
    try discriminate.
  - injection H as <-. eauto.
  - now apply IH.
Qed.

Lemma Forall_nth_error {A : Type} (P : A -> Prop) (l : list A) (i : nat) (a : A) :
  Forall P l -> nth_error l i = Some a -> P a.
Proof.
  intros H Hn. rewrite Forall_forall in H. apply H. eapply nth_error_In, Hn.
Qed.

Lemma Forall_of_nth_error {A : Type} (P : A -> Prop) (l : list A) :
  (forall i a, nth_error l i = Some a -> P a) -> Forall P l.
Proof.
  intros H. apply Forall_forall. intros a Ha.
  apply In_nth_error in Ha. destruct Ha as [i Hi]. eauto.
Qed.

(** [map2 f s a] against [u], when [a] is related to [u] and [s] is
    constrained on its own. *)
Lemma pointwise_map2_left {S A U C : Type}
      (P : S -> Prop) (R : A -> U -> Prop) (R' : C -> U -> Prop)
      (f : S -> A -> C) (s : list S) (a : list A) (u : list U) :
  (forall x y z, P x -> R y z -> R' (f x y) z) ->
  Forall P s -> pointwise R a u -> pointwise R' (map2 f s a) u.
Proof.
  intros Hf Hs Ha i c Hc.
  apply nth_error_map2_inv in Hc. destruct Hc as [x [y [Hx [Hy ->]]]].
  destruct (Ha i y Hy) as [z [Hz Hr]].
  exists z. split; [exact Hz|].
  apply Hf; [|exact Hr]. eapply Forall_nth_error; eauto.
Qed.

(** [map2 f t u] against [u] itself, when [t] is related to [u]. *)
Lemma pointwise_map2_self {T U C : Type}
      (R : T -> U -> Prop) (R' : C -> U -> Prop)
      (f : T -> U -> C) (t : list T) (u : list U) :
  (forall x z, R x z -> R' (f x z) z) ->
  pointwise R t u -> pointwise R' (map2 f t u) u.
Proof.
  intros Hf Ht i c Hc.
  apply nth_error_map2_inv in Hc. destruct Hc as [x [z [Hx [Hz ->]]]].
  destruct (Ht i x Hx) as [z' [Hz' Hr]].
  assert (z' = z) by congruence. subst z'.
  exists z. split; [exact Hz|]. now apply Hf.
Qed.

Lemma pointwise_map_left {T U C : Type}
      (R : T -> U -> Prop) (R' : C -> U -> Prop)
      (f : T -> C) (t : list T) (u : list U) :
  (forall x z, R x z -> R' (f x) z) ->
  pointwise R t u -> pointwise R' (map f t) u.
Proof.
  intros Hf Ht i c Hc. rewrite nth_error_map in Hc.
  destruct (nth_error t i) as [x|] eqn:Ex; [|discriminate].
  injection Hc as <-. destruct (Ht i x Ex) as [z [Hz Hr]].
  exists z. split; [exact Hz|]. now apply Hf.
Qed.

Lemma Forall_map2 {A B C : Type} (P : A -> Prop) (Q : B -> Prop) (R : C -> Prop)
      (f : A -> B -> C) (l1 : list A) (l2 : list B) :
  (forall a b, P a -> Q b -> R (f a b)) ->
  Forall P l1 -> Forall Q l2 -> Forall R (map2 f l1 l2).
Proof.
  intros Hf H1 H2. apply Forall_of_nth_error. intros i c Hc.
  apply nth_error_map2_inv in Hc. destruct Hc as [a [b [Ha [Hb ->]]]].
  apply Hf; eapply Forall_nth_error; eauto.
Qed.

Lemma image_shift_roll_within (lo hi : Q) (img : image) (x_roll y_roll : Z) :
  img_within lo hi img -> img_within lo hi (image_shift_roll img x_roll y_roll).
Proof.
  unfold img_within, image_shift_roll. intros H.
  apply Forall_map. apply np_roll_Forall.
  eapply Forall_impl; [|exact H].
  intros row Hrow. now apply np_roll_Forall.
Qed.

Lemma img_add_within (l1 h1 l2 h2 : Q) (a b : image) :
  img_within l1 h1 a -> img_within l2 h2 b ->
  img_within (l1 + l2) (h1 + h2) (img_add a b).
Proof.
  unfold img_within, img_add. apply Forall_map2.
  intros r1 r2. apply Forall_map2. intros x y Hx Hy. lra.
Qed.

(** Each cell of the update is [gamma * (s - 4 u) + u], with [u] the old
    value of the cell and [s] a sum of four old values. *)
Lemma stencil_pointwise (g lo hi : Q) (uk : image) :
  img_within lo hi uk ->
  pointwise
    (pointwise (fun r u => exists s, 4 * lo <= s <= 4 * hi /\
                                     r = g * (s - 4 * u) + u))
    (stencil g uk) uk.
Proof.
  intros Hw. unfold stencil.
  set (s4 := img_add _ (image_shift_roll uk 0 (-1))).
  assert (Hs4 : img_within (4 * lo) (4 * hi) s4).
  { unfold s4.
    assert (Hr := image_shift_roll_within lo hi uk).
    pose proof (img_add_within _ _ _ _ _ _
                  (img_add_within _ _ _ _ _ _
                     (img_add_within _ _ _ _ _ _ (Hr 1%Z 0%Z Hw) (Hr (-1)%Z 0%Z Hw))
                     (Hr 0%Z 1%Z Hw))
                  (Hr 0%Z (-1)%Z Hw)) as H.
    unfold img_within in *. eapply Forall_impl; [|exact H].
    intros row Hrow. eapply Forall_impl; [|exact Hrow].
    intros v Hv. simpl in Hv. lra. }
  unfold img_add at 1, img_scale at 1, img_sub.
  apply (pointwise_map2_self
           (pointwise (fun t u => exists s, 4 * lo <= s <= 4 * hi /\
                                            t = g * (s - 4 * u)))).
  - intros rt ru. apply pointwise_map2_self.
    intros t u [s [Hs ->]]. eauto.
  - apply (pointwise_map_left
             (pointwise (fun t u => exists s, 4 * lo <= s <= 4 * hi /\
                                              t = s - 4 * u))).
    + intros rt ru. apply pointwise_map_left.
      intros t u [s [Hs ->]]. eauto.
    + apply (pointwise_map2_left
               (Forall (fun s => 4 * lo <= s <= 4 * hi))
               (pointwise (fun t u => t = 4 * u))).
      * intros rs rt ru Hrs.
        apply (pointwise_map2_left (fun s => 4 * lo <= s <= 4 * hi)
                                   (fun t u => t = 4 * u)).
        -- intros s t u Hs ->. eauto.
        -- exact Hrs.
      * exact Hs4.
      * unfold img_scale. apply pointwise_map.
        intros row. apply pointwise_map. reflexivity.
Qed.

(** With [gamma = 1/4] a cell of the update is the mean of four old
    cells, so the update stays within the range of the old image. *)
Lemma stencil_within (g lo hi : Q) (uk : image) :
  g == 1 # 4 -> img_within lo hi uk -> img_within lo hi (stencil g uk).
Proof.
  intros Hg Hw. pose proof (stencil_pointwise g lo hi uk Hw) as Hp.
  unfold img_within. apply Forall_of_nth_error. intros i row Hrow.
  destruct (Hp i row Hrow) as [urow [_ Hr]].
  apply Forall_of_nth_error. intros j r Hrj.
  destruct (Hr j r Hrj) as [u [_ [s [Hs ->]]]].
  assert (E : g * (s - 4 * u) + u == s / 4) by (rewrite Hg; field).
  rewrite E. split.
  - apply Qle_shift_div_l; [reflexivity|]. lra.
  - apply Qle_shift_div_r; [reflexivity|]. lra.
Qed.

Lemma Forall_list_set {A : Type} (P : A -> Prop) (i : nat) (v : A) (l : list A) :
  P v -> Forall P l -> Forall P (list_set i v l).
Proof.
  intros Hv H. revert i.
  induction H as [|a l Ha Hl IH]; intros [|i]; simpl; constructor; auto.
Qed.

Lemma length_list_set {A : Type} (i : nat) (v : A) (l : list A) :
  List.length (list_set i v l) = List.length l.
Proof.
  revert i. induction l as [|a l IH]; intros [|i]; simpl; auto.
Qed.

Lemma zero_column_within (lo hi : Q) (j : nat) (u : list image) :
  lo <= 0 <= hi -> grid_within lo hi u -> grid_within lo hi (zero_column j u).
Proof.
  intros H0 Hu. unfold grid_within, zero_column, img_within in *.
  apply Forall_map. eapply Forall_impl; [|exact Hu].
  intros img Himg. apply Forall_map. eapply Forall_impl; [|exact Himg].
  intros row Hrow. now apply Forall_list_set.
Qed.

Lemma zero_row_within (lo hi : Q) (i : nat) (u : list image) :
  lo <= 0 <= hi -> grid_within lo hi u -> grid_within lo hi (zero_row i u).
Proof.
  intros H0 Hu. unfold grid_within, zero_row, img_within in *.
  apply Forall_map. eapply Forall_impl; [|exact Hu].
  intros img Himg. destruct (nth_error img i) as [row|] eqn:E; [|exact Himg].
  apply Forall_list_set; [|exact Himg].
  apply Forall_map. apply Forall_forall. intros; exact H0.
Qed.

Lemma zero_cell_within (lo hi : Q) (i j : nat) (u : list image) :
  lo <= 0 <= hi -> grid_within lo hi u -> grid_within lo hi (zero_cell i j u).
Proof.
  intros H0 Hu. unfold grid_within, zero_cell, img_within in *.
  apply Forall_map. eapply Forall_impl; [|exact Hu].
  intros img Himg. destruct (nth_error img i) as [row|] eqn:E; [|exact Himg].
  apply Forall_list_set; [|exact Himg].
  apply Forall_list_set; [exact H0|].
  eapply Forall_nth_error; eauto.
Qed.

Lemma heat_sink_within (lo hi : Q) (i j : nat) (u : list image) :
  lo <= 0 <= hi -> grid_within lo hi u -> grid_within lo hi (heat_sink i j u).
Proof.
  intros H0 Hu. unfold heat_sink.
  now apply zero_column_within, zero_cell_within, zero_row_within,
    zero_column_within.
Qed.

Lemma calculate2D_step_within
      (g lo hi : Q) (nx ny : Z) (k : nat) (u u' : list image) :
  g == 1 # 4 -> lo <= 0 <= hi -> grid_within lo hi u ->
  calculate2D_step g nx ny k u = Returned u' -> grid_within lo hi u'.
Proof.
  intros Hg H0 Hu H. apply calculate2D_step_Returned in H.
  destruct H as [uk [i [j [Ek [_ [_ [_ [_ [_ ->]]]]]]]]].
  apply heat_sink_within; [exact H0|].
  apply (Forall_list_set _ (S k)); [|exact Hu].
  apply stencil_within; [exact Hg|].
  eapply Forall_nth_error; eauto.
Qed.

Lemma calculate2D_loop_within
      (g lo hi : Q) (nx ny : Z) (ks : list nat) (u u' : list image) :
  g == 1 # 4 -> lo <= 0 <= hi -> grid_within lo hi u ->
  calculate2D_loop g nx ny ks u = Returned u' -> grid_within lo hi u'.
Proof.
  intros Hg H0. revert u. induction ks as [|k ks IH]; intros u Hu H; simpl in H.
  - now injection H as <-.
  - destruct (calculate2D_step g nx ny k u) as [u1| | |] eqn:E;
      try discriminate.
    apply (IH u1); [|exact H].
    eapply calculate2D_step_within; eauto.
Qed.

(** X4: With the stable [gamma = 1/4], the simulation never leaves a range
    [[lo, hi]] around 0 that holds the array it is given: no cell at any
    time step overshoots the extremes of the input. *)
Theorem calculate2D_stays_within
        (g lo hi : Q) (m nx ny : Z) (u u' : list image)
        (Hg : g == 1 # 4) (H0 : lo <= 0 <= hi)
        (Hu : grid_within lo hi u)
        (H : calculate2D g m nx ny u = Returned u') :
  grid_within lo hi u'.
Proof.
  unfold calculate2D in H. eapply calculate2D_loop_within; eauto.
Qed.

(** A concrete run: the 3 x 3 example with two time steps. *)
Lemma calculate2D_stays_within_witness :
  exists u', calculate2D (1 # 4) 2 3 3 example_u = Returned u' /\
             grid_within 0 4 u'.
Proof.
  eexists. split; [vm_compute; reflexivity|].
  eapply (calculate2D_stays_within (1 # 4) 0 4 2 3 3 example_u).
  - reflexivity.
  - split; discriminate.
  - repeat constructor; discriminate.
  - vm_compute; reflexivity.
Defined.

(** ** Extent of the simulation grid *)

Lemma Nx_nonneg (max_x : Z) (delta_x : Q) :
  0 < delta_x -> (0 <= max_x)%Z -> (0 <= Nx max_x delta_x)%Z.
Proof.
  intros Hd Hm. unfold Nx, math_ceil.
  assert (H : 0 <= inject_Z max_x / delta_x).
  { apply Qle_shift_div_l; [exact Hd|].
    rewrite Qmult_0_l. change 0 with (inject_Z 0). now rewrite <- Zle_Qle. }
  pose proof (Qle_ceiling (inject_Z max_x / delta_x)) as Hc.
  assert (H0 : inject_Z 0 <= inject_Z (Qceiling (inject_Z max_x / delta_x)))
    by (change (inject_Z 0) with 0; lra).
  now rewrite <- Zle_Qle in H0.
Qed.

(** The array has a cell along an axis unless the area is shorter than
    one grid step without being empty: an area of extent 0 is enlarged to
    one step by the parity block, one strictly between 0 and a step is
    left alone and truncates to no cell at all. *)
Lemma grid_samples_positive_iff (max_x : Z) (delta_x : Q) :
  0 < delta_x -> (0 <= max_x)%Z ->
  (0 <= grid_samples max_x delta_x)%Z /\
  ((0 < grid_samples max_x delta_x)%Z <->
   max_x = 0%Z \/ delta_x <= inject_Z max_x).
Proof.
  intros Hd Hm.
  pose proof (Nx_nonneg max_x delta_x Hd Hm) as HN.
  assert (Hq : 0 <= inject_Z max_x / delta_x).
  { apply Qle_shift_div_l; [exact Hd|].
    rewrite Qmult_0_l. change 0 with (inject_Z 0). now rewrite <- Zle_Qle. }
  destruct (is_even (Nx max_x delta_x)) eqn:E.
  - destruct (grid_samples_after_enlarging max_x delta_x Hd E) as [Hs _].
    rewrite Hs. split; [lia|]. split; [|lia]. intros _.
    destruct (Z.eq_dec max_x 0) as [Hz|Hz]; [now left|right].
    destruct (Qlt_le_dec (inject_Z max_x) delta_x) as [Hlt|Hle]; [|exact Hle].
    exfalso.
    (* 0 < max_x / delta_x < 1 gives Nx = 1, which is odd *)
    assert (H1 : Nx max_x delta_x = 1%Z).
    { unfold Nx, math_ceil.
      pose proof (Qle_ceiling (inject_Z max_x / delta_x)) as Hc1.
      pose proof (Qceiling_lt (inject_Z max_x / delta_x)) as Hc2.
      assert (Hpos : 0 < inject_Z max_x / delta_x).
      { apply Qlt_shift_div_l; [exact Hd|]. rewrite Qmult_0_l.
        change 0 with (inject_Z 0). rewrite <- Zlt_Qlt. lia. }
      assert (Hlt1 : inject_Z max_x / delta_x < 1).
      { apply Qlt_shift_div_r; [exact Hd|]. now rewrite Qmult_1_l. }
      set (c := Qceiling (inject_Z max_x / delta_x)) in *.
      assert (Ha : inject_Z 0 < inject_Z c) by (change (inject_Z 0) with 0; lra).
      assert (Hb : inject_Z (c - 1) < inject_Z 1)
        by (change (inject_Z 1) with 1; lra).
      rewrite <- Zlt_Qlt in Ha, Hb. lia. }
    rewrite H1 in E. discriminate.
  - unfold grid_samples, max_x_adjusted. rewrite E.
    rewrite (py_int_nonneg _ Hq).
    pose proof (Qfloor_nonneg _ Hq) as Hf. split; [exact Hf|].
    pose proof (Qfloor_le (inject_Z max_x / delta_x)) as Hf1.
    pose proof (Qlt_floor (inject_Z max_x / delta_x)) as Hf2.
    set (f := Qfloor (inject_Z max_x / delta_x)) in *.
    split.
    + intros Hpos. right.
      assert (H1 : inject_Z 1 <= inject_Z f) by (rewrite <- Zle_Qle; lia).
      assert (H2 : 1 <= inject_Z max_x / delta_x)
        by (change (inject_Z 1) with 1 in H1; lra).
      apply (Qmult_le_compat_r _ _ delta_x) in H2; [|lra].
      assert (E2 : inject_Z max_x / delta_x * delta_x == inject_Z max_x)
        by (field; lra).
      rewrite E2, Qmult_1_l in H2. exact H2.
    + intros [Hz|Hle].
      * exfalso. subst max_x. unfold Nx, math_ceil in E.
        assert (H0 : inject_Z 0 / delta_x == inject_Z 0).
        { change (inject_Z 0) with 0. field. lra. }
        rewrite (Qceiling_comp _ _ H0), Qceiling_Z in E. discriminate.
      * assert (H2 : 1 <= inject_Z max_x / delta_x).
        { apply Qle_shift_div_l; [exact Hd|]. now rewrite Qmult_1_l. }
        assert (H3 : inject_Z 0 < inject_Z (f + 1)) by
          (change (inject_Z 0) with 0; lra).
        rewrite <- Zlt_Qlt in H3.
        assert (H4 : (f <> 0)%Z).
        { intros Hf0. rewrite Hf0 in Hf2. change (inject_Z (0 + 1)) with 1 in Hf2.
          lra. }
        lia.
Qed.

(** ** Diffusion Simulator: shape of the array *)

Lemma length_map2 {A B C : Type} (f : A -> B -> C) (l1 : list A) :
  forall l2 : list B,
    List.length l1 = List.length l2 ->
    List.length (map2 f l1 l2) = List.length l1.
Proof.
  induction l1 as [|a l1 IH]; intros [|b l2] H; simpl in *; try lia.
  now rewrite IH by lia.
Qed.

Lemma image_shift_roll_shape (a b : nat) (img : image) (x_roll y_roll : Z) :
  img_shape a b img -> img_shape a b (image_shift_roll img x_roll y_roll).
Proof.
  unfold img_shape, image_shift_roll. intros [Hl Hr]. split.
  - now rewrite length_map, np_roll_length.
  - apply Forall_map. apply np_roll_Forall.
    eapply Forall_impl; [|exact Hr].
    intros row Hrow. now rewrite np_roll_length.
Qed.

Lemma img_map2_shape (f : Q -> Q -> Q) (a b : nat) (x y : image) :
  img_shape a b x -> img_shape a b y -> img_shape a b (map2 (map2 f) x y).
Proof.
  unfold img_shape. intros [Hx Fx] [Hy Fy]. split.
  - rewrite length_map2; congruence.
  - eapply Forall_map2; [|exact Fx|exact Fy].
    intros r1 r2 H1 H2. simpl in *. rewrite length_map2; congruence.
Qed.

Lemma img_scale_shape (c : Q) (a b : nat) (x : image) :
  img_shape a b x -> img_shape a b (img_scale c x).
Proof.
  unfold img_shape, img_scale. intros [Hx Fx]. split.
  - now rewrite length_map.
  - apply Forall_map. eapply Forall_impl; [|exact Fx].
    intros row Hrow. now rewrite length_map.
Qed.

Lemma stencil_shape (g : Q) (a b : nat) (uk : image) :
  img_shape a b uk -> img_shape a b (stencil g uk).
Proof.
  intros H. unfold stencil, img_add, img_sub.
  repeat first [ apply img_map2_shape | apply img_scale_shape
               | apply image_shift_roll_shape | exact H ].
Qed.

Lemma img_list_set_shape (a b i : nat) (row : list Q) (img : image) :
  List.length row = b -> img_shape a b img -> img_shape a b (list_set i row img).
Proof.
  unfold img_shape. intros Hrow [Hl Hr]. split.
  - now rewrite length_list_set.
  - now apply Forall_list_set.
Qed.

Lemma heat_sink_shape (i j a b : nat) (u : list image) :
  grid_shape a b u -> grid_shape a b (heat_sink i j u).
Proof.
  assert (Hcol : forall j v, grid_shape a b v -> grid_shape a b (zero_column j v)).
  { intros j' v Hv. unfold grid_shape, zero_column in *.
    apply Forall_map. eapply Forall_impl; [|exact Hv].
    intros img [Hl Hr]. split; [now rewrite length_map|].
    apply Forall_map. eapply Forall_impl; [|exact Hr].
    intros row Hrow. now rewrite length_list_set. }
  intros Hu. unfold heat_sink. apply Hcol.
  unfold grid_shape, zero_cell. apply Forall_map.
  assert (H1 : grid_shape a b (zero_row 0 (zero_column 0 u))).
  { unfold grid_shape, zero_row. apply Forall_map.
    eapply Forall_impl; [|exact (Hcol 0%nat u Hu)].
    intros img Himg. destruct (nth_error img 0) as [row|] eqn:E; [|exact Himg].
    apply img_list_set_shape; [|exact Himg].
    rewrite length_map. destruct Himg as [_ Hr].
    exact (Forall_nth_error _ _ _ _ Hr E). }
  eapply Forall_impl; [|exact H1].
  intros img Himg.
  destruct (nth_error img i) as [row|] eqn:E; [|exact Himg].
  apply img_list_set_shape; [|exact Himg].
  rewrite length_list_set. destruct Himg as [_ Hr].
  exact (Forall_nth_error _ _ _ _ Hr E).
Qed.

Lemma calculate2D_step_shape
      (g : Q) (nx ny : Z) (a b : nat) (k : nat) (u u' : list image) :
  grid_shape a b u ->
  calculate2D_step g nx ny k u = Returned u' -> grid_shape a b u'.
Proof.
  intros Hu E. apply calculate2D_step_Returned in E.
  destruct E as [uk [i [j [Ek [_ [_ [_ [_ [_ ->]]]]]]]]].
  apply heat_sink_shape.
  apply (Forall_list_set _ (S k)); [|exact Hu].
  apply stencil_shape. exact (Forall_nth_error _ _ _ _ Hu Ek).
Qed.

Lemma calculate2D_loop_shape
      (g : Q) (nx ny : Z) (a b : nat) (ks : list nat) (u u' : list image) :
  grid_shape a b u ->
  calculate2D_loop g nx ny ks u = Returned u' -> grid_shape a b u'.
Proof.
  revert u. induction ks as [|k ks IH]; intros u Hu H; simpl in H.
  - now injection H as <-.
  - destruct (calculate2D_step g nx ny k u) as [u1| | |] eqn:E;
      try discriminate.
    apply (IH u1); [|exact H].
    eapply calculate2D_step_shape; eauto.
Qed.

(** X6: The simulation keeps the extents of the array it is given: as many
    rows and columns in every time slice. *)
Theorem calculate2D_keeps_shape
        (g : Q) (m nx ny : Z) (a b : nat) (u u' : list image)
        (Hu : grid_shape a b u)
        (H : calculate2D g m nx ny u = Returned u') :
  grid_shape a b u'.
Proof.
  unfold calculate2D in H. eapply calculate2D_loop_shape; eauto.
Qed.

Lemma calculate2D_keeps_shape_witness :
  exists u', calculate2D (1 # 4) 2 3 3 example_u = Returned u' /\
             grid_shape 3 3 u'.
Proof.
  eexists. split; [vm_compute; reflexivity|].
  eapply (calculate2D_keeps_shape (1 # 4) 2 3 3 3 3 example_u).
  - repeat constructor.
  - vm_compute; reflexivity.
Defined.

(** ** Diffusion Simulator: when it returns *)

Lemma py_index_lt (n : nat) (i : Z) (k : nat) :
  py_index n i = Some k -> (k < n)%nat.
Proof.
  unfold py_index.
  destruct ((0 <=? i) && (i <? Z.of_nat n))%Z eqn:E1.
  - intros H. injection H as <-. lia.
  - destruct ((- Z.of_nat n <=? i) && (i <? 0))%Z eqn:E2; [|discriminate].
    intros H. injection H as <-. lia.
Qed.

Lemma py_index_in_range (n : nat) (i : Z) :
  (- Z.of_nat n <= i < Z.of_nat n)%Z <-> exists k, py_index n i = Some k.
Proof.
  unfold py_index. split.
  - intros H. destruct ((0 <=? i) && (i <? Z.of_nat n))%Z eqn:E1; [eauto|].
    destruct ((- Z.of_nat n <=? i) && (i <? 0))%Z eqn:E2; [eauto|]. lia.
  - intros [k H].
    destruct ((0 <=? i) && (i <? Z.of_nat n))%Z eqn:E1; [lia|].
    destruct ((- Z.of_nat n <=? i) && (i <? 0))%Z eqn:E2; [lia|discriminate].
Qed.

Lemma length_heat_sink (i j : nat) (u : list image) :
  List.length (heat_sink i j u) = List.length u.
Proof.
  unfold heat_sink, zero_column, zero_row, zero_cell.
  now rewrite !length_map.
Qed.

(** The extents that the pass reads off slice [k] of a rectangular
    array. *)
Lemma slice_extents (a b : nat) (u : list image) (k : nat) (uk : image) :
  grid_shape a b u -> nth_error u k = Some uk -> (0 < a)%nat ->
  List.length uk = a /\ List.length (hd [] uk) = b.
Proof.
  intros Hu Ek Ha.
  destruct (Forall_nth_error _ _ _ _ Hu Ek) as [Hl Hr].
  split; [exact Hl|].
  destruct uk as [|row uk']; [simpl in Hl; lia|].
  simpl. now inversion Hr.
Qed.

Lemma calculate2D_step_returns
      (g : Q) (nx ny : Z) (a b : nat) (k : nat) (u : list image) :
  grid_shape a b u -> (S k < List.length u)%nat -> indices_fit a b nx ny ->
  exists u', calculate2D_step g nx ny k u = Returned u' /\
             List.length u' = List.length u.
Proof.
  intros Hu Hk [Ha [Hb [Hx Hy]]]. unfold calculate2D_step.
  destruct (nth_error u k) as [uk|] eqn:Ek.
  - destruct (slice_extents a b u k uk Hu Ek Ha) as [La Lb].
    apply Nat.ltb_lt in Hk. rewrite Hk. cbv zeta. rewrite La, Lb.
    apply Nat.ltb_lt in Ha, Hb. rewrite Ha, Hb. cbn [andb].
    destruct (proj1 (py_index_in_range a (nx - 1)) Hx) as [i ->].
    destruct (proj1 (py_index_in_range b (ny - 1)) Hy) as [j ->].
    eexists. split; [reflexivity|].
    rewrite length_heat_sink. apply (length_list_set (S k)).
  - apply nth_error_None in Ek. lia.
Qed.

Lemma calculate2D_step_inv
      (g : Q) (nx ny : Z) (a b : nat) (k : nat) (u : list image) :
  grid_shape a b u ->
  (exists u', calculate2D_step g nx ny k u = Returned u' /\
              List.length u' = List.length u /\ grid_shape a b u' /\
              (S k < List.length u)%nat /\ indices_fit a b nx ny) \/
  calculate2D_step g nx ny k u = Raised IndexError.
Proof.
  intros Hu.
  destruct (calculate2D_step g nx ny k u) as [u'| | |e] eqn:E.
  - left. exists u'. split; [reflexivity|].
    pose proof (calculate2D_step_shape g nx ny a b k u u' Hu E) as Hs.
    apply calculate2D_step_Returned in E.
    destruct E as [uk [i [j [Ek [Hl [Ha [Hb [Hi [Hj ->]]]]]]]]].
    rewrite length_heat_sink.
    split; [apply (length_list_set (S k))|].
    split; [exact Hs|]. split; [exact Hl|].
    assert (Ha' : (0 < a)%nat).
    { destruct (Forall_nth_error _ _ _ _ Hu Ek) as [La _]. lia. }
    destruct (slice_extents a b u k uk Hu Ek Ha') as [La Lb].
    rewrite La in Hi. rewrite Lb in Hj, Hb.
    split; [exact Ha'|]. split; [exact Hb|]. split.
    + apply py_index_in_range. eauto.
    + apply py_index_in_range. eauto.
  - exfalso. unfold calculate2D_step in E.
    destruct (nth_error u k); [|discriminate].
    destruct (S k <? List.length u)%nat; [|discriminate].
    cbv zeta in E. destruct (_ && _)%bool; [|discriminate].
    destruct (py_index _ (nx - 1)); [|discriminate].
    destruct (py_index _ (ny - 1)); discriminate.
  - exfalso. unfold calculate2D_step in E.
    destruct (nth_error u k); [|discriminate].
    destruct (S k <? List.length u)%nat; [|discriminate].
    cbv zeta in E. destruct (_ && _)%bool; [|discriminate].
    destruct (py_index _ (nx - 1)); [|discriminate].
    destruct (py_index _ (ny - 1)); discriminate.
  - right. unfold calculate2D_step in E.
    destruct (nth_error u k); [|now symmetry].
    destruct (S k <? List.length u)%nat; [|now symmetry].
    cbv zeta in E. destruct (_ && _)%bool; [|now symmetry].
    destruct (py_index _ (nx - 1)); [|now symmetry].
    destruct (py_index _ (ny - 1)); [discriminate|now symmetry].
Qed.

Lemma calculate2D_loop_returns
      (g : Q) (nx ny : Z) (a b : nat) (ks : list nat) (u : list image) :
  grid_shape a b u ->
  Forall (fun k => (S k < List.length u)%nat) ks -> indices_fit a b nx ny ->
  exists u', calculate2D_loop g nx ny ks u = Returned u' /\
             List.length u' = List.length u.
Proof.
  intros Hu Hks Hfit. revert u Hu Hks.
  induction ks as [|k ks IH]; intros u Hu Hks; simpl.
  - eauto.
  - inversion Hks as [|? ? Hk Hks']; subst.
    destruct (calculate2D_step_returns g nx ny a b k u Hu Hk Hfit)
      as [u1 [E1 L1]].
    rewrite E1. destruct (IH u1) as [u' [E' L']].
    + eapply calculate2D_step_shape; eauto.
    + now rewrite L1.
    + exists u'. split; [exact E'|]. congruence.
Qed.

Lemma calculate2D_loop_inv
      (g : Q) (nx ny : Z) (a b : nat) (ks : list nat) (u : list image) :
  grid_shape a b u ->
  (exists u', calculate2D_loop g nx ny ks u = Returned u' /\
              Forall (fun k => (S k < List.length u)%nat) ks /\
              (ks <> [] -> indices_fit a b nx ny)) \/
  calculate2D_loop g nx ny ks u = Raised IndexError.
Proof.
  revert u. induction ks as [|k ks IH]; intros u Hu; simpl.
  - left. exists u. split; [reflexivity|]. split; [constructor|congruence].
  - destruct (calculate2D_step_inv g nx ny a b k u Hu)
      as [[u1 [E1 [L1 [S1 [Hk Hfit]]]]]|E1]; rewrite E1; [|now right].
    destruct (IH u1 S1) as [[u' [E' [F' _]]]|E']; [|now right].
    left. exists u'. split; [exact E'|]. split; [|auto].
    constructor; [exact Hk|]. now rewrite <- L1.
Qed.

(** X5: What a call does to a rectangular array, by its extents.  With fewer
    than two time steps the loop body never runs and the array comes
    back as it is.  Otherwise the call returns an array with as many
    time slices exactly when the array has at least [max_iterations]
    slices, both spatial extents are positive and the indices
    [int(max_x / delta_x) - 1] and [int(max_y / delta_y) - 1] lie on
    their axes (a negative index counts from the end of the axis), and
    raises [IndexError] in every other case. *)
Theorem calculate2D_outcome
        (g : Q) (m nx ny : Z) (a b : nat) (u : list image)
        (Hu : grid_shape a b u) :
  ((m <= 1)%Z -> calculate2D g m nx ny u = Returned u) /\
  ((2 <= m)%Z ->
   ((Z.to_nat m <= List.length u)%nat /\ indices_fit a b nx ny ->
    exists u', calculate2D g m nx ny u = Returned u' /\
               List.length u' = List.length u) /\
   (~ ((Z.to_nat m <= List.length u)%nat /\ indices_fit a b nx ny) ->
    calculate2D g m nx ny u = Raised IndexError)).
Proof.
  unfold calculate2D. split.
  - intros Hm. replace (Z.to_nat (m - 1)) with 0%nat by lia. reflexivity.
  - intros Hm. split.
    + intros [Hl Hfit]. apply (calculate2D_loop_returns g nx ny a b); auto.
      apply Forall_forall. intros k Hk. apply in_seq in Hk. lia.
    + intros Hn.
      destruct (calculate2D_loop_inv g nx ny a b (seq 0 (Z.to_nat (m - 1))) u Hu)
        as [[u' [_ [F Hxy]]]|E]; [|exact E].
      exfalso. apply Hn.
      assert (Hne : seq 0 (Z.to_nat (m - 1)) <> []).
      { intros E. apply (f_equal (@List.length nat)) in E.
        rewrite length_seq in E. simpl in E. lia. }
      split; [|now apply Hxy].
      rewrite Forall_forall in F.
      assert (Hin : In (Z.to_nat (m - 2)) (seq 0 (Z.to_nat (m - 1))))
        by (apply in_seq; lia).
      apply F in Hin. lia.
Qed.

(** On the 3 x 3 example with two time steps: the grid size 3 returns,
    the grid size 0 returns as well (its index -1 addresses the last
    row), and the grid size 10 raises. *)
Lemma calculate2D_outcome_witness :
  (exists u', calculate2D (1 # 4) 2 3 3 example_u = Returned u' /\
              List.length u' = List.length example_u) /\
  (exists u', calculate2D (1 # 4) 2 0 3 example_u = Returned u' /\
              List.length u' = List.length example_u) /\
  calculate2D (1 # 4) 2 10 3 example_u = Raised IndexError.
Proof.
  assert (Hs : grid_shape 3 3 example_u) by (repeat constructor).
  split; [|split].
  - apply (proj2 (calculate2D_outcome (1 # 4) 2 3 3 3 3 example_u Hs));
      [lia|]. split; [vm_compute; lia|unfold indices_fit; lia].
  - apply (proj2 (calculate2D_outcome (1 # 4) 2 0 3 3 3 example_u Hs));
      [lia|]. split; [vm_compute; lia|unfold indices_fit; lia].
  - apply (proj2 (calculate2D_outcome (1 # 4) 2 10 3 3 3 example_u Hs));
      [lia|]. unfold indices_fit. lia.
Defined.

(** ** Diffusion Simulator: the run of the script *)

Lemma gamma_is_quarter (delta_x delta_y D : Q) :
  0 < delta_x -> 0 < delta_y -> 0 < D -> gamma delta_x delta_y D == 1 # 4.
Proof.
  intros Hx Hy HD. unfold gamma, delta_t. field. repeat split; lra.
Qed.

Lemma max_iterations_nonneg (delta_x delta_y D : Q) (max_time : Z) :
  0 < delta_x -> 0 < delta_y -> 0 < D -> (0 <= max_time)%Z ->
  (0 <= max_iterations delta_x delta_y D max_time)%Z.
Proof.
  intros Hx Hy HD Ht. unfold max_iterations, delta_t.
  assert (Hq : 0 <= inject_Z max_time / (delta_x * delta_y / (4 * D))).
  { apply Qle_shift_div_l.
    - apply Qlt_shift_div_l; [lra|]. rewrite Qmult_0_l.
      rewrite <- (Qmult_0_l delta_y). apply Qmult_lt_compat_r; assumption.
    - rewrite Qmult_0_l. change 0 with (inject_Z 0). now rewrite <- Zle_Qle. }
  rewrite (py_int_nonneg _ Hq). now apply Qfloor_nonneg.
Qed.

Section InitialArray.
Variables delta_x delta_y cx cy defect_x defect_y T : Q.
Variables m nx ny : Z.

Lemma zeros_shape : img_shape (Z.to_nat nx) (Z.to_nat ny) (zeros nx ny).
Proof.
  unfold zeros. split; [apply repeat_length|].
  apply Forall_forall. intros row Hrow. apply repeat_spec in Hrow. subst row.
  apply repeat_length.
Qed.

Lemma footprint_shape :
  img_shape (Z.to_nat nx) (Z.to_nat ny)
            (footprint delta_x delta_y cx cy defect_x defect_y T nx ny).
Proof.
  unfold footprint. split; [now rewrite length_map, length_seq|].
  apply Forall_map. apply Forall_forall. intros x _.
  now rewrite length_map, length_seq.
Qed.

Lemma u_initial_returns :
  (0 < m)%Z ->
  exists u0,
    u_initial delta_x delta_y cx cy defect_x defect_y T m nx ny = Returned u0 /\
    List.length u0 = Z.to_nat m /\
    grid_shape (Z.to_nat nx) (Z.to_nat ny) u0.
Proof.
  intros Hm. unfold u_initial.
  destruct (Z.to_nat m) as [|m'] eqn:Em; [lia|].
  eexists. split; [reflexivity|]. split.
  - simpl. now rewrite repeat_length.
  - constructor; [apply footprint_shape|].
    apply Forall_forall. intros img Himg. apply repeat_spec in Himg.
    subst img. apply zeros_shape.
Qed.

Lemma u_initial_within (u0 : list image) :
  0 <= T ->
  u_initial delta_x delta_y cx cy defect_x defect_y T m nx ny = Returned u0 ->
  grid_within 0 T u0.
Proof.
  intros HT. unfold u_initial, grid_within.
  destruct (Z.to_nat m).
  - destruct (footprint_has_cell _ _ _ _ _ _ _ _); [discriminate|].
    intros H. injection H as <-. constructor.
  - intros H. injection H as <-. constructor.
    + unfold footprint, img_within. apply Forall_map, Forall_forall.
      intros x _. apply Forall_map, Forall_forall. intros y _.
      destruct (in_footprint _ _ _ _ _ _ x y); lra.
    + apply Forall_forall. intros img Himg. apply repeat_spec in Himg.
      subst img. unfold zeros. apply Forall_forall. intros row Hrow.
      apply repeat_spec in Hrow. subst row.
      apply Forall_forall. intros v Hv. apply repeat_spec in Hv. subst v. lra.
Qed.

Lemma footprint_has_cell_iff :
  footprint_has_cell delta_x delta_y cx cy defect_x defect_y nx ny = true <->
  exists x y, (x < Z.to_nat nx)%nat /\ (y < Z.to_nat ny)%nat /\
              in_footprint delta_x delta_y cx cy defect_x defect_y x y = true.
Proof.
  unfold footprint_has_cell. rewrite existsb_exists. split.
  - intros [x [Hx H]]. apply existsb_exists in H. destruct H as [y [Hy H]].
    apply in_seq in Hx, Hy. exists x, y. repeat split; try lia. exact H.
  - intros [x [y [Hx [Hy H]]]]. exists x. split; [apply in_seq; lia|].
    apply existsb_exists. exists y. split; [apply in_seq; lia|exact H].
Qed.

(** Without a time step the first assignment of the footprint fails. *)
Lemma u_initial_no_step :
  (m <= 0)%Z ->
  u_initial delta_x delta_y cx cy defect_x defect_y T m nx ny
  = if footprint_has_cell delta_x delta_y cx cy defect_x defect_y nx ny
    then Raised IndexError else Returned [].
Proof.
  intros Hm. unfold u_initial.
  now replace (Z.to_nat m) with 0%nat by lia.
Qed.
End InitialArray.

Lemma simulate_unfold
      (delta_x delta_y D : Q) (max_time max_x max_y : Z)
      (cx cy defect_x defect_y T : Q) :
  0 < delta_x -> 0 < delta_y -> 0 < D ->
  (0 <= max_time)%Z -> (0 <= max_x)%Z -> (0 <= max_y)%Z ->
  simulate delta_x delta_y D max_time max_x max_y cx cy defect_x defect_y T
  = match u_initial delta_x delta_y cx cy defect_x defect_y T
            (max_iterations delta_x delta_y D max_time)
            (grid_samples max_x delta_x) (grid_samples max_y delta_y) with
    | Returned u0 =>
        calculate2D_loop (gamma delta_x delta_y D)
          (grid_samples max_x delta_x) (grid_samples max_y delta_y)
          (seq 0 (Z.to_nat (max_iterations delta_x delta_y D max_time - 1))) u0
    | other => other
    end.
Proof.
  intros Hx Hy HD Ht Hmx Hmy. unfold simulate.
  pose proof (max_iterations_nonneg delta_x delta_y D max_time Hx Hy HD Ht) as Hm.
  destruct (grid_samples_positive_iff max_x delta_x Hx Hmx) as [Hnx _].
  destruct (grid_samples_positive_iff max_y delta_y Hy Hmy) as [Hny _].
  apply Z.ltb_ge in Hm, Hnx, Hny. rewrite Hm, Hnx, Hny. reflexivity.
Qed.

(** X7: With positive grid steps and diffusivity and an area that is empty
    or at least one grid step long on each axis, the script's simulation
    returns an array of [max_iterations] slices of the allocated extents
    as soon as there is one time step.  Without a time step
    ([max_time < delta_t]) the arrays have no slice: if a grid point lies
    in the footprint of the defect, writing the defect temperature there
    raises [IndexError]; if none does, the empty array comes back. *)
Theorem simulate_returns_allocated
        (delta_x delta_y D : Q) (max_time max_x max_y : Z)
        (cx cy defect_x defect_y T : Q)
        (Hx : 0 < delta_x) (Hy : 0 < delta_y) (HD : 0 < D)
        (Ht : (0 <= max_time)%Z) (Hmx : (0 <= max_x)%Z) (Hmy : (0 <= max_y)%Z)
        (Hax : max_x = 0%Z \/ delta_x <= inject_Z max_x)
        (Hay : max_y = 0%Z \/ delta_y <= inject_Z max_y) :
  let m := max_iterations delta_x delta_y D max_time in
  let nx := Z.to_nat (grid_samples max_x delta_x) in
  let ny := Z.to_nat (grid_samples max_y delta_y) in
  let run :=
    simulate delta_x delta_y D max_time max_x max_y cx cy defect_x defect_y T in
  ((1 <= m)%Z ->
   exists u', run = Returned u' /\
              List.length u' = Z.to_nat m /\ grid_shape nx ny u') /\
  (m = 0%Z ->
   ((exists x y, (x < nx)%nat /\ (y < ny)%nat /\
                 in_footprint delta_x delta_y cx cy defect_x defect_y x y = true) ->
    run = Raised IndexError) /\
   ((forall x y, (x < nx)%nat -> (y < ny)%nat ->
                 in_footprint delta_x delta_y cx cy defect_x defect_y x y = false) ->
    run = Returned [])).
Proof.
  intros m nx ny run. unfold run.
  rewrite simulate_unfold by assumption. fold m.
  assert (Hnx : (0 < grid_samples max_x delta_x)%Z)
    by (apply (grid_samples_positive_iff max_x delta_x Hx Hmx); exact Hax).
  assert (Hny : (0 < grid_samples max_y delta_y)%Z)
    by (apply (grid_samples_positive_iff max_y delta_y Hy Hmy); exact Hay).
  split.
  - intros Hm.
    destruct (u_initial_returns delta_x delta_y cx cy defect_x defect_y T m
                (grid_samples max_x delta_x) (grid_samples max_y delta_y))
      as [u0 [E0 [L0 S0]]]; [lia|].
    rewrite E0.
    destruct (calculate2D_loop_returns (gamma delta_x delta_y D)
                (grid_samples max_x delta_x) (grid_samples max_y delta_y)
                nx ny (seq 0 (Z.to_nat (m - 1))) u0 S0) as [u' [E L]].
    { apply Forall_forall. intros k Hk. apply in_seq in Hk. lia. }
    { unfold indices_fit, nx, ny. lia. }
    exists u'. split; [exact E|]. split; [congruence|].
    eapply calculate2D_loop_shape; [exact S0|exact E].
  - intros Hm. rewrite u_initial_no_step by lia. split.
    + intros Hcell. apply footprint_has_cell_iff in Hcell. now rewrite Hcell.
    + intros Hnone.
      destruct (footprint_has_cell delta_x delta_y cx cy defect_x defect_y
                  (grid_samples max_x delta_x) (grid_samples max_y delta_y))
        eqn:E.
      * apply footprint_has_cell_iff in E. destruct E as [x [y [Hx' [Hy' E]]]].
        rewrite (Hnone x y Hx' Hy') in E. discriminate.
      * rewrite Hm. reflexivity.
Qed.

(** Three time steps on the 3 x 3 example grid; and the same grid with a
    time span shorter than one time step, where the centre point lies in
    the footprint. *)
Lemma simulate_returns_allocated_witness :
  (exists u',
     simulate 2 2 (1 # 100) 300 6 6 2 2 1 1 4 = Returned u' /\
     List.length u' = 3%nat /\ grid_shape 3 3 u') /\
  simulate 2 2 (1 # 100) 0 6 6 2 2 1 1 4 = Raised IndexError.
Proof.
  split.
  - apply (proj1 (simulate_returns_allocated 2 2 (1 # 100) 300 6 6 2 2 1 1 4
                    ltac:(reflexivity) ltac:(reflexivity) ltac:(reflexivity)
                    ltac:(discriminate) ltac:(discriminate) ltac:(discriminate)
                    ltac:(right; discriminate) ltac:(right; discriminate))).
    vm_compute. discriminate.
  - apply (proj2 (simulate_returns_allocated 2 2 (1 # 100) 0 6 6 2 2 1 1 4
                    ltac:(reflexivity) ltac:(reflexivity) ltac:(reflexivity)
                    ltac:(discriminate) ltac:(discriminate) ltac:(discriminate)
                    ltac:(right; discriminate) ltac:(right; discriminate)));
      [reflexivity|].
    exists 1%nat, 1%nat. vm_compute. repeat split; lia.
Defined.

(** Without a cell along an axis, and with at least two time steps, the
    first pass of the loop raises. *)
Lemma simulate_no_cell_raises
      (delta_x delta_y D : Q) (max_time max_x max_y : Z)
      (cx cy defect_x defect_y T : Q) :
  0 < delta_x -> 0 < delta_y -> 0 < D ->
  (0 <= max_time)%Z -> (0 <= max_x)%Z -> (0 <= max_y)%Z ->
  (2 <= max_iterations delta_x delta_y D max_time)%Z ->
  (grid_samples max_x delta_x <= 0)%Z \/ (grid_samples max_y delta_y <= 0)%Z ->
  simulate delta_x delta_y D max_time max_x max_y cx cy defect_x defect_y T
  = Raised IndexError.
Proof.
  intros Hx Hy HD Ht Hmx Hmy Hm Hcell.
  rewrite simulate_unfold by assumption.
  set (m := max_iterations delta_x delta_y D max_time) in *.
  set (nx := grid_samples max_x delta_x) in *.
  set (ny := grid_samples max_y delta_y) in *.
  destruct (u_initial_returns delta_x delta_y cx cy defect_x defect_y T m nx ny)
    as [u0 [E0 [L0 S0]]]; [lia|].
  rewrite E0.
  destruct (calculate2D_loop_inv (gamma delta_x delta_y D) nx ny
              (Z.to_nat nx) (Z.to_nat ny)
              (seq 0 (Z.to_nat (m - 1))) u0 S0) as [[u' [_ [_ Hxy]]]|E];
    [|exact E].
  exfalso.
  assert (Hne : seq 0 (Z.to_nat (m - 1)) <> []).
  { intros E. apply (f_equal (@List.length nat)) in E.
    rewrite length_seq in E. simpl in E. lia. }
  destruct (Hxy Hne) as [Hnx [Hny _]]. lia.
Qed.

Lemma grid_samples_short (max_x : Z) (delta_x : Q) :
  0 < delta_x -> (0 < max_x)%Z -> inject_Z max_x < delta_x ->
  grid_samples max_x delta_x = 0%Z.
Proof.
  intros Hx Hpos Hlt.
  destruct (grid_samples_positive_iff max_x delta_x Hx) as [H0 Hiff]; [lia|].
  destruct (Z.eq_dec (grid_samples max_x delta_x) 0) as [E|E]; [exact E|].
  exfalso. assert (Hgt : (0 < grid_samples max_x delta_x)%Z) by lia.
  apply Hiff in Hgt. destruct Hgt as [Hz|Hle]; [lia|].
  exact (Qlt_not_le _ _ Hlt Hle).
Qed.

(** X8: An area shorter than one grid step on an axis, without being empty,
    leaves the array without a cell on that axis; with at least two time
    steps the first pass of the loop then raises [IndexError]. *)
Theorem simulate_short_area_raises
        (delta_x delta_y D : Q) (max_time max_x max_y : Z)
        (cx cy defect_x defect_y T : Q)
        (Hx : 0 < delta_x) (Hy : 0 < delta_y) (HD : 0 < D)
        (Ht : (0 <= max_time)%Z) (Hmx : (0 <= max_x)%Z) (Hmy : (0 <= max_y)%Z)
        (Hm : (2 <= max_iterations delta_x delta_y D max_time)%Z)
        (Hshort : (0 < max_x)%Z /\ inject_Z max_x < delta_x \/
                  (0 < max_y)%Z /\ inject_Z max_y < delta_y) :
  simulate delta_x delta_y D max_time max_x max_y cx cy defect_x defect_y T
  = Raised IndexError.
Proof.
  apply simulate_no_cell_raises; try assumption.
  destruct Hshort as [[Hpos Hlt]|[Hpos Hlt]].
  - left. rewrite (grid_samples_short max_x delta_x Hx Hpos Hlt). lia.
  - right. rewrite (grid_samples_short max_y delta_y Hy Hpos Hlt). lia.
Qed.

Lemma simulate_short_area_raises_witness :
  simulate 2 2 (1 # 100) 300 1 6 0 0 1 1 4 = Raised IndexError.
Proof.
  apply (simulate_short_area_raises 2 2 (1 # 100) 300 1 6 0 0 1 1 4);
    try reflexivity; try discriminate.
  left. split; reflexivity.
Defined.

(** ** Heights relative to the defect *)

Lemma not_defect_eqb (r : LayerRow) :
  not_defect r -> String.eqb (l_material r) "defect" = false.
Proof. intros H. now apply String.eqb_neq. Qed.

(** Above the row that starts the count, the walk upwards accumulates
    the thicknesses. *)
Lemma total_above_cumulative (nd : bool) (rows : list LayerRow) :
  Forall not_defect rows ->
  forall (p : Q) (i : nat) (r : LayerRow),
    nth_error rows i = Some r ->
    exists t, nth_error (total_above nd true (Some p) rows) i = Some (r, Some t) /\
              t == p + sum_thickness (firstn (S i) rows).
Proof.
  induction 1 as [|r0 rows Hr0 Hrows IH]; intros p i r Hi.
  - destruct i; discriminate.
  - cbn [total_above negb andb]. rewrite (not_defect_eqb r0 Hr0).
    cbn [nan_add]. destruct i as [|i].
    + injection Hi as <-. eexists. split; [reflexivity|].
      cbn [firstn sum_thickness fold_right]. ring.
    + cbn [nth_error] in Hi |- *.
      destruct (IH (l_thickness r0 + p) i r Hi) as [t [Ht Et]].
      exists t. split; [exact Ht|]. rewrite Et.
      change (firstn (S (S i)) (r0 :: rows)) with (r0 :: firstn (S i) rows).
      cbn [sum_thickness fold_right]. fold (sum_thickness (firstn (S i) rows)).
      ring.
Qed.

Lemma total_above_fst (nd signal : bool) (prev : option Q) (rows : list LayerRow) :
  map fst (total_above nd signal prev rows) = rows.
Proof.
  revert signal prev. induction rows as [|r rows IH]; intros signal prev;
    [reflexivity|].
  cbn [total_above].
  destruct (negb signal && nd); [cbn; now rewrite IH|].
  destruct (String.eqb (l_material r) "defect"); [cbn; now rewrite IH|].
  destruct signal; cbn; now rewrite IH.
Qed.

(** With a defect, the rows under the defect row are left at NaN. *)
Lemma total_above_before_defect
      (below above : list LayerRow) (d : LayerRow) :
  Forall not_defect below -> l_material d = "defect"%string ->
  total_above false false None (below ++ d :: above)
  = map (fun r => (r, None)) below ++
    (d, Some 0) :: total_above false true (Some 0) above.
Proof.
  intros Hb Hd. induction Hb as [|r below Hr Hb IH].
  - cbn [app map total_above negb andb]. rewrite Hd. reflexivity.
  - cbn [app map total_above negb andb]. rewrite (not_defect_eqb r Hr).
    now rewrite IH.
Qed.

Lemma total_below_all_set (l : list (LayerRow * option Q)) :
  Forall (fun rt => snd rt <> None) l -> total_below l = Returned l.
Proof.
  induction 1 as [|[r t] l Ht Hl IH]; [reflexivity|].
  cbn [total_below]. rewrite IH. destruct t; [reflexivity|].
  now contradiction Ht.
Qed.

(** Under a row that holds [top], the walk down subtracts the
    thicknesses, row by row. *)
Lemma total_below_prefix
      (below : list LayerRow) (rest tl : list (LayerRow * option Q))
      (r1 : LayerRow) (top : Q) :
  total_below rest = Returned ((r1, Some top) :: tl) ->
  exists res,
    total_below (map (fun r => (r, None)) below ++ rest)
    = Returned (res ++ (r1, Some top) :: tl) /\
    map fst res = below /\
    List.length res = List.length below /\
    forall i r, nth_error below i = Some r ->
                exists t, nth_error res i = Some (r, Some t) /\
                          t == top - sum_thickness (skipn i below).
Proof.
  intros Hrest. induction below as [|r0 below IH].
  - exists []. split; [exact Hrest|]. split; [reflexivity|].
    split; [reflexivity|]. intros [|i] r Hi; discriminate.
  - destruct IH as [res [E [M [L Hn]]]].
    cbn [map app total_below]. rewrite E.
    assert (Hhead : exists r2 t2 tl2,
               res ++ (r1, Some top) :: tl = (r2, Some t2) :: tl2 /\
               t2 == top - sum_thickness below).
    { destruct below as [|b below].
      - destruct res; [|discriminate]. exists r1, top, tl.
        split; [reflexivity|]. cbn. ring.
      - destruct (Hn 0%nat b eq_refl) as [t [Ht Et]].
        destruct res as [|x res]; [discriminate|].
        injection Ht as ->. exists b, t, (res ++ (r1, Some top) :: tl).
        split; [reflexivity|]. exact Et. }
    destruct Hhead as [r2 [t2 [tl2 [Eh Et2]]]]. rewrite Eh.
    cbn [nan_sub]. rewrite <- Eh.
    exists ((r0, Some (t2 - l_thickness r0)) :: res).
    split; [reflexivity|]. split; [cbn; now rewrite M|].
    split; [cbn; now rewrite L|].
    intros [|i] r Hi.
    + injection Hi as <-. eexists. split; [reflexivity|].
      cbn [skipn sum_thickness fold_right]. fold (sum_thickness below).
      rewrite Et2. ring.
    + cbn [nth_error skipn] in Hi |- *. now apply Hn.
Qed.

Lemma total_above_all_set (nd : bool) (rows : list LayerRow) :
  Forall not_defect rows ->
  forall p : Q,
    Forall (fun rt => snd rt <> None) (total_above nd true (Some p) rows).
Proof.
  induction 1 as [|r rows Hr Hrows IH]; intros p; [constructor|].
  cbn [total_above negb andb]. rewrite (not_defect_eqb r Hr). cbn [nan_add].
  constructor; [discriminate|apply IH].
Qed.

Lemma py_slice_stop_le (d : Z) (n : nat) : (py_slice_stop d n <= n)%nat.
Proof. unfold py_slice_stop. destruct (d <? 0)%Z eqn:E; lia. Qed.

Lemma total_thickness_with_defect_core
      (d : LayerRow) (below above : list LayerRow) :
  l_material d = "defect"%string ->
  Forall not_defect below -> Forall not_defect above ->
  let k := List.length below in
  let ins := below ++ d :: above in
  exists df,
    total_below (total_above false false None ins) = Returned df /\
    map fst df = ins /\
    forall i r,
      nth_error ins i = Some r ->
      exists t,
        nth_error df i = Some (r, Some t) /\
        t == if (i <=? k)%nat
             then - sum_thickness (firstn (k - i) (skipn i ins))
             else sum_thickness (firstn (i - k) (skipn (S k) ins)).
Proof.
  intros Hd Hb Ha k ins. unfold ins.
  rewrite (total_above_before_defect below above d Hb Hd).
  set (ta := total_above false true (Some 0) above).
  assert (Hrest : total_below ((d, Some 0) :: ta) = Returned ((d, Some 0) :: ta)).
  { apply total_below_all_set. constructor; [discriminate|].
    apply total_above_all_set. exact Ha. }
  destruct (total_below_prefix below _ ta d 0 Hrest) as [res [E [M [L Hn]]]].
  exists (res ++ (d, Some 0) :: ta). split; [exact E|]. split.
  { rewrite map_app. cbn [map fst]. unfold ta. now rewrite M, total_above_fst. }
  assert (Hsk : skipn (S k) (below ++ d :: above) = above).
  { unfold k. rewrite skipn_app, skipn_all2 by lia.
    replace (S (List.length below) - List.length below)%nat with 1%nat by lia.
    reflexivity. }
  intros i r Hi. destruct (Nat.leb_spec i k) as [Hle|Hgt].
  - destruct (Nat.eq_dec i k) as [->|Hne].
    + unfold k in *. rewrite nth_error_app2 in Hi |- * by lia.
      rewrite L. rewrite Nat.sub_diag in *. cbn in Hi. injection Hi as <-.
      exists 0. split; [reflexivity|]. cbn. reflexivity.
    + assert (Hlt : (i < List.length below)%nat) by (unfold k in *; lia).
      rewrite nth_error_app1 in Hi by lia.
      destruct (Hn i r Hi) as [t [Ht Et]]. exists t. split.
      * rewrite nth_error_app1 by lia. exact Ht.
      * rewrite Et. rewrite skipn_app.
        replace (i - List.length below)%nat with 0%nat by lia.
        cbn [skipn]. rewrite firstn_app.
        replace (k - i - List.length (skipn i below))%nat with 0%nat
          by (rewrite length_skipn; unfold k; lia).
        cbn [firstn]. rewrite app_nil_r.
        rewrite firstn_all2 by (rewrite length_skipn; unfold k; lia).
        ring.
  - unfold k in *. rewrite nth_error_app2 in Hi |- * by lia. rewrite L.
    destruct (i - List.length below)%nat as [|j] eqn:Ej; [lia|].
    cbn [nth_error] in Hi |- *.
    destruct (total_above_cumulative false above Ha 0 j r Hi) as [t [Ht Et]].
    exists t. split; [exact Ht|]. rewrite Et.
    fold (List.length below) in Hsk. rewrite Hsk. ring.
Qed.

(** X9: With a defect, every row of the table gets its height relative to
    the defect plane: the defect row 0, a row above it the thickness of
    the rows from the defect up to and including itself, a row under it
    minus the thickness of the rows from itself up to the defect, so a
    row under the defect holds the height of its lower face and a row
    above the height of its upper face.  No row is left at NaN. *)
Theorem total_thickness_with_defect
        (defect_x defect_y defect_thickness : Q) (defect_layer : Z)
        (rows : list LayerRow)
        (Hp : defect_present defect_x defect_y defect_thickness = true)
        (Hnd : Forall not_defect rows) :
  let k := py_slice_stop defect_layer (List.length rows) in
  let ins := insert_defect true defect_layer rows in
  exists df,
    add_total_thickness defect_x defect_y defect_thickness defect_layer rows
    = Returned df /\
    map fst df = ins /\
    nth_error ins k = Some (defect_row defect_layer) /\
    forall i r,
      nth_error ins i = Some r ->
      exists t,
        nth_error df i = Some (r, Some t) /\
        t == if (i <=? k)%nat
             then - sum_thickness (firstn (k - i) (skipn i ins))
             else sum_thickness (firstn (i - k) (skipn (S k) ins)).
Proof.
  intros k ins. unfold add_total_thickness. rewrite Hp. cbn [negb].
  fold ins.
  pose proof (py_slice_stop_le defect_layer (List.length rows)) as Hk.
  fold k in Hk.
  assert (Hlen : List.length (firstn k rows) = k)
    by (rewrite length_firstn; lia).
  assert (Hins : ins = firstn k rows ++ defect_row defect_layer :: skipn k rows).
  { unfold ins, insert_defect. fold k. now rewrite <- app_assoc. }
  assert (Hb : Forall not_defect (firstn k rows)).
  { rewrite <- (firstn_skipn k rows) in Hnd. now apply Forall_app in Hnd. }
  assert (Ha : Forall not_defect (skipn k rows)).
  { rewrite <- (firstn_skipn k rows) in Hnd. now apply Forall_app in Hnd. }
  destruct (total_thickness_with_defect_core
              (defect_row defect_layer) (firstn k rows) (skipn k rows)
              eq_refl Hb Ha) as [df [E [M Hn]]].
  rewrite Hlen in Hn. rewrite <- Hins in E, M, Hn.
  exists df. split; [exact E|]. split; [exact M|]. split; [|exact Hn].
  rewrite Hins, nth_error_app2 by lia. rewrite Hlen, Nat.sub_diag. reflexivity.
Qed.

Lemma total_thickness_with_defect_witness :
  let k := py_slice_stop 1 (List.length example_layers) in
  let ins := insert_defect true 1 example_layers in
  exists df,
    add_total_thickness 1 1 1 1 example_layers = Returned df /\
    map fst df = ins /\
    nth_error ins k = Some (defect_row 1) /\
    forall i r,
      nth_error ins i = Some r ->
      exists t,
        nth_error df i = Some (r, Some t) /\
        t == if (i <=? k)%nat
             then - sum_thickness (firstn (k - i) (skipn i ins))
             else sum_thickness (firstn (i - k) (skipn (S k) ins)).
Proof.
  apply (total_thickness_with_defect 1 1 1 1 example_layers).
  - reflexivity.
  - repeat constructor; discriminate.
Defined.

(** X10: Without a defect the count starts at the bottom row, which gets 0:
    a row holds the thickness of the rows above the bottom one up to and
    including itself, and the thickness of the bottom row is in no
    height. *)
Theorem total_thickness_without_defect
        (defect_x defect_y defect_thickness : Q) (defect_layer : Z)
        (rows : list LayerRow)
        (Hp : defect_present defect_x defect_y defect_thickness = false)
        (Hnd : Forall not_defect rows) :
  exists df,
    add_total_thickness defect_x defect_y defect_thickness defect_layer rows
    = Returned df /\
    map fst df = rows /\
    forall i r,
      nth_error rows i = Some r ->
      exists t,
        nth_error df i = Some (r, Some t) /\
        t == sum_thickness (firstn i (skipn 1 rows)).
Proof.
  unfold add_total_thickness. rewrite Hp. cbn [negb insert_defect].
  destruct rows as [|r0 rest].
  - exists []. split; [reflexivity|]. split; [reflexivity|].
    intros [|i] r Hi; discriminate.
  - inversion Hnd as [|? ? H0 Hrest]; subst.
    cbn [total_above negb andb].
    set (ta := total_above true true (Some 0) rest).
    exists ((r0, Some 0) :: ta). split.
    + apply total_below_all_set. constructor; [discriminate|].
      now apply total_above_all_set.
    + split; [cbn; unfold ta; now rewrite total_above_fst|].
      intros [|i] r Hi.
      * injection Hi as <-. exists 0. split; reflexivity.
      * cbn [nth_error skipn] in Hi |- *.
        destruct (total_above_cumulative true rest Hrest 0 i r Hi)
          as [t [Ht Et]].
        exists t. split; [exact Ht|]. rewrite Et. ring.
Qed.

Lemma total_thickness_without_defect_witness :
  exists df,
    add_total_thickness 0 1 1 1 example_layers = Returned df /\
    map fst df = example_layers /\
    forall i r,
      nth_error example_layers i = Some r ->
      exists t,
        nth_error df i = Some (r, Some t) /\
        t == sum_thickness (firstn i (skipn 1 example_layers)).
Proof.
  apply (total_thickness_without_defect 0 1 1 1 example_layers).
  - reflexivity.
  - repeat constructor; discriminate.
Defined.

(** ** The depths asked of the resampler *)

Lemma sum_thickness_nonneg (rows : list LayerRow) :
  Forall positive_thickness rows -> 0 <= sum_thickness rows.
Proof.
  induction 1 as [|r rows Hr Hrows IH]; [cbn; lra|].
  cbn [sum_thickness fold_right]. fold (sum_thickness rows).
  unfold positive_thickness in Hr. lra.
Qed.

Lemma required_values_app (a b : list (LayerRow * option Q)) :
  required_values (a ++ b) = required_values a ++ required_values b.
Proof. unfold required_values. apply flat_map_app. Qed.

Lemma required_values_negative (l : list (LayerRow * option Q)) :
  Forall (fun rt => exists t, snd rt = Some t /\ t < 0) l ->
  required_values l = [].
Proof.
  induction 1 as [|[r o] l [t [Ho Ht]] Hl IH]; [reflexivity|].
  cbn in Ho. subst o. cbn [required_values flat_map snd].
  fold (required_values l). rewrite IH.
  destruct (Qle_bool 0 t) eqn:E; [|reflexivity].
  apply Qle_bool_iff in E. lra.
Qed.

Lemma required_values_above (nd : bool) (rows : list LayerRow) :
  Forall not_defect rows -> Forall positive_thickness rows ->
  forall p : Q,
    0 <= p ->
    exists ts,
      required_values (total_above nd true (Some p) rows) = ts /\
      List.length ts = List.length rows /\
      StronglySorted Qlt ts /\
      Forall (fun t => p < t) ts.
Proof.
  intros Hnd Hpos. induction Hnd as [|r rows Hr Hrows IH]; intros p Hp.
  - exists []. repeat split; constructor.
  - inversion Hpos as [|? ? Hr0 Hpos']; subst.
    unfold positive_thickness in Hr0.
    cbn [total_above negb andb]. rewrite (not_defect_eqb r Hr).
    cbn [nan_add required_values flat_map snd].
    fold (required_values (total_above nd true (Some (l_thickness r + p)) rows)).
    assert (Hq : 0 <= l_thickness r + p) by lra.
    apply Qle_bool_iff in Hq. rewrite Hq.
    destruct (IH Hpos' (l_thickness r + p)) as [ts [E [L [S F]]]]; [lra|].
    rewrite E. exists (l_thickness r + p :: ts).
    split; [reflexivity|]. split; [cbn; now rewrite L|]. split.
    + constructor; [exact S|exact F].
    + constructor; [lra|].
      eapply Forall_impl; [|exact F]. intros t Ht. cbn in Ht. lra.
Qed.

Lemma Forall_firstn_skipn {A : Type} (P : A -> Prop) (k : nat) (l : list A) :
  Forall P l -> Forall P (firstn k l) /\ Forall P (skipn k l).
Proof.
  intros H. rewrite <- (firstn_skipn k l) in H. now apply Forall_app in H.
Qed.

Lemma insert_defect_split (defect_layer : Z) (rows : list LayerRow) :
  insert_defect true defect_layer rows
  = firstn (py_slice_stop defect_layer (List.length rows)) rows ++
    defect_row defect_layer ::
    skipn (py_slice_stop defect_layer (List.length rows)) rows.
Proof. unfold insert_defect. now rewrite <- app_assoc. Qed.

(** The two walks on a table split around its defect row: the rows
    under the defect end below 0, the defect row at 0, the rows above it
    at increasing heights. *)
Lemma required_values_split (d : LayerRow) (below above : list LayerRow) :
  l_material d = "defect"%string ->
  Forall not_defect below -> Forall not_defect above ->
  Forall positive_thickness below -> Forall positive_thickness above ->
  exists df ts,
    total_below (total_above false false None (below ++ d :: above))
    = Returned df /\
    required_values df = 0 :: ts /\
    List.length ts = List.length above /\
    StronglySorted Qlt (0 :: ts).
Proof.
  intros Hd Hb Ha Pb Pa.
  rewrite (total_above_before_defect _ _ d Hb Hd).
  set (ta := total_above false true (Some 0) above).
  assert (Hrest : total_below ((d, Some 0) :: ta) = Returned ((d, Some 0) :: ta)).
  { apply total_below_all_set. constructor; [discriminate|].
    now apply total_above_all_set. }
  destruct (total_below_prefix below _ ta d 0 Hrest) as [res [E [M [L Hn]]]].
  destruct (required_values_above false above Ha Pa 0) as
    [ts [Ets [Lts [Sts Fts]]]]; [lra|].
  exists (res ++ (d, Some 0) :: ta), ts.
  split; [exact E|].
  assert (Hneg : required_values res = []).
  { apply required_values_negative. apply Forall_of_nth_error.
    intros i [r o] Hi.
    assert (Hr : nth_error below i = Some r).
    { rewrite <- M, nth_error_map, Hi. reflexivity. }
    destruct (Hn i r Hr) as [t [Ht Et]].
    rewrite Hi in Ht. injection Ht as ->. exists t. split; [reflexivity|].
    assert (Hs : 0 < sum_thickness (skipn i below)).
    { apply nth_error_split in Hr. destruct Hr as [l1 [l2 [El Ll]]].
      rewrite El in Pb |- *. apply Forall_app in Pb. destruct Pb as [_ P2].
      rewrite skipn_app, skipn_all2 by lia.
      replace (i - List.length l1)%nat with 0%nat by lia.
      cbn [app skipn sum_thickness fold_right]. fold (sum_thickness l2).
      inversion P2 as [|? ? Hr0 Hl2]; subst.
      pose proof (sum_thickness_nonneg l2 Hl2).
      unfold positive_thickness in Hr0. lra. }
    lra. }
  split.
  - rewrite required_values_app, Hneg.
    cbn [app required_values flat_map snd].
    fold (required_values ta). unfold ta. rewrite Ets. reflexivity.
  - split; [exact Lts|]. constructor; [exact Sts|exact Fts].
Qed.

(** X11: With a defect and layers of positive thickness, the depths handed to
    the resampler are 0, for the defect row, followed by one depth for
    each row above it, strictly increasing; the rows under the defect,
    whose heights are negative, contribute none. *)
Theorem required_values_with_defect
        (defect_x defect_y defect_thickness : Q) (defect_layer : Z)
        (rows : list LayerRow)
        (Hp : defect_present defect_x defect_y defect_thickness = true)
        (Hnd : Forall not_defect rows)
        (Hpos : Forall positive_thickness rows) :
  exists df ts,
    add_total_thickness defect_x defect_y defect_thickness defect_layer rows
    = Returned df /\
    required_values df = 0 :: ts /\
    List.length ts
    = (List.length rows - py_slice_stop defect_layer (List.length rows))%nat /\
    StronglySorted Qlt (0 :: ts).
Proof.
  unfold add_total_thickness. rewrite Hp. cbn [negb].
  rewrite insert_defect_split.
  set (k := py_slice_stop defect_layer (List.length rows)).
  destruct (Forall_firstn_skipn _ k rows Hnd) as [Hb Ha].
  destruct (Forall_firstn_skipn _ k rows Hpos) as [Pb Pa].
  destruct (required_values_split (defect_row defect_layer)
              (firstn k rows) (skipn k rows) eq_refl Hb Ha Pb Pa)
    as [df [ts [E [Er [Lts Sts]]]]].
  exists df, ts. rewrite length_skipn in Lts. auto.
Qed.

Lemma required_values_with_defect_witness :
  exists df ts,
    add_total_thickness 1 1 1 1 example_layers = Returned df /\
    required_values df = 0 :: ts /\
    List.length ts
    = (List.length example_layers
       - py_slice_stop 1 (List.length example_layers))%nat /\
    StronglySorted Qlt (0 :: ts).
Proof.
  apply (required_values_with_defect 1 1 1 1 example_layers).
  - reflexivity.
  - repeat constructor; discriminate.
  - repeat constructor.
Defined.

(** ** Grid Writer: parity of the total thickness *)

Lemma snap_to_grid_floor (total delta_z : Q) :
  0 < delta_z ->
  snap_to_grid total delta_z == inject_Z (Qfloor (total / delta_z)) * delta_z /\
  Qfloor (snap_to_grid total delta_z / delta_z) = Qfloor (total / delta_z).
Proof.
  intros Hd.
  assert (E : snap_to_grid total delta_z
              == inject_Z (Qfloor (total / delta_z)) * delta_z).
  { unfold snap_to_grid. field. lra. }
  split; [exact E|].
  transitivity (Qfloor (inject_Z (Qfloor (total / delta_z))));
    [|apply Qfloor_Z].
  apply Qfloor_comp. rewrite E. field. lra.
Qed.

Lemma floor_bounds_scaled (total delta_z : Q) :
  0 < delta_z ->
  inject_Z (Qfloor (total / delta_z)) * delta_z <= total /\
  total < inject_Z (Qfloor (total / delta_z) + 1) * delta_z.
Proof.
  intros Hd.
  pose proof (Qfloor_le (total / delta_z)) as H1.
  pose proof (Qlt_floor (total / delta_z)) as H2.
  assert (E : total / delta_z * delta_z == total) by (field; lra).
  split.
  - rewrite <- E at 2. apply Qmult_le_compat_r; [exact H1|lra].
  - rewrite <- E at 1. apply Qmult_lt_compat_r; [exact Hd|exact H2].
Qed.

Lemma total_thickness_mask_odd_core (total delta_z : Q) :
  0 < delta_z ->
  exists n : Z,
    is_even n = false /\
    total_thickness_mask_odd total delta_z == inject_Z n * delta_z /\
    (n = Qfloor (total / delta_z) \/ n = (Qfloor (total / delta_z) + 1)%Z).
Proof.
  intros Hd. destruct (snap_to_grid_floor total delta_z Hd) as [Es Ef].
  unfold total_thickness_mask_odd. rewrite Ef.
  destruct (is_even (Qfloor (total / delta_z))) eqn:E.
  - exists (Qfloor (total / delta_z) + 1)%Z. split; [|split; [|now right]].
    + rewrite Z.add_comm. now apply is_even_odd_succ.
    + rewrite Es, inject_Z_plus. change (inject_Z 1) with 1. ring.
  - exists (Qfloor (total / delta_z)). split; [exact E|]. split; [exact Es|].
    now left.
Qed.

(** X12: For a positive [delta_z] the block leaves an odd multiple of
    [delta_z], less than one step away from the value it started from,
    and it does not move a value that is an odd multiple already. *)
Theorem total_thickness_mask_odd_multiple (total delta_z : Q)
        (Hd : 0 < delta_z) :
  (exists n : Z, is_even n = false /\
                 total_thickness_mask_odd total delta_z == inject_Z n * delta_z) /\
  total - delta_z < total_thickness_mask_odd total delta_z /\
  total_thickness_mask_odd total delta_z <= total + delta_z /\
  (forall n : Z, is_even n = false -> total == inject_Z n * delta_z ->
                 total_thickness_mask_odd total delta_z == total).
Proof.
  destruct (total_thickness_mask_odd_core total delta_z Hd) as [n [Hn [En Hc]]].
  destruct (floor_bounds_scaled total delta_z Hd) as [B1 B2].
  rewrite inject_Z_plus in B2. change (inject_Z 1) with 1 in B2.
  split; [exists n; auto|].
  assert (Hr : total - delta_z < total_thickness_mask_odd total delta_z /\
               total_thickness_mask_odd total delta_z <= total + delta_z).
  { rewrite En. destruct Hc as [->| ->].
    - split; lra.
    - rewrite inject_Z_plus. change (inject_Z 1) with 1. split; lra. }
  destruct Hr as [R1 R2]. split; [exact R1|]. split; [exact R2|].
  intros k Hk Ek.
  assert (Hf : Qfloor (total / delta_z) = k).
  { rewrite <- (Qfloor_Z k). apply Qfloor_comp. rewrite Ek. field. lra. }
  rewrite En, Ek. destruct Hc as [->| ->].
  - now rewrite Hf.
  - exfalso. rewrite Hf in Hn.
    assert (Hk' : is_even (k + 1) = true).
    { unfold is_even in *. apply Z.eqb_neq in Hk. apply Z.eqb_eq.
      pose proof (Z.mod_pos_bound k 2 ltac:(lia)) as Hb.
      rewrite Z.add_mod by lia.
      replace (k mod 2)%Z with 1%Z by lia. reflexivity. }
    congruence.
Qed.

Lemma total_thickness_mask_odd_multiple_witness :
  (exists n : Z, is_even n = false /\
                 total_thickness_mask_odd (3105 # 10) 1 == inject_Z n * 1) /\
  (3105 # 10) - 1 < total_thickness_mask_odd (3105 # 10) 1 /\
  total_thickness_mask_odd (3105 # 10) 1 <= (3105 # 10) + 1 /\
  (forall n : Z, is_even n = false -> (3105 # 10) == inject_Z n * 1 ->
                 total_thickness_mask_odd (3105 # 10) 1 == (3105 # 10)).
Proof.
  apply (total_thickness_mask_odd_multiple (3105 # 10) 1). reflexivity.
Defined.

(** ** Stack Assembler and Grid Writer together *)

Lemma ceiling_bounds_scaled (total dz : Q) :
  0 < dz ->
  inject_Z (math_ceil (total / dz) - 1) * dz < total /\
  total <= inject_Z (math_ceil (total / dz)) * dz.
Proof.
  intros Hd. unfold math_ceil.
  pose proof (Qle_ceiling (total / dz)) as H1.
  pose proof (Qceiling_lt (total / dz)) as H2.
  assert (E : total / dz * dz == total) by (field; lra).
  split.
  - rewrite <- E at 2. apply Qmult_lt_compat_r; [exact Hd|exact H2].
  - rewrite <- E at 1. apply Qmult_le_compat_r; [exact H1|lra].
Qed.

Lemma inject_Z_pred (z : Z) : inject_Z (z - 1) == inject_Z z - 1.
Proof.
  unfold Z.sub. rewrite inject_Z_plus. reflexivity.
Qed.

Lemma total_thickness_rounded_cases (mask_stack : list StackRow) (delta_z : Q) :
  let dz := delta_z * (1 # 1000) in
  let c := math_ceil (total_thickness mask_stack / dz) in
  exists k : Z,
    is_even k = false /\ (k = c \/ k = (c - 1)%Z) /\
    total_thickness_rounded mask_stack delta_z == inject_Z k * dz.
Proof.
  intros dz c. unfold total_thickness_rounded. fold dz. fold c.
  destruct (is_even c) eqn:E.
  - exists (c - 1)%Z. split; [now apply is_even_pred|]. split; [now right|ring].
  - exists c. split; [exact E|]. split; [now left|ring].
Qed.

(** X13: The air top is moved by less than one grid step: down by at most a
    step, up by less than a step. *)
Theorem airtop_adjustment_within_a_step
        (mask_stack : list StackRow) (delta_z : Q)
        (Hd : 0 < delta_z) :
  let dz := delta_z * (1 # 1000) in
  let shift := adjusted_airtop_thickness mask_stack delta_z
               - Airtop_thickness * (1 # 1000) in
  - dz <= shift /\ shift < dz /\
  (delta_z < Airtop_thickness ->
   0 < adjusted_airtop_thickness mask_stack delta_z).
Proof.
  intros dz shift.
  assert (Hdz : 0 < dz) by (unfold dz; lra).
  destruct (total_thickness_rounded_cases mask_stack delta_z)
    as [k [_ [Hk Ek]]]. fold dz in Hk, Ek.
  destruct (ceiling_bounds_scaled (total_thickness mask_stack) dz Hdz)
    as [B1 B2].
  assert (Es : shift == total_thickness_rounded mask_stack delta_z
                        - total_thickness mask_stack).
  { unfold shift, adjusted_airtop_thickness. ring. }
  assert (Hb : - dz <= shift /\ shift < dz).
  { rewrite Es, Ek. rewrite inject_Z_pred in B1.
    destruct Hk as [->| ->]; [|rewrite inject_Z_pred]; split; lra. }
  destruct Hb as [Hb1 Hb2]. split; [exact Hb1|]. split; [exact Hb2|].
  intros Hlt. unfold shift, dz in *. lra.
Qed.

Lemma airtop_adjustment_within_a_step_witness :
  let dz := 1 * (1 # 1000) in
  let shift := adjusted_airtop_thickness example_stack 1
               - Airtop_thickness * (1 # 1000) in
  - dz <= shift /\ shift < dz /\
  (1 < Airtop_thickness -> 0 < adjusted_airtop_thickness example_stack 1).
Proof.
  apply (airtop_adjustment_within_a_step example_stack 1). reflexivity.
Defined.

Lemma fold_left_plus (g : StackRow -> Q) (l : list StackRow) :
  forall a : Q,
    fold_left (fun acc r => acc + g r) l a
    == a + fold_right (fun r acc => g r + acc) 0 l.
Proof.
  induction l as [|r l IH]; intros a; cbn [fold_left fold_right]; [ring|].
  rewrite IH. ring.
Qed.

Lemma fold_right_scaled (l : list StackRow) :
  fold_right (fun r acc => thickness r * 1000 + acc) 0 l
  == 1000 * fold_right (fun r acc => thickness r + acc) 0 l.
Proof.
  induction l as [|r l IH]; cbn [fold_right]; [ring|]. rewrite IH. ring.
Qed.

Lemma total_thickness_mask_scaled (stack : list StackRow) :
  total_thickness_mask stack
  == 1000 * fold_left (fun acc r => acc + thickness r) stack 0.
Proof.
  unfold total_thickness_mask.
  rewrite (fold_left_plus (fun r => thickness r * 1000)).
  rewrite (fold_left_plus thickness), fold_right_scaled. ring.
Qed.

(** X14: The table the Stack Assembler writes passes the Grid Writer's check
    untouched: read back in nm, its thicknesses add up to an odd multiple
    of [delta_z], which the parity block returns as it is. *)
Theorem written_stack_total_is_kept
        (mask_stack : list StackRow) (delta_z : Q) (n : Z)
        (Hd : 0 < delta_z)
        (Hair : forall r, In r mask_stack -> String.eqb (material r) "air" = false)
        (Hfmt : adjusted_airtop_thickness mask_stack delta_z * inject_Z (10 ^ 8)
                == inject_Z n) :
  let total := total_thickness_mask (mask_stack_adjusted mask_stack delta_z) in
  (exists k : Z, is_even k = false /\ total == inject_Z k * delta_z) /\
  total_thickness_mask_odd total delta_z == total.
Proof.
  intros total.
  destruct (total_thickness_rounded_cases mask_stack delta_z)
    as [k [Hk [_ Ek]]].
  assert (Et : total == inject_Z k * delta_z).
  { unfold total. rewrite total_thickness_mask_scaled.
    rewrite (mask_stack_adjusted_total mask_stack delta_z n Hair Hfmt).
    rewrite Ek. ring. }
  split; [exists k; auto|].
  destruct (total_thickness_mask_odd_core total delta_z Hd) as [j [Hj [Ej Hc]]].
  assert (Hf : Qfloor (total / delta_z) = k).
  { rewrite <- (Qfloor_Z k). apply Qfloor_comp. rewrite Et. field. lra. }
  rewrite Ej, Et. destruct Hc as [->| ->].
  - now rewrite Hf.
  - exfalso. rewrite Hf in Hj.
    unfold is_even in Hk, Hj. apply Z.eqb_neq in Hk, Hj.
    pose proof (Z.mod_pos_bound k 2 ltac:(lia)) as Hb.
    apply Hj. rewrite Z.add_mod by lia.
    replace (k mod 2)%Z with 1%Z by lia. reflexivity.
Qed.

Lemma written_stack_total_is_kept_witness :
  let total := total_thickness_mask (mask_stack_adjusted example_stack 1) in
  (exists k : Z, is_even k = false /\ total == inject_Z k * 1) /\
  total_thickness_mask_odd total 1 == total.
Proof.
  apply (written_stack_total_is_kept example_stack 1 21950000).
  - reflexivity.
  - intros r Hr. cbn in Hr.
    repeat (destruct Hr as [<-|Hr]; [reflexivity|]). contradiction.
  - vm_compute. reflexivity.
Defined.

(** ** Overlap Resolver: how a call ends *)

Lemma walk_returns_or_exits (df_input : list Frame.Row) (lines : list nat) :
  forall st,
    (exists st', Frame.walk df_input lines st = Returned st') \/
    (exists c, Frame.walk df_input lines st
               = SysExit c (Z.of_nat (List.length (Frame.times df_input)))).
Proof.
  induction lines as [|k lines IH]; intros st; simpl.
  - left. eauto.
  - destruct (Frame.too_many_overlaps df_input (Frame.walk_body df_input k st)).
    + right. eauto.
    + apply IH.
Qed.

(** With one or two lines the loop has no pass and the line after the
    loop finds [df_nextline] unbound. *)
Lemma detectOverwriteOverlap_no_pass (df_input : list Frame.Row) :
  List.length (Frame.times df_input) = 1%nat \/
  List.length (Frame.times df_input) = 2%nat ->
  Frame.detectOverwriteOverlap df_input = Raised NameError.
Proof.
  intros Hn. unfold Frame.detectOverwriteOverlap, Frame.counter_lines.
  replace (List.length (Frame.times df_input) - 2)%nat with 0%nat by lia.
  destruct (Frame.times df_input) as [|t ts] eqn:E; [cbn in Hn; lia|].
  reflexivity.
Qed.

(** X15: How [detectOverwriteOverlap] ends, by the number of distinct times of
    its table: with none it raises [IndexError]; with one or two the loop
    never runs, [df_nextline] is never bound and the append after the
    loop raises [NameError]; with three or more it returns a table or
    exits with the overlap diagnostic. *)
Theorem detectOverwriteOverlap_by_line_count (df_input : list Frame.Row) :
  let n := List.length (Frame.times df_input) in
  (n = 0%nat -> Frame.detectOverwriteOverlap df_input = Raised IndexError) /\
  (n = 1%nat \/ n = 2%nat ->
   Frame.detectOverwriteOverlap df_input = Raised NameError) /\
  ((3 <= n)%nat ->
   (exists out, Frame.detectOverwriteOverlap df_input = Returned out) \/
   (exists c, Frame.detectOverwriteOverlap df_input = SysExit c (Z.of_nat n))).
Proof.
  intros n. split; [|split].
  - intros Hn. unfold Frame.detectOverwriteOverlap.
    destruct (Frame.times df_input); [reflexivity|discriminate].
  - apply detectOverwriteOverlap_no_pass.
  - intros Hn. unfold Frame.detectOverwriteOverlap, Frame.counter_lines.
    fold n.
    destruct (walk_returns_or_exits df_input (seq 1 (n - 2))
                (Frame.initial_state df_input)) as [[st Hst]|[c Hc]].
    + left. rewrite Hst.
      apply walk_returned in Hst. rewrite Hst.
      rewrite (walk_through_nextline df_input (n - 2)).
      destruct (n - 2)%nat eqn:E; [lia|].
      destruct (Frame.times df_input); [cbn in n; lia|]. eauto.
    + right. exists c. rewrite Hc. fold n.
      destruct (Frame.times df_input); [cbn in n; lia|]. reflexivity.
Qed.

(** ** Depth Resampler: the times of the result *)

Lemma interpolate_times (df : list Frame.Sample) (value start stop : Q)
      (rows : list Frame.Row) :
  Frame.interpolate df value start stop = Returned rows ->
  Forall (fun r => Frame.time r = value) rows /\
  (rows = [] -> False).
Proof.
  unfold Frame.interpolate.
  set (df_temp1 := filter _ df).
  set (cols := sort_values Qle_bool _).
  set (cells := sort_values xy_leb _).
  intros H.
  assert (Hne : df_temp1 <> []).
  { intros E. unfold cols in H. rewrite E in H. cbn in H. discriminate. }
  destruct cols as [|c0 [|c1 cols']]; try discriminate.
  injection H as <-. split.
  - apply Forall_map. apply Forall_forall. reflexivity.
  - intros E. apply map_eq_nil in E.
    destruct df_temp1 as [|s rest]; [now apply Hne|].
    assert (Hin : In (Frame.s_x s, Frame.s_y s) cells).
    { unfold cells. apply sort_values_In.
      apply (drop_duplicates_In xy_eqb xy_eqb_spec). now left. }
    rewrite E in Hin. exact Hin.
Qed.

Lemma resample_value_times (df : list Frame.Sample) (v : Q)
      (rows : list Frame.Row) :
  Frame.resample_value df v = Returned rows ->
  Forall (fun r => Frame.time r == v) rows /\ (rows = [] -> False).
Proof.
  unfold Frame.resample_value.
  set (times := Frame.unique (map Frame.s_time df)).
  destruct (existsb (Qeq_bool v) times) eqn:E.
  - intros H. injection H as <-. split.
    + apply Forall_map. apply Forall_forall. intros s Hs.
      apply filter_In in Hs. destruct Hs as [_ Hs].
      apply Qeq_bool_iff in Hs. exact Hs.
    + intros Hnil. apply map_eq_nil in Hnil.
      apply existsb_exists in E. destruct E as [t [Ht Etv]].
      apply Qeq_bool_iff in Etv.
      apply unique_sub, in_map_iff in Ht. destruct Ht as [s [<- Hs]].
      assert (Hin : In s (filter (fun s => Qeq_bool (Frame.s_time s) v) df)).
      { apply filter_In. split; [exact Hs|].
        apply Qeq_bool_iff. now symmetry. }
      rewrite Hnil in Hin. exact Hin.
  - destruct (Frame.argmin _) as [index|]; [|discriminate].
    assert (Hint : forall start stop,
               Frame.interpolate df v start stop = Returned rows ->
               Forall (fun r => Frame.time r == v) rows /\ (rows = [] -> False)).
    { intros start stop H. apply interpolate_times in H.
      destruct H as [H1 H2]. split; [|exact H2].
      eapply Forall_impl; [|exact H1]. intros r ->. reflexivity. }
    destruct (Frame.Qlt_bool v (nth index times 0)).
    + destruct (Frame.np_getitem times _); [|discriminate]. apply Hint.
    + destruct (nth_error times (S index)); [|discriminate]. apply Hint.
Qed.

Lemma resample_loop_times (df : list Frame.Sample) (all : list Q) :
  forall (series : list Q) (acc out : list Frame.Row),
    incl series all ->
    Forall (required_time all) acc ->
    Frame.resample_loop df series acc = Returned out ->
    Forall (required_time all) out.
Proof.
  induction series as [|v series IH]; intros acc out Hincl Hacc H; simpl in H.
  - now injection H as <-.
  - destruct (Frame.resample_value df v) as [rows| | |] eqn:E; try discriminate.
    apply (IH (acc ++ rows) out); [|
      |exact H].
    + intros w Hw. apply Hincl. now right.
    + apply Forall_app. split; [exact Hacc|].
      apply resample_value_times in E. destruct E as [E _].
      eapply Forall_impl; [|exact E]. intros r Hr.
      exists v. split; [apply Hincl; now left|exact Hr].
Qed.

Lemma resample_loop_covers (df : list Frame.Sample) :
  forall (series : list Q) (acc out : list Frame.Row),
    Frame.resample_loop df series acc = Returned out ->
    incl acc out /\
    forall v, In v series -> exists r, In r out /\ Frame.time r == v.
Proof.
  induction series as [|v series IH]; intros acc out H; simpl in H.
  - injection H as <-. split; [apply incl_refl|]. intros v [].
  - destruct (Frame.resample_value df v) as [rows| | |] eqn:E; try discriminate.
    destruct (IH _ _ H) as [Hincl Hcov]. split.
    + intros r Hr. apply Hincl. apply in_or_app. now left.
    + intros w [<-|Hw]; [|now apply Hcov].
      apply resample_value_times in E. destruct E as [Et Ene].
      destruct rows as [|r rows]; [now exfalso; apply Ene|].
      exists r. split.
      * apply Hincl. apply in_or_app. right. now left.
      * inversion Et; subst. assumption.
Qed.

Lemma series_min_le (a : Q) (s : list (option Q)) :
  In (Some a) s -> exists m, series_min s = Some m /\ m <= a.
Proof.
  induction s as [|[b|] s IH]; simpl.
  - intros [].
  - intros [E|H].
    + injection E as ->. destruct (series_min s) as [m|].
      * exists (Qmin a m). split; [reflexivity|apply Q.le_min_l].
      * exists a. split; [reflexivity|apply Qle_refl].
    + destruct (IH H) as [m [Em Hm]]. rewrite Em.
      exists (Qmin b m). split; [reflexivity|].
      eapply Qle_trans; [apply Q.le_min_r|exact Hm].
  - intros [E|H]; [discriminate|]. now apply IH.
Qed.

Lemma near_series_required (series : list Q) (t v : Q) :
  In v series -> t == v -> Frame.near_series series t = true.
Proof.
  intros Hin E. unfold Frame.near_series.
  assert (H : In (Some (Qabs (v - t)))
                 (map (fun s => Some (Qabs (s - t))) series)).
  { apply in_map_iff. exists v. auto. }
  apply series_min_le in H. destruct H as [m [Em Hm]]. rewrite Em.
  apply Qlt_bool_iff.
  assert (H0 : Qabs (v - t) == 0).
  { assert (Ez : v - t == 0) by (rewrite E; ring). rewrite Ez. reflexivity. }
  rewrite H0 in Hm. eapply Qle_lt_trans; [exact Hm|reflexivity].
Qed.

(** The second pass finds every time of the table near a required
    value and drops nothing. *)
Lemma drop_unrequired_keeps (series : list Q) (df_tmp : list Frame.Row) :
  Forall (required_time series) df_tmp ->
  Frame.drop_unrequired series df_tmp = df_tmp.
Proof.
  intros Hreq. unfold Frame.drop_unrequired.
  assert (Hall : Forall (fun t => Frame.near_series series t = true)
                        (Frame.unique (map Frame.time df_tmp))).
  { apply Forall_forall. intros t Ht.
    apply unique_sub, in_map_iff in Ht. destruct Ht as [r [<- Hr]].
    rewrite Forall_forall in Hreq. destruct (Hreq r Hr) as [v [Hv E]].
    now apply (near_series_required series _ v). }
  induction Hall as [|t ts Ht Hts IH]; [reflexivity|].
  cbn [fold_left]. rewrite Ht. exact IH.
Qed.

(** What a returned table is made of: the rows of the first pass,
    sorted twice, all at required times. *)
Lemma changeDataRes_returned (df : list Frame.Sample) (series : list Q)
      (out : list Frame.Row) :
  Frame.changeDataRes df series = Returned out ->
  exists df_tmp,
    Frame.resample_loop df series [] = Returned df_tmp /\
    Forall (required_time series) df_tmp /\
    out = sort_values Frame.row_leb (sort_values Frame.row_leb df_tmp).
Proof.
  unfold Frame.changeDataRes. intros H.
  destruct (Frame.resample_loop df series []) as [df_tmp| | |] eqn:E;
    try discriminate.
  destruct series as [|v0 series']; [discriminate|].
  set (series := v0 :: series') in *.
  injection H as <-.
  assert (Hreq : Forall (required_time series) df_tmp).
  { apply (resample_loop_times df series series [] df_tmp);
      [apply incl_refl|constructor|exact E]. }
  assert (Hsorted : Forall (required_time series)
                           (sort_values Frame.row_leb df_tmp)).
  { apply Forall_forall. intros r Hr. apply sort_values_In in Hr.
    rewrite Forall_forall in Hreq. now apply Hreq. }
  rewrite (drop_unrequired_keeps series _ Hsorted).
  exists df_tmp. auto.
Qed.

(** X16: A table that [changeDataRes] returns holds the required depths and
    nothing else: the time of every row is a required value, every
    required value is the time of some row, and the second pass, which is
    to delete the times that were not asked for, removes no row of what
    the first pass built. *)
Theorem changeDataRes_times_are_required
        (df : list Frame.Sample) (series : list Q) (out : list Frame.Row)
        (H : Frame.changeDataRes df series = Returned out) :
  Forall (required_time series) out /\
  (forall v, In v series -> exists r, In r out /\ Frame.time r == v) /\
  exists df_tmp,
    Frame.resample_loop df series [] = Returned df_tmp /\
    List.length out = List.length df_tmp /\
    forall r, In r out <-> In r df_tmp.
Proof.
  apply changeDataRes_returned in H. destruct H as [df_tmp [E [Hreq ->]]].
  assert (Hin : forall r,
             In r (sort_values Frame.row_leb (sort_values Frame.row_leb df_tmp))
             <-> In r df_tmp).
  { intros r. now rewrite !sort_values_In. }
  split; [|split].
  - apply Forall_forall. intros r Hr. apply Hin in Hr.
    rewrite Forall_forall in Hreq. now apply Hreq.
  - intros v Hv. destruct (resample_loop_covers df series [] df_tmp E)
      as [_ Hcov].
    destruct (Hcov v Hv) as [r [Hr Et]]. exists r. split; [|exact Et].
    now apply Hin.
  - exists df_tmp. split; [exact E|]. split; [|exact Hin].
    now rewrite !sort_values_length.
Qed.

Lemma changeDataRes_times_are_required_witness :
  exists out,
    Frame.changeDataRes
      [Frame.mkSample 0 0 0 4; Frame.mkSample 2 0 0 2] [0; 1] = Returned out /\
    Forall (required_time [0; 1]) out /\
    (forall v, In v [0; 1] -> exists r, In r out /\ Frame.time r == v) /\
    exists df_tmp,
      Frame.resample_loop
        [Frame.mkSample 0 0 0 4; Frame.mkSample 2 0 0 2] [0; 1] []
      = Returned df_tmp /\
      List.length out = List.length df_tmp /\
      forall r, In r out <-> In r df_tmp.
Proof.
  eexists. split; [vm_compute; reflexivity|].
  apply (changeDataRes_times_are_required
           [Frame.mkSample 0 0 0 4; Frame.mkSample 2 0 0 2] [0; 1]).
  vm_compute. reflexivity.
Defined.

(** ** From the array to the table *)

Section ArrayToTable.
Variables delta_t factor : Q.
Variables delta_x delta_y : Z.
Hypothesis delta_t_pos : 0 < delta_t.
Hypothesis factor_pos : 0 < factor.

Lemma slice_rows_cells (t : nat) (img : image) :
  slice_rows delta_t factor delta_x delta_y t img
  = map (fun c => Frame.mkSample (slice_time delta_t factor t)
                                 (Z.of_nat (fst (fst c)) * delta_x)
                                 (Z.of_nat (snd (fst c)) * delta_y)
                                 (snd c / factor))
        (cells img).
Proof.
  unfold slice_rows, cells, slice_time.
  induction (combine (seq 0 (List.length img)) img) as [|xr l IH];
    [reflexivity|].
  cbn [flat_map]. rewrite map_app, IH. f_equal.
  rewrite map_map. reflexivity.
Qed.

Lemma in_combine_seq_exists {A : Type} (a : A) (l : list A) :
  forall start, In a l ->
                exists i, In (i, a) (combine (seq start (List.length l)) l).
Proof.
  induction l as [|b l IH]; intros start; [intros []|].
  intros [->|H].
  - exists start. now left.
  - destruct (IH (S start) H) as [i Hi]. exists i. now right.
Qed.

Lemma cells_has_cell (img : image) : has_cell img -> cells img <> [].
Proof.
  intros [row [v [Hrow Hv]]] E.
  destruct (in_combine_seq_exists row img 0 Hrow) as [i Hi].
  destruct (in_combine_seq_exists v row 0 Hv) as [j Hj].
  assert (Hin : In (i, j, v) (cells img)).
  { unfold cells. apply in_flat_map. exists (i, row). split; [exact Hi|].
    apply in_map_iff. exists (j, v). split; [reflexivity|exact Hj]. }
  rewrite E in Hin. exact Hin.
Qed.

Lemma to_frame_from_cons (start : nat) (img : image) (u : list image) :
  to_frame_from delta_t factor delta_x delta_y start (img :: u)
  = slice_rows delta_t factor delta_x delta_y start img ++
    to_frame_from delta_t factor delta_x delta_y (S start) u.
Proof. reflexivity. Qed.

Lemma to_frame_from_time (u : list image) :
  forall start s,
    In s (to_frame_from delta_t factor delta_x delta_y start u) ->
    exists t, (start <= t)%nat /\ Frame.s_time s = slice_time delta_t factor t.
Proof.
  induction u as [|img u IH]; intros start s; [intros []|].
  rewrite to_frame_from_cons. intros H. apply in_app_or in H.
  destruct H as [H|H].
  - rewrite slice_rows_cells in H. apply in_map_iff in H.
    destruct H as [c [<- _]]. exists start. split; [lia|reflexivity].
  - destruct (IH (S start) s H) as [t [Ht Et]]. exists t. split; [lia|exact Et].
Qed.

Lemma slice_time_lt (t t' : nat) :
  (t < t')%nat -> slice_time delta_t factor t < slice_time delta_t factor t'.
Proof.
  intros H. unfold slice_time.
  assert (Hz : inject_Z (Z.of_nat t) < inject_Z (Z.of_nat t'))
    by (rewrite <- Zlt_Qlt; lia).
  apply Qlt_shift_div_l; [exact factor_pos|].
  assert (E : inject_Z (Z.of_nat t) * delta_t / factor * factor
              == inject_Z (Z.of_nat t) * delta_t) by (field; lra).
  rewrite E. apply Qmult_lt_compat_r; assumption.
Qed.

Lemma slice_time_shift (k : nat) :
  slice_time delta_t factor (2 + k) - slice_time delta_t factor 2
  == slice_time delta_t factor k.
Proof.
  unfold slice_time. rewrite Nat2Z.inj_add, inject_Z_plus.
  change (inject_Z (Z.of_nat 2)) with 2. field. lra.
Qed.
Lemma drop_duplicates_from_seen (seen l rest : list Q) :
  Forall (fun t => existsb (Qeq_bool t) seen = true) l ->
  drop_duplicates_from Qeq_bool seen (l ++ rest)
  = drop_duplicates_from Qeq_bool seen rest.
Proof.
  induction 1 as [|t l Ht Hl IH]; [reflexivity|].
  cbn [app drop_duplicates_from]. rewrite Ht. exact IH.
Qed.

Lemma existsb_Qeq_head (a : Q) (seen : list Q) :
  existsb (Qeq_bool a) (a :: seen) = true.
Proof. cbn. now rewrite Qeq_bool_refl. Qed.

(** The times of a table that starts with a block at time [a] followed by
    a block at another time [b]. *)
Lemma unique_two_blocks (a b : Q) (l0 l1 rest : list Q) :
  Forall (eq a) l0 -> Forall (eq b) l1 -> ~ a == b ->
  exists tl, Frame.unique ((a :: l0) ++ (b :: l1) ++ rest) = a :: b :: tl.
Proof.
  intros H0 H1 Hne. unfold Frame.unique, drop_duplicates.
  cbn [app drop_duplicates_from existsb].
  rewrite drop_duplicates_from_seen.
  - cbn [drop_duplicates_from existsb orb].
    destruct (Qeq_bool b a) eqn:E.
    + apply Qeq_bool_iff in E. exfalso. apply Hne. now symmetry.
    + eexists. reflexivity.
  - eapply Forall_impl; [|exact H0]. intros t <-. apply existsb_Qeq_head.
Qed.

Lemma unique_one_block (a : Q) (l0 : list Q) :
  Forall (eq a) l0 -> Frame.unique (a :: l0) = [a].
Proof.
  intros H0. unfold Frame.unique, drop_duplicates.
  cbn [drop_duplicates_from existsb]. f_equal.
  rewrite <- (app_nil_r l0). rewrite drop_duplicates_from_seen; [reflexivity|].
  eapply Forall_impl; [|exact H0]. intros t <-. apply existsb_Qeq_head.
Qed.

(** The times of one slice: as many copies of its time as it has cells. *)
Lemma slice_rows_times (t : nat) (img : image) :
  has_cell img ->
  exists l, map Frame.s_time (slice_rows delta_t factor delta_x delta_y t img)
            = slice_time delta_t factor t :: l /\
            Forall (eq (slice_time delta_t factor t)) l.
Proof.
  intros Hc. rewrite slice_rows_cells, map_map. cbn [Frame.s_time].
  apply cells_has_cell in Hc. destruct (cells img) as [|c l]; [contradiction|].
  exists (map (fun _ => slice_time delta_t factor t) l).
  split; [reflexivity|]. apply Forall_map, Forall_forall. reflexivity.
Qed.

Lemma series_min_ge (a : Q) (s : list (option Q)) :
  (forall b, In (Some b) s -> a <= b) ->
  forall m, series_min s = Some m -> a <= m.
Proof.
  induction s as [|[b|] s IH]; intros H m; cbn [series_min].
  - discriminate.
  - destruct (series_min s) as [m'|] eqn:E; intros Em; injection Em as <-.
    + apply Q.min_glb; [apply H; now left|].
      apply IH; [|reflexivity]. intros c Hc. apply H. now right.
    + apply H. now left.
  - apply IH. intros c Hc. apply H. now right.
Qed.

Lemma series_min_head (a : Q) (s : list (option Q)) :
  (forall b, In (Some b) s -> a <= b) ->
  exists m, series_min (Some a :: s) = Some m /\ m == a.
Proof.
  intros H. cbn [series_min]. destruct (series_min s) as [m'|] eqn:E.
  - exists (Qmin a m'). split; [reflexivity|].
    apply Q.min_l. now apply (series_min_ge a s H).
  - exists a. split; reflexivity.
Qed.

(** Shifting the times of the slices from [s] on by [m] gives the table
    of the same slices counted from [s'], when the times agree. *)
Lemma shift_to_frame_from (m : Q) (u : list image) :
  forall s s',
    (forall k, slice_time delta_t factor (s + k) - m
               == slice_time delta_t factor (s' + k)) ->
    Forall2 sample_eq
      (map (fun r => Frame.mkSample (Frame.s_time r - m) (Frame.s_x r)
                                    (Frame.s_y r) (Frame.s_data r))
           (to_frame_from delta_t factor delta_x delta_y s u))
      (to_frame_from delta_t factor delta_x delta_y s' u).
Proof.
  induction u as [|img u IH]; intros s s' H; [constructor|].
  rewrite !to_frame_from_cons, map_app. apply Forall2_app.
  - rewrite !slice_rows_cells, map_map. apply Forall2_map_same.
    intros c _. repeat split; cbn.
    specialize (H 0%nat). now rewrite !Nat.add_0_r in H.
  - apply IH. intros k. specialize (H (S k)).
    now rewrite !Nat.add_succ_r in H.
Qed.

Lemma slice_rows_time (t : nat) (img : image) (s : Frame.Sample) :
  In s (slice_rows delta_t factor delta_x delta_y t img) ->
  Frame.s_time s = slice_time delta_t factor t.
Proof.
  rewrite slice_rows_cells. intros H. apply in_map_iff in H.
  destruct H as [c [<- _]]. reflexivity.
Qed.

Lemma Qeq_bool_slice_time (t t' : nat) :
  (t < t')%nat ->
  Qeq_bool (slice_time delta_t factor t') (slice_time delta_t factor t) = false.
Proof.
  intros H. apply slice_time_lt in H. now apply Qeq_bool_lt_false in H.
Qed.

Lemma drop_warmup_core (img0 img1 : image) (rest : list image) :
  Forall has_cell (img0 :: img1 :: rest) ->
  exists out,
    drop_warmup (to_frame delta_t factor delta_x delta_y (img0 :: img1 :: rest))
    = Returned out /\
    Forall2 sample_eq out (to_frame delta_t factor delta_x delta_y rest).
Proof.
  intros Hc. inversion Hc as [|? ? Hc0 Hc']; subst.
  inversion Hc' as [|? ? Hc1 Hrest]; subst.
  unfold to_frame. rewrite !to_frame_from_cons.
  set (b0 := slice_rows delta_t factor delta_x delta_y 0 img0).
  set (b1 := slice_rows delta_t factor delta_x delta_y 1 img1).
  set (r := to_frame_from delta_t factor delta_x delta_y 2 rest).
  destruct (slice_rows_times 0 img0 Hc0) as [l0 [E0 F0]].
  destruct (slice_rows_times 1 img1 Hc1) as [l1 [E1 F1]].
  fold b0 in E0. fold b1 in E1.
  assert (Hne : ~ slice_time delta_t factor 0 == slice_time delta_t factor 1).
  { intros E. pose proof (slice_time_lt 0 1 ltac:(lia)) as Hlt.
    rewrite E in Hlt. exact (Qlt_irrefl _ Hlt). }
  destruct (unique_two_blocks _ _ l0 l1 (map Frame.s_time r) F0 F1 Hne)
    as [tl Hu].
  unfold drop_warmup. rewrite !map_app, E0, E1, Hu.
  assert (Hk : filter
                 (fun s =>
                    negb (Qeq_bool (Frame.s_time s) (slice_time delta_t factor 0)) &&
                    negb (Qeq_bool (Frame.s_time s) (slice_time delta_t factor 1)))
                 (b0 ++ b1 ++ r) = r).
  { rewrite !filter_app. rewrite filter_none, filter_none, filter_all;
      [reflexivity| | |].
    - apply Forall_forall. intros s Hs.
      destruct (to_frame_from_time rest 2 s Hs) as [t [Ht Et]]. rewrite Et.
      rewrite !Qeq_bool_slice_time by lia. reflexivity.
    - apply Forall_forall. intros s Hs. apply slice_rows_time in Hs.
      rewrite Hs, (Qeq_bool_refl (slice_time delta_t factor 1)).
      apply Bool.andb_false_r.
    - apply Forall_forall. intros s Hs. apply slice_rows_time in Hs.
      rewrite Hs, (Qeq_bool_refl (slice_time delta_t factor 0)). reflexivity. }
  rewrite Hk.
  destruct rest as [|img2 rest'].
  - exists []. split; [reflexivity|constructor].
  - inversion Hrest as [|? ? Hc2 Hrest']; subst.
    destruct (slice_rows_times 2 img2 Hc2) as [l2 [E2 F2]].
    set (r3 := to_frame_from delta_t factor delta_x delta_y 3 rest').
    assert (Hr : map (fun s => Some (Frame.s_time s)) r
                 = Some (slice_time delta_t factor 2)
                   :: map Some (l2 ++ map Frame.s_time r3)).
    { rewrite <- (map_map Frame.s_time Some). unfold r.
      rewrite to_frame_from_cons, map_app, E2. reflexivity. }
    destruct (series_min_head (slice_time delta_t factor 2)
                (map Some (l2 ++ map Frame.s_time r3))) as [m [Em Hm]].
    { intros b Hb. apply in_map_iff in Hb. destruct Hb as [b' [Eb Hb]].
      injection Eb as ->. apply in_app_or in Hb. destruct Hb as [Hb|Hb].
      - rewrite Forall_forall in F2. rewrite <- (F2 b Hb). apply Qle_refl.
      - apply in_map_iff in Hb. destruct Hb as [s [<- Hs]].
        destruct (to_frame_from_time rest' 3 s Hs) as [t [Ht Et]]. rewrite Et.
        apply Qlt_le_weak. apply slice_time_lt. lia. }
    rewrite Hr, Em. eexists. split; [reflexivity|].
    apply shift_to_frame_from. intros k. rewrite Hm.
    apply slice_time_shift.
Qed.

(** X17: Dropping the first two times of the table and starting the time axis
    again at 0 gives the table of the array without its first two
    slices, for an array whose slices all have a cell.  An array of
    fewer than two slices has no second time to drop and the step raises
    [IndexError]. *)
Theorem drop_warmup_of_to_frame (u : list image) (Hc : Forall has_cell u) :
  ((List.length u <= 1)%nat ->
   drop_warmup (to_frame delta_t factor delta_x delta_y u) = Raised IndexError) /\
  ((2 <= List.length u)%nat ->
   exists out,
     drop_warmup (to_frame delta_t factor delta_x delta_y u) = Returned out /\
     Forall2 sample_eq out
             (to_frame delta_t factor delta_x delta_y (skipn 2 u))).
Proof.
  destruct u as [|img0 [|img1 rest]].
  - split; [reflexivity|]. cbn. lia.
  - split; [|cbn; lia]. intros _.
    inversion Hc as [|? ? Hc0 _]; subst.
    destruct (slice_rows_times 0 img0 Hc0) as [l0 [E0 F0]].
    unfold drop_warmup, to_frame. rewrite to_frame_from_cons.
    cbn [to_frame_from combine seq List.length flat_map].
    rewrite app_nil_r, E0, (unique_one_block _ l0 F0). reflexivity.
  - split; [cbn; lia|]. intros _. cbn [skipn].
    now apply drop_warmup_core.
Qed.
End ArrayToTable.

Lemma drop_warmup_of_to_frame_witness :
  ((List.length example_array <= 1)%nat ->
   drop_warmup (to_frame 1 2 1 1 example_array) = Raised IndexError) /\
  ((2 <= List.length example_array)%nat ->
   exists out,
     drop_warmup (to_frame 1 2 1 1 example_array) = Returned out /\
     Forall2 sample_eq out (to_frame 1 2 1 1 (skipn 2 example_array))).
Proof.
  apply (drop_warmup_of_to_frame 1 2 1 1); try reflexivity.
  unfold example_array.
  repeat (apply Forall_cons;
          [unfold has_cell; do 2 eexists;
           split; [left; reflexivity|left; reflexivity]|]).
  apply Forall_nil.
Defined.

(** ** Replacing lines of a file *)

Lemma nth_error_list_set_eq {A : Type} (i : nat) (v : A) (l : list A) :
  (i < List.length l)%nat -> nth_error (list_set i v l) i = Some v.
Proof.
  revert i. induction l as [|a l IH]; intros [|i] H; simpl in *; try lia; auto.
  apply IH. lia.
Qed.

Lemma nth_error_list_set_neq {A : Type} (i j : nat) (v : A) (l : list A) :
  i <> j -> nth_error (list_set i v l) j = nth_error l j.
Proof.
  revert i j. induction l as [|a l IH]; intros [|i] [|j] H; simpl;
    try reflexivity; try contradiction.
  apply IH. congruence.
Qed.

Lemma replace_lines_spec (pairs : list (Z * string)) :
  forall lines : list string,
    Forall (fun p => (- Z.of_nat (List.length lines) < fst p
                      <= Z.of_nat (List.length lines))%Z) pairs ->
    exists lines',
      replace_lines lines pairs = Some lines' /\
      List.length lines' = List.length lines /\
      (forall k, (forall p, In p pairs ->
                            line_position (List.length lines) (fst p) <> Some k) ->
                 nth_error lines' k = nth_error lines k) /\
      (NoDup (map (fun p => line_position (List.length lines) (fst p)) pairs) ->
       forall p, In p pairs ->
                 exists k, line_position (List.length lines) (fst p) = Some k /\
                           nth_error lines' k = Some (snd p ++ newline)%string).
Proof.
  induction pairs as [|[line text] pairs IH]; intros lines Hr.
  - exists lines. split; [reflexivity|]. split; [reflexivity|].
    split; [reflexivity|]. intros _ p [].
  - inversion Hr as [|? ? Hline Hrest]; subst. cbn [fst] in Hline.
    cbn [replace_lines].
    destruct (proj1 (py_index_in_range (List.length lines) (line - 1)))
      as [k Hk]; [lia|].
    unfold line_position at 1. rewrite Hk.
    pose proof (py_index_lt _ _ _ Hk) as Hlt.
    set (lines1 := list_set k (text ++ newline)%string lines).
    assert (L1 : List.length lines1 = List.length lines)
      by apply length_list_set.
    destruct (IH lines1) as [lines' [E [L [Hun Hset]]]].
    { rewrite L1. exact Hrest. }
    rewrite L1 in Hun, Hset.
    exists lines'. split; [exact E|]. split; [congruence|]. split.
    + intros j Hj. rewrite Hun.
      * unfold lines1. apply nth_error_list_set_neq.
        intros ->. apply (Hj (line, text)); [now left|exact Hk].
      * intros p Hp. apply Hj. now right.
    + intros Hnd p [<-|Hp].
      * exists k. split; [exact Hk|]. cbn [fst snd].
        rewrite Hun; [now apply nth_error_list_set_eq|].
        intros p Hp Hpk. cbn [map fst] in Hnd.
        inversion Hnd as [|? ? Hnotin _]; subst. apply Hnotin.
        unfold line_position at 1. rewrite Hk, <- Hpk.
        apply in_map_iff. exists p. auto.
      * cbn [map] in Hnd. inversion Hnd; subst. now apply Hset.
Qed.

Lemma replace_lines_fails (pairs : list (Z * string)) :
  forall lines : list string,
    Exists (fun p => ~ (- Z.of_nat (List.length lines) < fst p
                        <= Z.of_nat (List.length lines))%Z) pairs ->
    replace_lines lines pairs = None.
Proof.
  induction pairs as [|[line text] pairs IH]; intros lines Hex.
  - inversion Hex.
  - cbn [replace_lines].
    destruct (line_position (List.length lines) line) as [k|] eqn:Hk;
      [|reflexivity].
    inversion Hex as [? ? Hbad|? ? Hrest]; subst.
    + exfalso. apply Hbad. cbn [fst]. unfold line_position in Hk.
      assert (H : exists k, py_index (List.length lines) (line - 1) = Some k)
        by eauto.
      apply py_index_in_range in H. lia.
    + apply IH. now rewrite length_list_set.
Qed.

Lemma map_fst_combine_eq {A B : Type} (l : list A) :
  forall l' : list B,
    List.length l = List.length l' -> map fst (combine l l') = l.
Proof.
  induction l as [|a l IH]; intros [|b l'] H; simpl in *; try lia;
    [reflexivity|]. f_equal. apply IH. lia.
Qed.

Lemma nth_error_combine_in {A B : Type} (l : list A) :
  forall (l' : list B) (j : nat) (a : A) (b : B),
    nth_error l j = Some a -> nth_error l' j = Some b ->
    In (a, b) (combine l l').
Proof.
  induction l as [|x l IH]; intros [|y l'] [|j] a b Ha Hb; simpl in *;
    try discriminate.
  - injection Ha as ->. injection Hb as ->. now left.
  - right. eapply IH; eauto.
Qed.

(** *** The lines of a file and its content *)

Lemma no_line_end_cons (c : Ascii.ascii) (s : string) :
  no_line_end (String c s) = true ->
  Ascii.eqb c LF = false /\ Ascii.eqb c CR = false /\ no_line_end s = true.
Proof.
  cbn [no_line_end]. intros H.
  apply Bool.andb_true_iff in H. destruct H as [H Hs].
  apply Bool.andb_true_iff in H. destruct H as [H1 H2].
  apply Bool.negb_true_iff in H1, H2. auto.
Qed.

Lemma split_lines_line (body rest : string) :
  no_line_end body = true ->
  split_lines ((body ++ newline) ++ rest)%string
  = (body ++ newline)%string :: split_lines rest.
Proof.
  induction body as [|c body IH]; intros H.
  - reflexivity.
  - apply no_line_end_cons in H. destruct H as [Hc [_ Hb]].
    cbn [append split_lines]. rewrite Hc, (IH Hb). reflexivity.
Qed.

Lemma split_lines_last (l : string) :
  no_line_end l = true -> l <> EmptyString -> split_lines l = [l].
Proof.
  induction l as [|c l IH]; intros H Hne; [contradiction|].
  apply no_line_end_cons in H. destruct H as [Hc [_ Hl]].
  cbn [split_lines]. rewrite Hc.
  destruct l as [|c' l']; [reflexivity|].
  rewrite IH; [reflexivity|exact Hl|discriminate].
Qed.

Lemma universal_newlines_line (body rest : string) :
  no_line_end body = true ->
  universal_newlines ((body ++ newline) ++ rest)%string
  = ((body ++ newline) ++ universal_newlines rest)%string.
Proof.
  induction body as [|c body IH]; intros H.
  - reflexivity.
  - apply no_line_end_cons in H. destruct H as [_ [Hc Hb]].
    cbn [append universal_newlines]. rewrite Hc, (IH Hb). reflexivity.
Qed.

Lemma universal_newlines_last (l : string) :
  no_line_end l = true -> universal_newlines l = l.
Proof.
  induction l as [|c l IH]; intros H; [reflexivity|].
  apply no_line_end_cons in H. destruct H as [_ [Hc Hl]].
  cbn [universal_newlines]. rewrite Hc, (IH Hl). reflexivity.
Qed.

Lemma append_empty_r (s : string) : (s ++ EmptyString)%string = s.
Proof.
  induction s as [|c s IH]; [reflexivity|]. cbn [append]. now rewrite IH.
Qed.

Lemma readlines_line (body rest : string) :
  no_line_end body = true ->
  readlines ((body ++ newline) ++ rest)%string
  = (body ++ newline)%string :: readlines rest.
Proof.
  intros H. unfold readlines.
  rewrite universal_newlines_line by exact H.
  now apply split_lines_line.
Qed.

Lemma readlines_last_line (l : string) :
  is_last_line l -> readlines l = [l].
Proof.
  intros [[body [Hb ->]]|[Hl Hne]].
  - rewrite <- (append_empty_r (body ++ newline)) at 1.
    now rewrite readlines_line.
  - unfold readlines. rewrite universal_newlines_last by exact Hl.
    now apply split_lines_last.
Qed.

(** Reading back what [writelines] wrote gives the items written, when
    they have the shape of lines. *)
Lemma readlines_writelines (ls : list string) :
  lines_ok ls -> readlines (writelines ls) = ls.
Proof.
  induction ls as [|l ls IH]; intros H; [reflexivity|].
  destruct ls as [|l' ls'].
  - cbn [writelines String.concat]. now apply readlines_last_line.
  - destruct H as [[body [Hb ->]] Hok].
    change (writelines ((body ++ newline)%string :: l' :: ls'))
      with ((body ++ newline) ++ writelines (l' :: ls'))%string.
    rewrite readlines_line by exact Hb. now rewrite IH.
Qed.

Lemma is_line_cons (c : Ascii.ascii) (l : string) :
  Ascii.eqb c LF = false -> Ascii.eqb c CR = false ->
  is_line l -> is_line (String c l).
Proof.
  intros H1 H2 [body [Hb ->]]. exists (String c body). split; [|reflexivity].
  cbn [no_line_end]. now rewrite H1, H2, Hb.
Qed.

Lemma split_lines_ok (s : string) :
  no_carriage_return s = true -> lines_ok (split_lines s).
Proof.
  induction s as [|c s IH]; intros H; [exact I|].
  cbn [no_carriage_return] in H. apply Bool.andb_true_iff in H. destruct H as [Hc Hs].
  apply Bool.negb_true_iff in Hc. specialize (IH Hs).
  cbn [split_lines]. destruct (Ascii.eqb c LF) eqn:El.
  - apply Ascii.eqb_eq in El. subst c.
    assert (Hl : is_line (String LF EmptyString))
      by (exists EmptyString; split; reflexivity).
    cbn [lines_ok]. destruct (split_lines s); [now left|].
    split; [exact Hl|exact IH].
  - destruct (split_lines s) as [|l ls]; cbn [lines_ok].
    + right. split; [|discriminate]. cbn [no_line_end]. now rewrite El, Hc.
    + cbn [lines_ok] in IH. destruct ls as [|l' ls'].
      * destruct IH as [Hl|[Hl Hne]].
        -- left. now apply is_line_cons.
        -- right. split; [|discriminate].
           cbn [no_line_end]. now rewrite El, Hc, Hl.
      * destruct IH as [Hl Hok]. split; [now apply is_line_cons|exact Hok].
Qed.

Lemma universal_newlines_no_cr (s : string) :
  no_carriage_return (universal_newlines s) = true.
Proof.
  assert (H : forall n s, (String.length s <= n)%nat ->
                          no_carriage_return (universal_newlines s) = true).
  { clear s. induction n as [|n IH]; intros s Hs.
    - destruct s; [reflexivity|simpl in Hs; lia].
    - destruct s as [|c s']; [reflexivity|]. simpl in Hs.
      cbn [universal_newlines]. destruct (Ascii.eqb c CR) eqn:Ec.
      + destruct s' as [|c' s'']; [reflexivity|].
        destruct (Ascii.eqb c' LF);
          cbn [no_carriage_return]; rewrite IH by (simpl in *; lia);
          reflexivity.
      + cbn [no_carriage_return]. rewrite Ec, IH by lia. reflexivity. }
  now apply (H (String.length s)).
Qed.

(** What [readlines] gives always has the shape of lines. *)
Lemma readlines_ok (file : string) : lines_ok (readlines file).
Proof.
  apply split_lines_ok, universal_newlines_no_cr.
Qed.

Lemma lines_ok_list_set (text : string) (ls : list string) (k : nat) :
  no_line_end text = true -> lines_ok ls ->
  lines_ok (list_set k (text ++ newline)%string ls).
Proof.
  intros Ht. assert (Hl : is_line (text ++ newline)%string) by (exists text; auto).
  revert k. induction ls as [|l ls IH]; intros k Hok; [destruct k; exact I|].
  destruct k as [|k].
  - cbn [list_set lines_ok] in *.
    destruct ls; [now left|]. split; [exact Hl|apply Hok].
  - cbn [list_set]. cbn [lines_ok] in Hok.
    destruct ls as [|l' ls'].
    + destruct k; exact Hok.
    + destruct Hok as [H1 H2]. specialize (IH k H2).
      cbn [lines_ok]. destruct (list_set k (text ++ newline)%string (l' :: ls'))
        as [|x xs] eqn:E.
      * destruct k; discriminate.
      * split; [exact H1|exact IH].
Qed.

Lemma replace_lines_ok (pairs : list (Z * string)) :
  forall lines lines' : list string,
    Forall (fun p => no_line_end (snd p) = true) pairs ->
    lines_ok lines ->
    replace_lines lines pairs = Some lines' -> lines_ok lines'.
Proof.
  induction pairs as [|[line text] pairs IH]; intros lines lines' Ht Hok H.
  - cbn in H. now injection H as <-.
  - cbn [replace_lines] in H. inversion Ht as [|? ? Htext Hrest]; subst.
    destruct (line_position (List.length lines) line) as [k|]; [|discriminate].
    eapply IH; [exact Hrest| |exact H].
    now apply lines_ok_list_set.
Qed.

(** X18: With as many texts as line numbers, the texts without line end
    (neither line feed nor carriage return) and the numbers between
    [-n + 1] and [n] for a file of [n] lines, the call rewrites the file
    with as many lines: a line that no number addresses is unchanged,
    and when no two numbers address the same line, each addressed line
    holds its text followed by a line feed.  Numbers from 0 down count
    from the end of the file: line number 0 addresses the last line.
    The lines of a file are what [readlines] gives for its content. *)
Theorem replace_file_lines_returns
        (file : string) (line_nums : list Z) (texts : list string)
        (Hlen : List.length line_nums = List.length texts)
        (Hrange : Forall (fun line =>
                            (- Z.of_nat (List.length (readlines file)) < line
                             <= Z.of_nat (List.length (readlines file)))%Z)
                         line_nums)
        (Htexts : Forall (fun text => no_line_end text = true) texts) :
  let n := List.length (readlines file) in
  exists file',
    replace_file_lines file line_nums texts = (file', Returned tt) /\
    List.length (readlines file') = n /\
    (forall k, (forall line, In line line_nums -> line_position n line <> Some k) ->
               nth_error (readlines file') k = nth_error (readlines file) k) /\
    (NoDup (map (line_position n) line_nums) ->
     forall j line text,
       nth_error line_nums j = Some line -> nth_error texts j = Some text ->
       exists k, line_position n line = Some k /\
                 nth_error (readlines file') k = Some (text ++ newline)%string) /\
    ((0 < n)%nat -> line_position n 0 = Some (n - 1)%nat).
Proof.
  intros n. unfold replace_file_lines.
  rewrite Hlen, Nat.eqb_refl. cbn [negb].
  destruct (replace_lines_spec (combine line_nums texts) (readlines file))
    as [lines' [E [L [Hun Hset]]]].
  { apply Forall_forall. intros p Hp.
    rewrite Forall_forall in Hrange. apply Hrange.
    rewrite <- (map_fst_combine_eq line_nums texts Hlen).
    apply in_map_iff. exists p. auto. }
  assert (Hback : readlines (writelines lines') = lines').
  { apply readlines_writelines.
    apply (replace_lines_ok (combine line_nums texts) (readlines file));
      [|apply readlines_ok|exact E].
    apply Forall_forall. intros [line text] Hp. cbn [snd].
    apply in_combine_r in Hp. rewrite Forall_forall in Htexts. auto. }
  rewrite E. exists (writelines lines'). rewrite Hback.
  split; [reflexivity|]. split; [exact L|].
  split; [|split].
  - intros k Hk. apply Hun. intros p Hp. apply Hk.
    rewrite <- (map_fst_combine_eq line_nums texts Hlen).
    apply in_map_iff. exists p. auto.
  - intros Hnd j line text Hj Ht.
    assert (Hnd' : NoDup (map (fun p => line_position (List.length (readlines file))
                                                      (fst p))
                              (combine line_nums texts))).
    { rewrite <- (map_map fst (line_position (List.length (readlines file)))).
      now rewrite (map_fst_combine_eq line_nums texts Hlen). }
    apply (Hset Hnd' (line, text)).
    eapply nth_error_combine_in; eauto.
  - intros Hn. unfold line_position, py_index.
    replace ((0 <=? 0 - 1) && (0 - 1 <? Z.of_nat n))%Z with false
      by (symmetry; apply Bool.andb_false_iff; left; reflexivity).
    replace ((- Z.of_nat n <=? 0 - 1) && (0 - 1 <? 0))%Z with true.
    + f_equal. lia.
    + symmetry. apply Bool.andb_true_iff. split; [apply Z.leb_le; lia|reflexivity].
Qed.

(** A file of three lines, the last one without line feed; line 2 and
    the last line (number 0) are replaced. *)
Lemma replace_file_lines_returns_witness :
  replace_file_lines example_file [2; 0]%Z ["x"; "y"]%string
  = (example_file_replaced, Returned tt) /\
  readlines example_file_replaced
  = [ ("a" ++ newline)%string; ("x" ++ newline)%string;
      ("y" ++ newline)%string ] /\
  exists file',
    replace_file_lines example_file [2; 0]%Z ["x"; "y"]%string
    = (file', Returned tt) /\
    List.length (readlines file') = 3%nat /\
    (forall k, (forall line, In line [2; 0]%Z -> line_position 3 line <> Some k) ->
               nth_error (readlines file') k = nth_error (readlines example_file) k) /\
    (NoDup (map (line_position 3) [2; 0]%Z) ->
     forall j line text,
       nth_error [2; 0]%Z j = Some line ->
       nth_error ["x"; "y"]%string j = Some text ->
       exists k, line_position 3 line = Some k /\
                 nth_error (readlines file') k = Some (text ++ newline)%string) /\
    ((0 < 3)%nat -> line_position 3 0 = Some (3 - 1)%nat).
Proof.
  split; [reflexivity|]. split; [reflexivity|].
  apply (replace_file_lines_returns example_file [2; 0]%Z ["x"; "y"]%string).
  - reflexivity.
  - repeat (apply Forall_cons;
            [vm_compute; split; [reflexivity|discriminate]|]).
    apply Forall_nil.
  - repeat (apply Forall_cons; [reflexivity|]). apply Forall_nil.
Defined.

(** X19: The two ways the call fails leave the file as it was: with lists of
    different lengths it prints a message and returns; with a line
    number beyond the end of the file, or further before its start, it
    raises [IndexError] before anything is written, whatever the other
    numbers are. *)
Theorem replace_file_lines_failures
        (file : string) (line_nums : list Z) (texts : list string) :
  (List.length line_nums <> List.length texts ->
   replace_file_lines file line_nums texts
   = (file, PrintedNone lengths_disagree_message)) /\
  (List.length line_nums = List.length texts ->
   Exists (fun line => ~ (- Z.of_nat (List.length (readlines file)) < line
                          <= Z.of_nat (List.length (readlines file)))%Z)
          line_nums ->
   replace_file_lines file line_nums texts = (file, Raised IndexError)).
Proof.
  unfold replace_file_lines. split.
  - intros Hne. apply Nat.eqb_neq in Hne. now rewrite Hne.
  - intros Hlen Hex. rewrite Hlen, Nat.eqb_refl. cbn [negb].
    rewrite replace_lines_fails; [reflexivity|].
    apply Exists_exists in Hex. destruct Hex as [line [Hin Hbad]].
    rewrite <- (map_fst_combine_eq line_nums texts Hlen) in Hin.
    apply in_map_iff in Hin. destruct Hin as [p [<- Hp]].
    apply Exists_exists. exists p. auto.
Qed.

(** ** Grid-size check and the simulation *)

Lemma grid_warning_iff (delta_x : Q) (max_x : Z) :
  grid_warning delta_x max_x = true <-> inject_Z (2 * max_x) < delta_x.
Proof.
  unfold grid_warning, grid_threshold, MAX_GRID_PCT.
  rewrite py_int_inject, Qlt_bool_iff. now rewrite Z.mul_comm.
Qed.

(** X20: The warning of the validation script fires only for a grid step of
    more than twice the span.  A step that is larger than a positive
    span but no more than twice as large passes the check in silence,
    and the defect simulation, which then has no cell along that axis,
    raises [IndexError] as soon as there are two time steps. *)
Theorem grid_check_misses_short_area
        (delta_x delta_y D : Q) (max_time max_x max_y : Z)
        (cx cy defect_x defect_y T : Q)
        (Hy : 0 < delta_y) (HD : 0 < D)
        (Ht : (0 <= max_time)%Z) (Hmy : (0 <= max_y)%Z)
        (Hm : (2 <= max_iterations delta_x delta_y D max_time)%Z)
        (Hpos : (0 < max_x)%Z)
        (Hlo : inject_Z max_x < delta_x)
        (Hhi : delta_x <= inject_Z (2 * max_x)) :
  grid_warning delta_x max_x = false /\
  grid_samples max_x delta_x = 0%Z /\
  simulate delta_x delta_y D max_time max_x max_y cx cy defect_x defect_y T
  = Raised IndexError.
Proof.
  assert (Hx : 0 < delta_x).
  { eapply Qle_lt_trans; [|exact Hlo]. change 0 with (inject_Z 0).
    rewrite <- Zle_Qle. lia. }
  split; [|split].
  - destruct (grid_warning delta_x max_x) eqn:E; [|reflexivity].
    apply grid_warning_iff in E. exfalso. exact (Qlt_not_le _ _ E Hhi).
  - now apply grid_samples_short.
  - apply simulate_no_cell_raises; try assumption; [lia|].
    left. rewrite (grid_samples_short max_x delta_x Hx Hpos Hlo). lia.
Qed.

Lemma grid_check_misses_short_area_witness :
  grid_warning 3 2 = false /\
  grid_samples 2 3 = 0%Z /\
  simulate 3 3 (1 # 100) 1000 2 9 0 0 1 1 4 = Raised IndexError.
Proof.
  apply (grid_check_misses_short_area 3 3 (1 # 100) 1000 2 9 0 0 1 1 4);
    try reflexivity; try discriminate.
Defined.

(** ** Stack Assembler: the legend *)

Lemma drop_duplicates_last_In (r : LegendRow) (l : list LegendRow) :
  In r (drop_duplicates_last l) -> In r l.
Proof.
  induction l as [|a l IH]; [intros []|]. cbn [drop_duplicates_last].
  destruct (existsb _ l).
  - intros H. right. now apply IH.
  - intros [->|H]; [now left|]. right. now apply IH.
Qed.

Lemma drop_duplicates_last_cover (m : string) (l : list LegendRow) :
  (exists r, In r l /\ g_material r = m) ->
  exists r', In r' (drop_duplicates_last l) /\ g_material r' = m.
Proof.
  induction l as [|a l IH]; intros [r [Hin Hm]]; [destruct Hin|].
  cbn [drop_duplicates_last].
  destruct (existsb (fun r' => String.eqb (g_material r') (g_material a)) l)
    eqn:E.
  - apply IH. destruct Hin as [->|Hin]; [|eauto].
    apply existsb_exists in E. destruct E as [r' [Hr' E]].
    apply String.eqb_eq in E. exists r'. split; [exact Hr'|congruence].
  - destruct Hin as [->|Hin].
    + exists r. split; [now left|exact Hm].
    + destruct IH as [r' [Hr' Hm']]; [eauto|].
      exists r'. split; [now right|exact Hm'].
Qed.

Lemma material_no_some (legend : list LegendRow) (m : string) :
  (exists r, In r legend /\ g_material r = m) ->
  exists z, material_no legend m = Some z.
Proof.
  intros H. apply drop_duplicates_last_cover in H.
  destruct H as [r [Hr Hm]]. unfold material_no.
  destruct (find _ (drop_duplicates_last legend)) as [r'|] eqn:E.
  - eexists. reflexivity.
  - exfalso. pose proof (find_none _ _ E r Hr) as Hf. cbn in Hf.
    rewrite Hm, String.eqb_refl in Hf. discriminate.
Qed.

Lemma material_no_row (legend : list LegendRow) (m : string) (z : Z) :
  material_no legend m = Some z ->
  exists r, In r legend /\ g_material r = m /\ g_no r = z.
Proof.
  unfold material_no.
  destruct (find _ (drop_duplicates_last legend)) as [r|] eqn:E;
    [|discriminate].
  intros H. injection H as <-. apply find_some in E. destruct E as [Hin Hm].
  apply String.eqb_eq in Hm. apply drop_duplicates_last_In in Hin. eauto.
Qed.

(** The number and material columns of the legend, when the five lists
    are equally long. *)
Lemma legend_rows_columns (types : list string) (nos : list Z) :
  forall (stack : list string) (nk : list (Q * Q)),
    List.length types = List.length nos ->
    List.length nos = List.length stack ->
    List.length stack = List.length nk ->
    map (fun r => (fst (snd r), fst (snd (snd r))))
        (combine types (combine nos (combine stack nk)))
    = combine nos stack.
Proof.
  revert types. induction nos as [|z nos IH]; intros [|t types] [|m stack] [|x nk];
    simpl; intros H1 H2 H3; try lia; try reflexivity.
  f_equal. apply IH; lia.
Qed.

Lemma length_material_type_list (len : nat) :
  List.length (material_type_list len) = len.
Proof.
  unfold material_type_list. now rewrite length_list_set, repeat_length.
Qed.

Lemma length_material_no_list (len : nat) :
  (0 < len)%nat -> List.length (material_no_list len) = len.
Proof.
  intros H. unfold material_no_list. cbn [List.length].
  rewrite length_map, length_seq. lia.
Qed.

Lemma legend_rows_numbered (stack : list string) (n_list k_list : list Q) :
  (0 < List.length stack)%nat ->
  List.length n_list = List.length stack ->
  List.length k_list = List.length stack ->
  map (fun r => (g_no r, g_material r)) (legend_rows stack n_list k_list)
  = combine (material_no_list (List.length stack)) stack.
Proof.
  intros Hpos Hn Hk. unfold legend_rows. rewrite map_map. cbn [g_no g_material].
  apply legend_rows_columns.
  - now rewrite length_material_type_list, length_material_no_list.
  - now apply length_material_no_list.
  - rewrite length_combine. lia.
Qed.

Lemma combine_map_l {A B C : Type} (f : A -> B) (l1 : list A) :
  forall l2 : list C,
    combine (map f l1) l2 = map (fun p => (f (fst p), snd p)) (combine l1 l2).
Proof.
  induction l1 as [|a l1 IH]; intros [|c l2]; simpl; try reflexivity.
  f_equal. apply IH.
Qed.

(** In a legend that starts with the two air rows, the number decides
    the material. *)
Lemma numbered_stack_functional (rest : list string) (z : Z) (m1 m2 : string) :
  let stack := ("air" :: "air" :: rest)%string in
  In (z, m1) (combine (material_no_list (List.length stack)) stack) ->
  In (z, m2) (combine (material_no_list (List.length stack)) stack) ->
  m1 = m2.
Proof.
  intros stack. unfold stack, material_no_list.
  cbn [List.length Nat.sub].
  cbn [seq map combine]. rewrite combine_map_l.
  assert (Hpos : forall m,
             In (z, m)
                (map (fun p => (Z.of_nat (fst p), snd p))
                     (combine (seq 1 (List.length rest)) rest)) ->
             (1 <= z)%Z /\ nth_error rest (Z.to_nat z - 1) = Some m).
  { intros m H. apply in_map_iff in H. destruct H as [[i a] [E Hin]].
    cbn in E. injection E as <- <-.
    apply in_combine_seq in Hin. destruct Hin as [Hle Hn].
    split; [lia|]. now rewrite Nat2Z.id. }
  intros [E1|[E1|H1]] [E2|[E2|H2]];
    try (injection E1 as <- <-); try (injection E2 as E2 <-);
    try reflexivity;
    try (apply Hpos in H1; destruct H1 as [H1 H1']);
    try (apply Hpos in H2; destruct H2 as [H2 H2']);
    try lia; try congruence.
Qed.

Lemma filter_map_swap {A B : Type} (f : B -> bool) (g : A -> B) (l : list A) :
  filter f (map g l) = map g (filter (fun a => f (g a)) l).
Proof.
  induction l as [|a l IH]; [reflexivity|]. cbn.
  destruct (f (g a)); cbn; now rewrite IH.
Qed.

Lemma has_type_prepare (T : string) (df : list InputRow) :
  has_type T (prepare_input df) = has_type T df.
Proof.
  unfold has_type, prepare_input. induction df as [|r df IH]; [reflexivity|].
  cbn. now rewrite IH.
Qed.

Lemma column_of_type_prepare {A : Type} (T : string) (col : InputRow -> A)
      (df : list InputRow) :
  (forall r t, col (mkInputRow (i_type r) (i_material r) t (i_n r) (i_k r))
               = col r) ->
  column_of_type T col (prepare_input df) = column_of_type T col df.
Proof.
  intros Hcol. unfold column_of_type, prepare_input. f_equal.
  rewrite filter_map_swap, map_map. cbn [i_type].
  apply map_ext. intros r. apply Hcol.
Qed.

Lemma legend_column_prepare {A : Type} (air : A) (col : InputRow -> A)
      (df : list InputRow) :
  (forall r t, col (mkInputRow (i_type r) (i_material r) t (i_n r) (i_k r))
               = col r) ->
  legend_column air col (prepare_input df) = legend_column air col df.
Proof.
  intros Hcol. unfold legend_column.
  now rewrite !(column_of_type_prepare _ col df Hcol).
Qed.

Lemma length_column_of_type {A B : Type} (T : string)
      (c1 : InputRow -> A) (c2 : InputRow -> B) (df : list InputRow) :
  List.length (column_of_type T c1 df) = List.length (column_of_type T c2 df).
Proof. unfold column_of_type. now rewrite !length_rev, !length_map. Qed.

Lemma length_legend_column {A B : Type} (a : A) (b : B)
      (c1 : InputRow -> A) (c2 : InputRow -> B) (df : list InputRow) :
  List.length (legend_column a c1 df) = List.length (legend_column b c2 df).
Proof.
  unfold legend_column. rewrite !length_app. cbn [List.length].
  now rewrite !(length_column_of_type _ c1 c2).
Qed.

Lemma list_index_In (x : string) (l : list string) :
  In x l -> exists i, list_index x l = Some i.
Proof.
  induction l as [|a l IH]; [intros []|]. cbn [list_index].
  destruct (String.eqb a x) eqn:E; [eauto|].
  apply String.eqb_neq in E. intros [Ha|Hin]; [contradiction|].
  destruct (IH Hin) as [i Hi]. rewrite Hi. cbn. eauto.
Qed.

Lemma list_index_not_In (x : string) (l : list string) :
  ~ In x l -> list_index x l = None.
Proof.
  induction l as [|a l IH]; [reflexivity|]. cbn [list_index]. intros H.
  destruct (String.eqb a x) eqn:E.
  - apply String.eqb_eq in E. exfalso. apply H. now left.
  - rewrite IH; [reflexivity|]. intros Hin. apply H. now right.
Qed.

Lemma in_repeat_list {A : Type} (a : A) (l : list A) (n : nat) :
  In a (repeat_list l n) -> In a l.
Proof.
  unfold repeat_list. intros H. apply in_concat in H.
  destruct H as [l' [Hl' Ha]]. apply repeat_spec in Hl'. now subst.
Qed.

Lemma stack_column_in_legend (m : string) (df : list InputRow) :
  In m (stack_column i_material df) ->
  In m (legend_column "air"%string i_material df).
Proof.
  unfold stack_column, legend_column. cbn [app In].
  rewrite !in_app_iff. intros H.
  assert (Hml : In m (if has_type "ML" df
                      then repeat_list (column_of_type "ML" i_material df) MLpair
                      else []) ->
                In m (column_of_type "ML" i_material df)).
  { destruct (has_type "ML" df); [apply in_repeat_list|intros []]. }
  destruct (has_type "Substrate" df), (has_type "Capping" df),
    (has_type "Absorber" df); cbn [In] in H; tauto.
Qed.

Lemma written_stack_materials (df : list InputRow) (delta_z : Q) (row : StackRow) :
  In row (mask_stack_adjusted (mask_stack_of_input df) delta_z) ->
  In (material row) (legend_column "air"%string i_material df).
Proof.
  unfold mask_stack_adjusted, mask_stack_with_air. intros H.
  apply in_map_iff in H. destruct H as [r0 [E Hr0]].
  assert (Em : material row = material r0).
  { subst row. destruct (String.eqb (material r0) "air"); reflexivity. }
  rewrite Em. apply in_app_or in Hr0. destruct Hr0 as [H|[<-|[]]].
  - apply stack_column_in_legend. unfold mask_stack_of_input in H.
    apply in_map_iff in H. destruct H as [[l [mat t]] [<- Hin]].
    cbn [material fst snd].
    apply in_combine_r in Hin. apply in_combine_l in Hin. exact Hin.
  - now left.
Qed.

Lemma in_combine_r_exists {A B : Type} (b : B) (l1 : list A) :
  forall l2 : list B,
    List.length l1 = List.length l2 -> In b l2 ->
    exists a, In (a, b) (combine l1 l2).
Proof.
  induction l1 as [|a l1 IH]; intros [|c l2] Hlen; simpl in *; try lia.
  intros [->|H].
  - exists a. now left.
  - destruct (IH l2 ltac:(lia) H) as [a' Ha']. exists a'. now right.
Qed.

(** What a returned legend looks like: its number and material columns
    are the numbering of a list that starts with the two air rows and
    holds every material of the four types, and the defect when it has a
    positive size. *)
Lemma input_mask_conversion_returned
      (delta_z defect_x defect_y defect_thickness : Q) (df : list InputRow)
      (legend : list LegendRow) (absorber : list string) :
  snd (input_mask_conversion delta_z defect_x defect_y defect_thickness df)
  = Returned (legend, absorber) ->
  exists rest,
    let stack := ("air" :: "air" :: rest)%string in
    map (fun r => (g_no r, g_material r)) legend
    = combine (material_no_list (List.length stack)) stack /\
    (forall m, In m (legend_column "air"%string i_material (prepare_input df)) ->
               In m stack) /\
    (defect_in_legend defect_x defect_y defect_thickness = true ->
     In "defect"%string stack).
Proof.
  unfold input_mask_conversion. cbv zeta.
  destruct (Qeq_bool (delta_z * (1 # 1000)) 0); [discriminate|].
  unfold snd.
  set (df' := prepare_input df).
  destruct (negb _); [discriminate|].
  pose proof (length_legend_column 1 "air"%string i_n i_material df') as Ln.
  pose proof (length_legend_column 0 "air"%string i_k i_material df') as Lk.
  set (rest0 := column_of_type "Absorber" i_material df' ++
                column_of_type "Substrate" i_material df' ++
                column_of_type "ML" i_material df' ++
                column_of_type "Capping" i_material df').
  assert (Estack : legend_column "air"%string i_material df'
                   = ("air" :: "air" :: rest0)%string) by reflexivity.
  set (n_list := legend_column 1 i_n df') in *.
  set (k_list := legend_column 0 i_k df') in *.
  set (stack0 := legend_column "air"%string i_material df') in *.
  destruct (defect_in_legend defect_x defect_y defect_thickness).
  - destruct (list_index defect_material _) as [i|]; [|discriminate].
    intros H.
    apply (f_equal (fun o => match o with
                             | Returned (l, _) => l
                             | _ => nil
                             end)) in H.
    cbv beta iota in H. subst legend.
    exists (rest0 ++ ["defect"%string]). cbv zeta.
    change (("air" :: "air" :: rest0 ++ ["defect"])%string)
      with (("air" :: "air" :: rest0)%string ++ ["defect"%string]).
    rewrite <- Estack. split; [|split].
    + apply legend_rows_numbered.
      * rewrite length_app. cbn. lia.
      * rewrite !length_app, Ln. reflexivity.
      * rewrite !length_app, Lk. reflexivity.
    + intros m Hm. apply in_or_app. now left.
    + intros _. apply in_or_app. right. now left.
  - intros H.
    apply (f_equal (fun o => match o with
                             | Returned (l, _) => l
                             | _ => nil
                             end)) in H.
    cbv beta iota in H. subst legend.
    exists rest0. cbv zeta. rewrite <- Estack.
    split; [|split].
    + apply legend_rows_numbered; [rewrite Estack; cbn; lia|exact Ln|exact Lk].
    + auto.
    + discriminate.
Qed.

(** X21: A legend that the call returns numbers every material of the stack
    table written with it, the air top included, and the defect when it
    has a positive size; after the duplicates are dropped, two different
    materials never share a number. *)
Theorem legend_numbers_every_material
        (delta_z defect_x defect_y defect_thickness : Q) (df : list InputRow)
        (written : list StackRow) (legend : list LegendRow)
        (absorber : list string)
        (H : input_mask_conversion delta_z defect_x defect_y defect_thickness df
             = (written, Returned (legend, absorber))) :
  (forall row, In row written ->
               exists z, material_no legend (material row) = Some z) /\
  (defect_in_legend defect_x defect_y defect_thickness = true ->
   exists z, material_no legend "defect" = Some z) /\
  (forall m1 m2 z, material_no legend m1 = Some z ->
                   material_no legend m2 = Some z -> m1 = m2).
Proof.
  assert (Hw : written = mask_stack_adjusted
                           (mask_stack_of_input (prepare_input df)) delta_z).
  { pose proof H as H'. unfold input_mask_conversion in H'. cbv zeta in H'.
    destruct (Qeq_bool (delta_z * (1 # 1000)) 0); [discriminate|].
    apply (f_equal fst) in H'. symmetry. exact H'. }
  apply (f_equal snd) in H. cbn [snd] in H.
  apply input_mask_conversion_returned in H.
  destruct H as [rest [Hcols [Hstack Hdefect]]]. cbv zeta in Hcols.
  set (stack := ("air" :: "air" :: rest)%string) in *.
  assert (Hrow : forall m, In m stack ->
                           exists r, In r legend /\ g_material r = m).
  { intros m Hm.
    destruct (in_combine_r_exists m (material_no_list (List.length stack)) stack)
      as [z Hz]; [apply length_material_no_list; cbn; lia|exact Hm|].
    rewrite <- Hcols in Hz. apply in_map_iff in Hz.
    destruct Hz as [r [E Hr]]. injection E as _ E. eauto. }
  split; [|split].
  - intros row Hin. apply material_no_some, Hrow, Hstack.
    subst written. now apply written_stack_materials in Hin.
  - intros Hd. apply material_no_some, Hrow, Hdefect, Hd.
  - intros m1 m2 z H1 H2.
    apply material_no_row in H1, H2.
    destruct H1 as [r1 [Hr1 [Em1 Ez1]]]. destruct H2 as [r2 [Hr2 [Em2 Ez2]]].
    apply (numbered_stack_functional rest z m1 m2); fold stack;
      rewrite <- Hcols; apply in_map_iff.
    + exists r1. split; [now rewrite Em1, Ez1|exact Hr1].
    + exists r2. split; [now rewrite Em2, Ez2|exact Hr2].
Qed.

Lemma legend_numbers_every_material_witness :
  exists written legend absorber,
    input_mask_conversion 1 10 10 10 example_input
    = (written, Returned (legend, absorber)) /\
    (forall row, In row written ->
                 exists z, material_no legend (material row) = Some z) /\
    (defect_in_legend 10 10 10 = true ->
     exists z, material_no legend "defect" = Some z) /\
    (forall m1 m2 z, material_no legend m1 = Some z ->
                     material_no legend m2 = Some z -> m1 = m2).
Proof.
  do 3 eexists. split; [vm_compute; reflexivity|].
  eapply (legend_numbers_every_material 1 10 10 10 example_input).
  vm_compute. reflexivity.
Defined.

(** X22: How the call ends.  With [delta_z] equal to 0 the quotient of line
    146 has no value and the call raises before the stack table is
    written: an arithmetic error, or [ValueError] for a zero total.
    With any other [delta_z] the stack table is written with the
    adjusted air top; then, when one of the four layer types is missing
    from the input table, the list of its materials is never bound and
    building the legend raises [NameError]; when the defect has a
    positive size and no layer is made of the defect material, looking
    it up raises [ValueError]; otherwise the legend is written and the
    absorber materials, top layer first in the input, come back bottom
    first. *)
Theorem input_mask_conversion_outcome
        (delta_z defect_x defect_y defect_thickness : Q) (df : list InputRow) :
  let result :=
    input_mask_conversion delta_z defect_x defect_y defect_thickness df in
  let file :=
    mask_stack_file delta_z defect_x defect_y defect_thickness df in
  let stack := mask_stack_of_input (prepare_input df) in
  let materials := legend_column "air"%string i_material df in
  (delta_z == 0 ->
   file = None /\
   (~ total_thickness stack == 0 -> snd result = Raised ArithmeticError) /\
   (total_thickness stack == 0 -> snd result = Raised ValueError)) /\
  (~ delta_z == 0 ->
   file = Some (mask_stack_adjusted stack delta_z) /\
   (all_types_present df = false -> snd result = Raised NameError) /\
   (all_types_present df = true ->
    defect_in_legend defect_x defect_y defect_thickness = true ->
    ~ In defect_material materials ->
    snd result = Raised ValueError) /\
   (all_types_present df = true ->
    defect_in_legend defect_x defect_y defect_thickness = false \/
    In defect_material materials ->
    exists legend,
      snd result
      = Returned (legend, column_of_type "Absorber" i_material df))).
Proof.
  intros result file stack materials.
  unfold file, mask_stack_file, result, input_mask_conversion. cbv zeta.
  fold stack. split.
  - intros Hz.
    assert (E : Qeq_bool (delta_z * (1 # 1000)) 0 = true)
      by (apply Qeq_bool_iff; rewrite Hz; reflexivity).
    rewrite E. split; [reflexivity|]. unfold snd. split.
    + intros Hn. destruct (Qeq_bool (total_thickness stack) 0) eqn:Et;
        [|reflexivity].
      apply Qeq_bool_iff in Et. contradiction.
    + intros Ht. apply Qeq_bool_iff in Ht. now rewrite Ht.
  - intros Hz.
    assert (E : Qeq_bool (delta_z * (1 # 1000)) 0 = false).
    { destruct (Qeq_bool (delta_z * (1 # 1000)) 0) eqn:E'; [|reflexivity].
      exfalso. apply Hz. apply Qeq_bool_iff in E'. lra. }
    rewrite E. unfold snd, fst.
    rewrite !has_type_prepare. fold (all_types_present df).
    rewrite (legend_column_prepare "air"%string i_material df) by reflexivity.
    rewrite (column_of_type_prepare "Absorber" i_material df) by reflexivity.
    fold materials.
    split; [reflexivity|]. split; [|split].
    + intros ->. reflexivity.
    + intros -> -> Hn. cbn [negb].
      rewrite list_index_not_In; [reflexivity|].
      intros Hin. apply in_app_or in Hin. destruct Hin as [Hin|[E'|[]]];
        [contradiction|discriminate].
    + intros -> Hor. cbn [negb].
      destruct (defect_in_legend defect_x defect_y defect_thickness).
      * destruct Hor as [Hf|Hin]; [discriminate|].
        destruct (list_index_In defect_material (materials ++ ["defect"%string]))
          as [i Hi]; [apply in_or_app; now left|].
        rewrite Hi. eauto.
      * eauto.
Qed.

(** ** A defect at the top of the stack *)

Lemma drop_duplicates_from_all_seen (seen l : list Q) :
  Forall (fun t => existsb (Qeq_bool t) seen = true) l ->
  drop_duplicates_from Qeq_bool seen l = [].
Proof.
  intros H. rewrite <- (app_nil_r l).
  now rewrite drop_duplicates_from_seen.
Qed.

Lemma existsb_Qeq_true (t : Q) (seen : list Q) :
  (exists s, In s seen /\ t == s) -> existsb (Qeq_bool t) seen = true.
Proof.
  intros [s [Hs E]]. apply existsb_exists. exists s. split; [exact Hs|].
  now apply Qeq_bool_iff.
Qed.

Lemma unique_length_one_class (a : Q) (l : list Q) :
  Forall (fun t => t == a) l -> l <> [] -> List.length (Frame.unique l) = 1%nat.
Proof.
  intros H Hne. destruct l as [|t l]; [contradiction|].
  inversion H as [|? ? Ht Hl]; subst.
  unfold Frame.unique, drop_duplicates. cbn [drop_duplicates_from existsb].
  rewrite drop_duplicates_from_all_seen; [reflexivity|].
  eapply Forall_impl; [|exact Hl]. intros u Hu. apply existsb_Qeq_true.
  exists t. split; [now left|]. now rewrite Hu, Ht.
Qed.

Lemma drop_duplicates_from_second_class (a b x : Q) (l : list Q) :
  x == a -> ~ a == b ->
  Forall (fun t => t == a \/ t == b) l ->
  (exists u, In u l /\ u == b) ->
  List.length (drop_duplicates_from Qeq_bool [x] l) = 1%nat.
Proof.
  intros Hx Hne. induction l as [|u l IH]; intros Hall [v [Hv Ev]];
    [destruct Hv|].
  inversion Hall as [|? ? Hu Hl]; subst. cbn [drop_duplicates_from].
  destruct Hu as [Hu|Hu].
  - rewrite existsb_Qeq_true
      by (exists x; split; [now left|now rewrite Hu, Hx]).
    apply IH; [exact Hl|]. destruct Hv as [->|Hv]; [|eauto].
    exfalso. apply Hne. now rewrite <- Hu, Ev.
  - assert (Hf : existsb (Qeq_bool u) [x] = false).
    { cbn. destruct (Qeq_bool u x) eqn:E; [|reflexivity].
      apply Qeq_bool_iff in E. exfalso. apply Hne.
      now rewrite <- Hx, <- E, Hu. }
    rewrite Hf. cbn [List.length]. f_equal.
    rewrite drop_duplicates_from_all_seen; [reflexivity|].
    eapply Forall_impl; [|exact Hl]. intros t [Ht|Ht]; apply existsb_Qeq_true.
    + exists x. split; [right; now left|now rewrite Ht, Hx].
    + exists u. split; [now left|now rewrite Ht, Hu].
Qed.

Lemma unique_length_two_classes (a b : Q) (l : list Q) :
  ~ a == b ->
  Forall (fun t => t == a \/ t == b) l ->
  (exists u, In u l /\ u == a) -> (exists u, In u l /\ u == b) ->
  List.length (Frame.unique l) = 2%nat.
Proof.
  intros Hne Hall [ua [Hua Ea]] [ub [Hub Eb]].
  destruct l as [|t l]; [destruct Hua|].
  inversion Hall as [|? ? Ht Hl]; subst.
  unfold Frame.unique, drop_duplicates. cbn [drop_duplicates_from existsb].
  cbn [List.length]. f_equal. destruct Ht as [Ht|Ht].
  - apply (drop_duplicates_from_second_class a b); try assumption.
    destruct Hub as [->|Hub]; [|eauto].
    exfalso. apply Hne. now rewrite <- Ht, Eb.
  - apply (drop_duplicates_from_second_class b a); try assumption.
    + intros E. apply Hne. now symmetry.
    + eapply Forall_impl; [|exact Hl]. cbn. tauto.
    + destruct Hua as [->|Hua]; [|eauto].
      exfalso. apply Hne. now rewrite <- Ea, Ht.
Qed.

Lemma py_slice_stop_near_top (d : Z) (n : nat) :
  (Z.of_nat n - 1 <= d)%Z -> (n - py_slice_stop d n <= 1)%nat.
Proof.
  unfold py_slice_stop. intros H. destruct (d <? 0)%Z eqn:E.
  - apply Z.ltb_lt in E. lia.
  - apply Z.ltb_ge in E. lia.
Qed.

(** X23: When the defect sits on the top row of the stack or on the one just
    under it -- which is where [defect_layer] puts it as soon as it is
    not smaller than the number of rows minus one -- at most two depths
    are asked of the resampler, and whatever table the resampler
    returns for them, the overlap walk has no line to examine and ends
    in [NameError]. *)
Theorem defect_near_top_raises
        (defect_x defect_y defect_thickness : Q) (defect_layer : Z)
        (rows : list LayerRow)
        (Hp : defect_present defect_x defect_y defect_thickness = true)
        (Hnd : Forall not_defect rows)
        (Hpos : Forall positive_thickness rows)
        (Htop : (Z.of_nat (List.length rows) - 1 <= defect_layer)%Z) :
  exists df_material,
    add_total_thickness defect_x defect_y defect_thickness defect_layer rows
    = Returned df_material /\
    (List.length (required_values df_material) <= 2)%nat /\
    forall (df : list Frame.Sample) (out : list Frame.Row),
      Frame.changeDataRes df (required_values df_material) = Returned out ->
      Frame.detectOverwriteOverlap out = Raised NameError.
Proof.
  unfold add_total_thickness. rewrite Hp. cbn [negb].
  rewrite insert_defect_split.
  pose proof (py_slice_stop_near_top defect_layer (List.length rows) Htop) as Hk.
  set (k := py_slice_stop defect_layer (List.length rows)) in *.
  destruct (Forall_firstn_skipn _ k rows Hnd) as [Hb Ha].
  destruct (Forall_firstn_skipn _ k rows Hpos) as [Pb Pa].
  destruct (required_values_split (defect_row defect_layer)
              (firstn k rows) (skipn k rows) eq_refl Hb Ha Pb Pa)
    as [df_material [ts [E [Er [Lts Sts]]]]].
  rewrite length_skipn in Lts.
  exists df_material. split; [exact E|]. rewrite Er.
  split; [cbn [List.length]; lia|].
  intros df out Hout.
  apply changeDataRes_returned in Hout.
  destruct Hout as [df_tmp [Etmp [Hreq_tmp ->]]].
  set (out := sort_values Frame.row_leb (sort_values Frame.row_leb df_tmp)).
  assert (Hreq : Forall (required_time (0 :: ts)) out).
  { apply Forall_forall. intros r Hr. unfold out in Hr.
    rewrite !sort_values_In in Hr.
    rewrite Forall_forall in Hreq_tmp. now apply Hreq_tmp. }
  assert (Hcov : forall v, In v (0 :: ts) ->
                           exists r, In r out /\ Frame.time r == v).
  { intros v Hv.
    destruct (resample_loop_covers df (0 :: ts) [] df_tmp Etmp) as [_ Hc].
    destruct (Hc v Hv) as [r [Hr Et]]. exists r. split; [|exact Et].
    unfold out. now rewrite !sort_values_In. }
  apply detectOverwriteOverlap_no_pass.
  unfold Frame.times.
  destruct ts as [|t1 [|t2 ts]]; [left|right|cbn in Lts; lia].
  - apply (unique_length_one_class 0).
    + apply Forall_map. eapply Forall_impl; [|exact Hreq].
      intros r [v [[<-|[]] Ev]]. exact Ev.
    + destruct (Hcov 0 (or_introl eq_refl)) as [r [Hr _]].
      intros Enil. apply map_eq_nil in Enil. rewrite Enil in Hr. exact Hr.
  - assert (Hlt : 0 < t1).
    { inversion Sts as [|? ? _ Hall]; subst.
      inversion Hall; subst. assumption. }
    apply (unique_length_two_classes 0 t1).
    + intros E01. rewrite <- E01 in Hlt. exact (Qlt_irrefl _ Hlt).
    + apply Forall_map. eapply Forall_impl; [|exact Hreq].
      intros r [v [[<-|[<-|[]]] Ev]]; auto.
    + destruct (Hcov 0 (or_introl eq_refl)) as [r [Hr Et]].
      exists (Frame.time r). split; [now apply in_map|exact Et].
    + destruct (Hcov t1 (or_intror (or_introl eq_refl))) as [r [Hr Et]].
      exists (Frame.time r). split; [now apply in_map|exact Et].
Qed.

Lemma defect_near_top_raises_witness :
  exists df_material,
    add_total_thickness 1 1 1 166 example_layers = Returned df_material /\
    (List.length (required_values df_material) <= 2)%nat /\
    forall (df : list Frame.Sample) (out : list Frame.Row),
      Frame.changeDataRes df (required_values df_material) = Returned out ->
      Frame.detectOverwriteOverlap out = Raised NameError.
Proof.
  apply (defect_near_top_raises 1 1 1 166 example_layers).
  - reflexivity.
  - repeat constructor; discriminate.
  - repeat constructor.
  - cbn. lia.
Defined.

(** ** Stack Assembler: the rows of the table *)

Lemma length_repeat_list {A : Type} (l : list A) (n : nat) :
  List.length (repeat_list l n) = (n * List.length l)%nat.
Proof.
  unfold repeat_list. induction n as [|n IH]; [reflexivity|].
  cbn [repeat List.concat]. rewrite length_app, IH. reflexivity.
Qed.

Lemma length_stack_column {A : Type} (col : InputRow -> A) (df : list InputRow) :
  List.length (stack_column col df)
  = (List.length (column_of_type "Substrate" i_material df)
     + MLpair * List.length (column_of_type "ML" i_material df)
     + List.length (column_of_type "Capping" i_material df)
     + List.length (column_of_type "Absorber" i_material df))%nat.
Proof.
  assert (Hnone : forall T, has_type T df = false ->
                            List.length (column_of_type T i_material df) = 0%nat).
  { intros T HT. unfold column_of_type, has_type in *.
    rewrite length_rev, length_map.
    induction df as [|r df IH]; [reflexivity|]. cbn in HT |- *.
    destruct (String.eqb (i_type r) T); [discriminate|]. now apply IH. }
  unfold stack_column. rewrite !length_app.
  rewrite !(length_column_of_type _ i_material col).
  destruct (has_type "Substrate" df) eqn:E1, (has_type "ML" df) eqn:E2,
    (has_type "Capping" df) eqn:E3, (has_type "Absorber" df) eqn:E4;
    rewrite ?length_repeat_list;
    rewrite <- ?(length_column_of_type _ i_material col);
    try rewrite (Hnone _ E1); try rewrite (Hnone _ E2);
    try rewrite (Hnone _ E3); try rewrite (Hnone _ E4);
    cbn [List.length]; lia.
Qed.

(** X24: The stack table has one row per substrate, capping and absorber row
    of the input and [MLpair] rows per multilayer row, numbered from 1
    upwards, and the air top as its last row with the next number. *)
Theorem written_stack_layers
        (delta_z defect_x defect_y defect_thickness : Q) (df : list InputRow) :
  let written :=
    fst (input_mask_conversion delta_z defect_x defect_y defect_thickness df) in
  let n := (List.length (column_of_type "Substrate" i_material df)
            + MLpair * List.length (column_of_type "ML" i_material df)
            + List.length (column_of_type "Capping" i_material df)
            + List.length (column_of_type "Absorber" i_material df))%nat in
  map layer_number written = map Z.of_nat (seq 1 (n + 1)) /\
  exists t, nth_error written n = Some (mkStackRow (Z.of_nat n + 1) "air" t).
Proof.
  intros written n. unfold written, input_mask_conversion. cbv zeta.
  set (df' := prepare_input df).
  assert (Hn : List.length (stack_column i_material df') = n).
  { rewrite length_stack_column. unfold df', n.
    now rewrite !(column_of_type_prepare _ i_material df) by reflexivity. }
  assert (Ht : List.length (stack_column i_thickness df') = n).
  { rewrite (length_stack_column i_thickness df').
    now rewrite <- (length_stack_column i_material df'). }
  assert (Hlen : List.length (mask_stack_of_input df') = n).
  { unfold mask_stack_of_input. rewrite length_map, !length_combine.
    rewrite !length_map, length_seq, Hn, Ht. lia. }
  assert (Hnum : map layer_number (mask_stack_of_input df')
                 = map Z.of_nat (seq 1 n)).
  { unfold mask_stack_of_input. rewrite map_map. cbn [layer_number].
    rewrite Hn. change (fun x : Z * (string * Q) => fst x)
      with (@fst Z (string * Q)).
    apply map_fst_combine_eq.
    rewrite length_map, length_seq, length_combine, length_map, Hn, Ht. lia. }
  assert (Hair : map layer_number (mask_stack_with_air (mask_stack_of_input df'))
                 = map Z.of_nat (seq 1 (n + 1))).
  { unfold mask_stack_with_air.
    rewrite map_app, Hnum, Hlen. cbn [map layer_number].
    rewrite seq_app, map_app. cbn [seq map]. do 3 f_equal. lia. }
  destruct (Qeq_bool (delta_z * (1 # 1000)) 0); cbv zeta; unfold fst.
  - split; [exact Hair|].
    unfold mask_stack_with_air. rewrite nth_error_app2 by lia.
    rewrite Hlen, Nat.sub_diag. cbn [nth_error]. eexists. reflexivity.
  - unfold mask_stack_adjusted. split.
    + rewrite map_map.
      rewrite (map_ext _ layer_number)
        by (intros r; destruct (String.eqb (material r) "air"); reflexivity).
      exact Hair.
    + unfold mask_stack_with_air.
      rewrite nth_error_map, nth_error_app2 by lia.
      rewrite Hlen, Nat.sub_diag. cbn [nth_error option_map material].
      eexists. reflexivity.
Qed.
